(** * io_scene_dts: the DTS shape importer ([import_dts.py])

    A shallow embedding of the three functions of [import_dts.py]
    ([import_material], [create_bmesh], [load]) together with the
    properties of the geometry, material and hierarchy reconstruction
    that the importer is documented to have.

    Conventions.
    - Python [int] is [Z]; [a & b] is [Z.land]; an [int] used as a
      condition is true when it is not zero.
    - Python [float] is the kernel's binary64 [float].
    - [xs[i]] on a Python list is [Py.index]: a negative index counts from
      the end, anything outside [-len, len) raises [IndexError].
    - A raising statement is a [Raise e] result; the statements after it
      do not run.
    - A [dict] is a [gmap]; the descriptor objects of [shape.materials]
      are identified by their position in that list, which is also how
      the dictionaries keyed by a descriptor are keyed here. *)

From Stdlib Require Import ZArith PrimFloat.
From stdpp Require Import gmap strings list fin_maps.

Local Open Scope Z_scope.
#[local] Set Warnings "-inexact-float".

(** ** Python values and control *)

Module Py.

(** What a failed lookup is keyed by: a string, an [int], or an object
    (named by its position in the list that holds it). *)
Inductive key : Type :=
| KStr (s : string)
| KInt (n : Z)
| KObj (n : nat).

(** The exceptions the importer can raise; [HostError] is an exception
    of the host application's own. *)
Inductive exn : Type :=
| AssertionError
| IndexError
| KeyError (k : key)
| UnboundLocalError (var : string)
| HostError (what : string).

Inductive result (A : Type) : Type :=
| Return (a : A)
| Raise (e : exn).
Arguments Return {A} a.
Arguments Raise {A} e.

#[global] Instance result_ret : MRet result := fun A a => Return a.
#[global] Instance result_bind : MBind result := fun A B f m =>
  match m with
  | Return a => f a
  | Raise e => Raise e
  end.

Definition raises {A} (m : result A) : Prop := ∃ e, m = Raise e.

(** [xs[i]]. *)
Definition index {A} (xs : list A) (i : Z) : result A :=
  let n := Z.of_nat (length xs) in
  let j := if i <? 0 then i + n else i in
  if (j <? 0) || (n <=? j) then Raise IndexError
  else match xs !! Z.to_nat j with
       | Some x => Return x
       | None => Raise IndexError
       end.

(** The position [xs[i]] reads, with the same failure. It names the
    object found there when the elements are objects. *)
Definition position {A} (xs : list A) (i : Z) : result nat :=
  let n := Z.of_nat (length xs) in
  let j := if i <? 0 then i + n else i in
  if (j <? 0) || (n <=? j) then Raise IndexError else Return (Z.to_nat j).

(** [range(start, stop, step)] for a positive [step]. *)
Definition range_step (start stop step : Z) : list Z :=
  (λ k : nat, start + step * Z.of_nat k) <$>
    seq 0 (Z.to_nat ((stop - start + step - 1) / step)).

(** [range(start, stop)]. *)
Definition range (start stop : Z) : list Z := range_step start stop 1.

(** [assert c]. *)
Definition assert (c : bool) : result unit :=
  if c then Return tt else Raise AssertionError.

(** An [int] as a condition. *)
Definition truthy (n : Z) : bool := negb (n =? 0).

(** [for x in xs: body], the body acting on the loop's variables [s]. *)
Fixpoint for_each {S A} (body : S → A → result S) (xs : list A) (s : S) : result S :=
  match xs with
  | [] => Return s
  | x :: rest => s' ← body s x; for_each body rest s'
  end.

(** [enumerate(xs)]. *)
Definition enumerate {A} (xs : list A) : list (nat * A) :=
  zip (seq 0 (length xs)) xs.

(** [d[k]] on a dictionary keyed by objects. *)
Definition dict_get {V} (d : gmap nat V) (k : nat) : result V :=
  match d !! k with
  | Some v => Return v
  | None => Raise (KeyError (KObj k))
  end.

End Py.
Import Py.

(** ** The shape asset ([DtsTypes], [DtsShape])

    The reader's classes are not part of [import_dts.py]; what the
    importer reads of them is declared here. The values of the flag
    constants are parameters of the development. *)

(** The flag bits of [Material.flags]. *)
Record MaterialConsts : Type := {
  SWrap : Z;
  TWrap : Z;
  Translucent : Z;
  Additive : Z;
  Subtractive : Z;
  SelfIlluminating : Z;
  NeverEnvMap : Z;
  NoMipMap : Z;
  IFLMaterial : Z
}.

(** The bits of [Primitive.type]. *)
Record PrimitiveConsts : Type := {
  Strip : Z;
  Fan : Z;
  Indexed : Z;
  NoMaterial : Z;
  MaterialMask : Z
}.

Inductive MeshType : Type :=
| Null
| Standard
| Unsupported (name : string).

Record Material : Type := {
  mat_name : string;
  mat_flags : Z
}.

Record IFLEntry : Type := {
  ifl_name : Z;
  ifl_slot : Z;
  ifl_firstFrame : Z;
  ifl_numFrames : Z;
  ifl_time : float
}.

Record Point2 : Type := { p2_x : float; p2_y : float }.
Record Point3 : Type := { p3_x : float; p3_y : float; p3_z : float }.
Record Quaternion : Type := { q_x : float; q_y : float; q_z : float; q_w : float }.

Record Primitive : Type := {
  firstElement : Z;
  numElements : Z;
  prim_type : Z
}.

Record Mesh : Type := {
  mesh_type : MeshType;
  verts : list Point3;
  normals : list Point3;
  tverts : list Point2;
  indices : list Z;
  primitives : list Primitive
}.

Record Node : Type := {
  node_name : Z;
  node_parent : Z
}.

Record Object : Type := {
  obj_name : Z;
  obj_node : Z;
  firstMesh : Z;
  numMeshes : Z
}.

Record DetailLevel : Type := {
  lod_name : Z;
  objectDetail : Z
}.

Record DtsShape : Type := {
  names : list string;
  nodes : list Node;
  materials : list Material;
  iflmaterials : list IFLEntry;
  meshes : list Mesh;
  objects : list Object;
  detail_levels : list DetailLevel;
  default_translations : list Point3;
  default_rotations : list Quaternion
}.

(** ** The primitive decoder (the three loops of [create_bmesh]) *)

(** A face: the three vertex indices and the descriptor ([None] or the
    position of the descriptor in [shape.materials]). *)
Definition Face : Type := (Z * Z * Z) * option nat.

(** The tuple [(indices[a], indices[b], indices[c])], read left to right. *)
Definition triple (indices : list Z) (a b c : Z) : result (Z * Z * Z) :=
  x ← Py.index indices a;
  y ← Py.index indices b;
  z ← Py.index indices c;
  mret (x, y, z).

(** The body of the strip loop, for the values [ids] of [i]. *)
Fixpoint strip_loop (indices : list Z) (dmat : option nat)
    (ids : list Z) (even : bool) (faces : list Face) : result (list Face) :=
  match ids with
  | [] => mret faces
  | i :: rest =>
      t ← (if even then triple indices i (i - 1) (i - 2)
           else triple indices (i - 2) (i - 1) i);
      strip_loop indices dmat rest (negb even) (faces ++ [(t, dmat)])
  end.

(** The body of the fan loop. *)
Fixpoint fan_loop (indices : list Z) (dmat : option nat)
    (ids : list Z) (even : bool) (faces : list Face) : result (list Face) :=
  match ids with
  | [] => mret faces
  | i :: rest =>
      t ← (if even then triple indices i (i - 1) 0
           else triple indices 0 (i - 1) i);
      fan_loop indices dmat rest (negb even) (faces ++ [(t, dmat)])
  end.

(** The body of the triangle-list loop. *)
Fixpoint list_loop (indices : list Z) (dmat : option nat)
    (ids : list Z) (faces : list Face) : result (list Face) :=
  match ids with
  | [] => mret faces
  | i :: rest =>
      t ← triple indices i (i - 1) (i - 2);
      list_loop indices dmat rest (faces ++ [(t, dmat)])
  end.

Section Decoder.
Context (PC : PrimitiveConsts).

(** [if prim.type & Primitive.Strip: ... elif prim.type & Primitive.Fan:
    ... else: ...], appending to [faces]. *)
Definition decode (indices : list Z) (prim : Primitive) (dmat : option nat)
    (faces : list Face) : result (list Face) :=
  let first := firstElement prim in
  let stop := firstElement prim + numElements prim in
  if truthy (Z.land (prim_type prim) (Strip PC)) then
    strip_loop indices dmat (Py.range (first + 2) stop) true faces
  else if truthy (Z.land (prim_type prim) (Fan PC)) then
    fan_loop indices dmat (Py.range (first + 2) stop) true faces
  else
    list_loop indices dmat (Py.range_step (first + 2) stop 3) faces.

End Decoder.


(** ** The host application ([bpy], [os.path], [random])

    What the importer creates in the host is kept in a [World]; what it
    only asks the host (the file system, the texture store, the random
    generator) is an [Env]. *)

(** A file path, as its components from the last one back to the root:
    [os.path.dirname] drops the head and leaves the root [[]] unchanged,
    [os.path.join dir name] is [name :: dir]. *)
Definition path : Type := list string.

Module Os.

Definition dirname (p : path) : path := tail p.

Definition join (dir : path) (name : string) : path := name :: dir.

(** [p + suffix] on the text of a path: the suffix lands on the last
    component. *)
Definition add_suffix (p : path) (suffix : string) : path :=
  match p with
  | [] => [suffix]
  | c :: dir => (c +:+ suffix) :: dir
  end.

(** The path as text, for messages. *)
Definition render (p : path) : string :=
  foldr (λ c acc, acc +:+ "/" +:+ c) "" p.

End Os.

Record Image : Type := { img_filepath : path }.

Record Env : Type := {
  isfile : path → bool;
  ismount : path → bool;
  images_load : path → option Image;   (* [None]: the load raises *)
  random : nat → float                 (* the successive draws *)
}.

(** A custom property value ([bmat["key"] = value]). *)
Inductive PropVal : Type :=
| PBool (b : bool)
| PInt (n : Z)
| PFloat (f : float)
| PStr (s : string).

Record Texture : Type := {
  tex_name : string;
  tex_type : string;
  tex_image : option Image
}.

Definition Color : Type := float * float * float.

(** A material datablock ([bmat]). *)
Record BMat : Type := {
  bmat_name : string;
  texture_slots : list Texture;
  diffuse_color : Color;
  use_shadeless : bool;
  use_transparency : bool;
  props : gmap string PropVal
}.

Record Polygon : Type := {
  loop_total : Z;
  loop_start : Z;
  material_index : Z
}.

(** A mesh datablock ([me]); [me_loops] holds each loop's
    [vertex_index] and [me_uv] the data of [me.uv_layers[0]]. *)
Record BMesh : Type := {
  me_name : string;
  me_materials : list BMat;
  me_co : list Point3;
  me_normal : list Point3;
  me_polygons : list Polygon;
  me_loops : list Z;
  me_uv : list (float * float)
}.

(** An object datablock; [ob_parent] is the handle of the parent. *)
Record BObj : Type := {
  ob_name : string;
  ob_data : option BMesh;
  ob_parent : option nat;
  ob_location : Point3;
  ob_rotation_mode : string;
  ob_rotation_quaternion : float * float * float * float;
  ob_empty_draw_type : string;
  ob_empty_draw_size : float;
  ob_hide : bool
}.

(** The host's state. An object's handle is its position in
    [data_objects]; a group is the list of the handles linked to it. *)
Record World : Type := {
  stdout : list string;
  rand_pos : nat;
  data_texts : gmap string string;
  data_objects : list BObj;
  data_groups : gmap string (list nat);
  scene_objects : list nat
}.

(** Statements that read or change the host: a result and the state
    the statement leaves, also when it raises. *)
Definition M (A : Type) : Type := World → result A * World.

#[global] Instance M_ret : MRet M := λ A a w, (Return a, w).
#[global] Instance M_bind : MBind M := λ A B f m w,
  match m w with
  | (Return a, w') => f a w'
  | (Raise e, w') => (Raise e, w')
  end.

(** A statement that only computes. *)
Definition lift {A} (r : result A) : M A := λ w, (r, w).

Definition print (line : string) : M unit := λ w,
  (Return tt,
   {| stdout := stdout w ++ [line]; rand_pos := rand_pos w;
      data_texts := data_texts w; data_objects := data_objects w;
      data_groups := data_groups w; scene_objects := scene_objects w |}).

(** [random()]. *)
Definition draw (env : Env) : M float := λ w,
  (Return (random env (rand_pos w)),
   {| stdout := stdout w; rand_pos := S (rand_pos w);
      data_texts := data_texts w; data_objects := data_objects w;
      data_groups := data_groups w; scene_objects := scene_objects w |}).

Definition set_objects (f : list BObj → list BObj) (w : World) : World :=
  {| stdout := stdout w; rand_pos := rand_pos w;
     data_texts := data_texts w; data_objects := f (data_objects w);
     data_groups := data_groups w; scene_objects := scene_objects w |}.

Definition set_texts (f : gmap string string → gmap string string) (w : World) : World :=
  {| stdout := stdout w; rand_pos := rand_pos w;
     data_texts := f (data_texts w); data_objects := data_objects w;
     data_groups := data_groups w; scene_objects := scene_objects w |}.

Definition set_groups (f : gmap string (list nat) → gmap string (list nat))
    (w : World) : World :=
  {| stdout := stdout w; rand_pos := rand_pos w;
     data_texts := data_texts w; data_objects := data_objects w;
     data_groups := f (data_groups w); scene_objects := scene_objects w |}.

Definition set_scene (f : list nat → list nat) (w : World) : World :=
  {| stdout := stdout w; rand_pos := rand_pos w;
     data_texts := data_texts w; data_objects := data_objects w;
     data_groups := data_groups w; scene_objects := f (scene_objects w) |}.

(** [for x in xs: body] for statements that act on the host. *)
Fixpoint for_eachM {S A} (body : S → A → M S) (xs : list A) (s : S) : M S :=
  match xs with
  | [] => mret s
  | x :: rest => s' ← body s x; for_eachM body rest s'
  end.

(** A new object datablock, with the host's defaults. *)
Definition new_object (name : string) (data : option BMesh) : BObj := {|
  ob_name := name; ob_data := data; ob_parent := None;
  ob_location := {| p3_x := 0; p3_y := 0; p3_z := 0 |};
  ob_rotation_mode := "XYZ";
  ob_rotation_quaternion := (1, 0, 0, 0)%float;
  ob_empty_draw_type := "PLAIN_AXES";
  ob_empty_draw_size := 1;
  ob_hide := false
|}.

(** [bpy.data.objects.new(name, data)]: the handle of the new object. *)
Definition objects_new (name : string) (data : option BMesh) : M nat := λ w,
  (Return (length (data_objects w)),
   set_objects (λ obs, obs ++ [new_object name data]) w).

(** An assignment to an attribute of the object with handle [h]. *)
Definition modify (h : nat) (f : BObj → BObj) : M unit := λ w,
  (Return tt, set_objects (alter f h) w).

Definition set_empty_draw (type : string) (size : float) (o : BObj) : BObj := {|
  ob_name := ob_name o; ob_data := ob_data o; ob_parent := ob_parent o;
  ob_location := ob_location o; ob_rotation_mode := ob_rotation_mode o;
  ob_rotation_quaternion := ob_rotation_quaternion o;
  ob_empty_draw_type := type; ob_empty_draw_size := size;
  ob_hide := ob_hide o |}.

Definition set_parent (p : nat) (o : BObj) : BObj := {|
  ob_name := ob_name o; ob_data := ob_data o; ob_parent := Some p;
  ob_location := ob_location o; ob_rotation_mode := ob_rotation_mode o;
  ob_rotation_quaternion := ob_rotation_quaternion o;
  ob_empty_draw_type := ob_empty_draw_type o;
  ob_empty_draw_size := ob_empty_draw_size o;
  ob_hide := ob_hide o |}.

Definition set_location (l : Point3) (o : BObj) : BObj := {|
  ob_name := ob_name o; ob_data := ob_data o; ob_parent := ob_parent o;
  ob_location := l; ob_rotation_mode := ob_rotation_mode o;
  ob_rotation_quaternion := ob_rotation_quaternion o;
  ob_empty_draw_type := ob_empty_draw_type o;
  ob_empty_draw_size := ob_empty_draw_size o;
  ob_hide := ob_hide o |}.

Definition set_rotation_mode (m : string) (o : BObj) : BObj := {|
  ob_name := ob_name o; ob_data := ob_data o; ob_parent := ob_parent o;
  ob_location := ob_location o; ob_rotation_mode := m;
  ob_rotation_quaternion := ob_rotation_quaternion o;
  ob_empty_draw_type := ob_empty_draw_type o;
  ob_empty_draw_size := ob_empty_draw_size o;
  ob_hide := ob_hide o |}.

Definition set_rotation_quaternion (q : float * float * float * float) (o : BObj)
    : BObj := {|
  ob_name := ob_name o; ob_data := ob_data o; ob_parent := ob_parent o;
  ob_location := ob_location o; ob_rotation_mode := ob_rotation_mode o;
  ob_rotation_quaternion := q;
  ob_empty_draw_type := ob_empty_draw_type o;
  ob_empty_draw_size := ob_empty_draw_size o;
  ob_hide := ob_hide o |}.

Definition set_hide (v : bool) (o : BObj) : BObj := {|
  ob_name := ob_name o; ob_data := ob_data o; ob_parent := ob_parent o;
  ob_location := ob_location o; ob_rotation_mode := ob_rotation_mode o;
  ob_rotation_quaternion := ob_rotation_quaternion o;
  ob_empty_draw_type := ob_empty_draw_type o;
  ob_empty_draw_size := ob_empty_draw_size o;
  ob_hide := v |}.

(** [context.scene.objects.link(ob)]. *)
Definition scene_link (h : nat) : M unit := λ w,
  (Return tt, set_scene (λ l, l ++ [h]) w).

(** [if name not in bpy.data.groups: bpy.data.groups.new(name)]. *)
Definition groups_ensure (name : string) : M unit := λ w,
  (Return tt,
   match data_groups w !! name with
   | Some _ => w
   | None => set_groups (insert name []) w
   end).

(** [bpy.data.groups[name].objects.link(h)]. *)
Definition group_link (name : string) (h : nat) : M unit := λ w,
  match data_groups w !! name with
  | Some members => (Return tt, set_groups (insert name (members ++ [h])) w)
  | None => (Raise (KeyError (KStr name)), w)
  end.

(** The text block [NodeOrder]: the existing one, or a new empty one. *)
Definition texts_ensure (name : string) : M unit := λ w,
  (Return tt,
   match data_texts w !! name with
   | Some _ => w
   | None => set_texts (insert name "") w
   end).

(** [text.from_string(s)]. *)
Definition text_from_string (name : string) (s : string) : M unit := λ w,
  (Return tt, set_texts (insert name s) w).

(** [bpy.data.materials.new(name)]. *)
Definition materials_new (name : string) : BMat := {|
  bmat_name := name;
  texture_slots := [];
  diffuse_color := (0.8, 0.8, 0.8)%float;
  use_shadeless := false;
  use_transparency := false;
  props := ∅
|}.

Definition add_texture_slot (t : Texture) (b : BMat) : BMat := {|
  bmat_name := bmat_name b;
  texture_slots := texture_slots b ++ [t];
  diffuse_color := diffuse_color b;
  use_shadeless := use_shadeless b;
  use_transparency := use_transparency b;
  props := props b
|}.

Definition set_diffuse_color (c : Color) (b : BMat) : BMat := {|
  bmat_name := bmat_name b;
  texture_slots := texture_slots b;
  diffuse_color := c;
  use_shadeless := use_shadeless b;
  use_transparency := use_transparency b;
  props := props b
|}.

Definition set_use_shadeless (v : bool) (b : BMat) : BMat := {|
  bmat_name := bmat_name b;
  texture_slots := texture_slots b;
  diffuse_color := diffuse_color b;
  use_shadeless := v;
  use_transparency := use_transparency b;
  props := props b
|}.

Definition set_use_transparency (v : bool) (b : BMat) : BMat := {|
  bmat_name := bmat_name b;
  texture_slots := texture_slots b;
  diffuse_color := diffuse_color b;
  use_shadeless := use_shadeless b;
  use_transparency := v;
  props := props b
|}.

(** [bmat[key] = value]. *)
Definition set_prop (key : string) (v : PropVal) (b : BMat) : BMat := {|
  bmat_name := bmat_name b;
  texture_slots := texture_slots b;
  diffuse_color := diffuse_color b;
  use_shadeless := use_shadeless b;
  use_transparency := use_transparency b;
  props := <[key := v]> (props b)
|}.

(** [bmat[key]]. *)
Definition get_prop (key : string) (b : BMat) : result PropVal :=
  match props b !! key with
  | Some v => Return v
  | None => Raise (KeyError (KStr key))
  end.

(** ** Module constants *)

Definition blockhead_nodes : list string :=
  ["HeadSkin"; "chest"; "Larm"; "Lhand"; "Rarm"; "Rhand"; "pants"; "LShoe"; "RShoe"].

Definition texture_extensions : list string := ["png"; "jpg"].

(** The table as written, before the module's loop divides it. *)
Definition default_materials_raw : list (string * Color) := [
  ("black", (0, 0, 0)); ("black25", (191, 191, 191));
  ("black50", (128, 128, 128)); ("black75", (64, 64, 64));
  ("blank", (255, 255, 255)); ("blue", (0, 0, 255));
  ("darkRed", (128, 0, 0)); ("gray25", (64, 64, 64));
  ("gray50", (128, 128, 128)); ("gray75", (191, 191, 191));
  ("green", (26, 128, 64)); ("lightBlue", (10, 186, 245));
  ("lightYellow", (249, 249, 99)); ("palegreen", (125, 136, 104));
  ("red", (213, 0, 0)); ("white", (255, 255, 255));
  ("yellow", (255, 255, 0))
]%float.

(** [default_materials] after
    [default_materials[name] = (color[0] / 255, color[1] / 255, color[2] / 255)]. *)
Definition default_materials : gmap string Color :=
  list_to_map
    ((λ '(name, (r, g, b)), (name, (r / 255, g / 255, b / 255)%float))
       <$> default_materials_raw).

(** ** [import_material] *)

(** The [for extension in texture_extensions] loop in [dirname]: the
    first [texname] that is a file. *)
Definition find_extension (env : Env) (name : string) (dirname : path) : option path :=
  find (isfile env)
    ((λ extension, Os.add_suffix (Os.join dirname name) ("." +:+ extension))
       <$> texture_extensions).

(** The [while True] loop: [Some texname] when [found_tex]. It ends
    because each turn that does not break drops a component of
    [dirname], and breaks at the root, where [prevdir == dirname]. *)
Fixpoint find_texture (env : Env) (name : string) (dirname : path) : option path :=
  match find_extension env name dirname with
  | Some texname => Some texname
  | None =>
      if ismount env dirname then None
      else match dirname with
           | [] => None
           | _ :: parent => find_texture env name parent
           end
  end.

(** [try: teximg = bpy.data.images.load(texname) except: print(...)]:
    the local [teximg] afterwards, [None] when it was not assigned. *)
Definition try_load (env : Env) (texname : path) : M (option Image) :=
  match images_load env texname with
  | Some img => mret (Some img)
  | None => _ ← print ("Cannot load image " +:+ Os.render texname); mret None
  end.

(** Reading a local variable. *)
Definition read_local {A} (var : string) (v : option A) : result A :=
  match v with
  | Some a => Return a
  | None => Raise (UnboundLocalError var)
  end.

Definition when {A} (c : bool) (f : A → A) (a : A) : A := if c then f a else a.

Section Importer.
Context (MC : MaterialConsts) (PC : PrimitiveConsts).

(** The [if]/[elif] chain that sets [bmat["blendMode"]]. *)
Definition blend_mode (flags : Z) (bmat : BMat) : BMat :=
  if truthy (Z.land flags (Z.lor (Additive MC) (Subtractive MC))) then
    set_prop "blendMode" (PStr "both") bmat
  else if truthy (Z.land flags (Additive MC)) then
    set_prop "blendMode" (PStr "additive") bmat
  else if truthy (Z.land flags (Subtractive MC)) then
    set_prop "blendMode" (PStr "subtractive") bmat
  else if truthy (Z.land flags (Translucent MC)) then
    set_prop "blendMode" (PStr "none") bmat
  else bmat.

(** The flag-derived settings, in the order of the source. *)
Definition apply_flags (flags : Z) (bmat : BMat) : BMat :=
  let bmat := when (truthy (Z.land flags (SelfIlluminating MC)))
                (set_use_shadeless true) bmat in
  let bmat := when (truthy (Z.land flags (Translucent MC)))
                (set_use_transparency true) bmat in
  let bmat := blend_mode flags bmat in
  let bmat := when (negb (truthy (Z.land flags (SWrap MC))))
                (set_prop "noSWrap" (PBool true)) bmat in
  let bmat := when (negb (truthy (Z.land flags (TWrap MC))))
                (set_prop "noTWrap" (PBool true)) bmat in
  let bmat := when (negb (truthy (Z.land flags (NeverEnvMap MC))))
                (set_prop "envMap" (PBool true)) bmat in
  let bmat := when (negb (truthy (Z.land flags (NoMipMap MC))))
                (set_prop "mipMap" (PBool true)) bmat in
  when (truthy (Z.land flags (IFLMaterial MC)))
    (set_prop "ifl" (PBool true)) bmat.

(** The first half of [import_material]: the new datablock with its
    texture, default colour or random colour. *)
Definition texture_or_color (env : Env) (dmat : Material) (filepath : path) : M BMat :=
  let bmat := materials_new (mat_name dmat) in
  let dirname := Os.dirname filepath in
  match find_texture env (mat_name dmat) dirname with
  | Some texname =>
      teximg ← try_load env texname;
      let tex := {| tex_name := mat_name dmat; tex_type := "IMAGE";
                    tex_image := None |} in
      img ← lift (read_local "teximg" teximg);
      mret (add_texture_slot
              {| tex_name := tex_name tex; tex_type := tex_type tex;
                 tex_image := Some img |} bmat)
  | None =>
      match default_materials !! mat_name dmat with
      | Some color => mret (set_diffuse_color color bmat)
      | None =>
          r ← draw env; g ← draw env; b ← draw env;
          mret (set_diffuse_color (r, g, b) bmat)
      end
  end.

Definition import_material (env : Env) (dmat : Material) (filepath : path) : M BMat :=
  bmat ← texture_or_color env dmat filepath;
  mret (apply_flags (mat_flags dmat) bmat).

(** ** [create_bmesh] *)

(** The variables the primitive loop changes: [faces],
    [material_indices] and [me.materials]. *)
Record Assembly : Type := {
  faces : list Face;
  material_indices : gmap nat Z;
  slots : list BMat
}.

(** One turn of [for prim in dmesh.primitives]. *)
Definition prim_step (shape : DtsShape) (mats : gmap nat BMat) (indices : list Z)
    (st : Assembly) (prim : Primitive) : result Assembly :=
  _ ← Py.assert (truthy (Z.land (prim_type prim) (Indexed PC)));
  '(dmat, mi, sl) ←
    (if negb (truthy (Z.land (prim_type prim) (NoMaterial PC))) then
       dmat ← Py.position (materials shape) (Z.land (prim_type prim) (MaterialMask PC));
       match material_indices st !! dmat with
       | Some _ => mret (Some dmat, material_indices st, slots st)
       | None =>
           bmat ← dict_get mats dmat;
           mret (Some dmat,
                 <[dmat := Z.of_nat (length (slots st))]> (material_indices st),
                 slots st ++ [bmat])
       end
     else mret (None, material_indices st, slots st));
  fs ← decode PC indices prim dmat (faces st);
  mret {| faces := fs; material_indices := mi; slots := sl |}.

(** The variables the face loop changes: [me.polygons], the loops'
    [vertex_index] and [uvs.data]. *)
Record Geometry : Type := {
  polygons : list Polygon;
  loops : list Z;
  uvs : list (float * float)
}.

(** One turn of [for j, index in zip(poly.loop_indices, verts)]. *)
Definition corner_step (tv : list Point2) (g : Geometry) (c : nat * Z) : result Geometry :=
  let '(j, index) := c in
  let loops' := <[j := index]> (loops g) in
  uv ← Py.index tv index;
  mret {| polygons := polygons g; loops := loops';
          uvs := <[j := (p2_x uv, (1 - p2_y uv)%float)]> (uvs g) |}.

(** [poly.loop_indices]. *)
Definition loop_indices (poly : Polygon) : list nat :=
  Z.to_nat <$> Py.range (loop_start poly) (loop_start poly + loop_total poly).

(** One turn of [for i, ((verts, dmat), poly) in enumerate(zip(faces, me.polygons))].
    In [if dmat:] a descriptor object is true and [None] is false. *)
Definition face_step (tv : list Point2) (mi : gmap nat Z)
    (g : Geometry) (f : nat * Face) : result Geometry :=
  let '(i, ((v0, v1, v2), dmat)) := f in
  match polygons g !! i with
  | None => Return g                      (* [zip] stops at the shorter list *)
  | Some poly =>
      let poly := {| loop_total := 3; loop_start := Z.of_nat i * 3;
                     material_index := material_index poly |} in
      poly ← match dmat with
             | Some d =>
                 m ← match mi !! d with
                     | Some m => Return m
                     | None => Raise (KeyError (KObj d))
                     end;
                 mret {| loop_total := loop_total poly; loop_start := loop_start poly;
                         material_index := m |}
             | None => mret poly
             end;
      let g := {| polygons := <[i := poly]> (polygons g); loops := loops g;
                  uvs := uvs g |} in
      for_each (corner_step tv) (zip (loop_indices poly) [v0; v1; v2]) g
  end.

Definition default_polygon : Polygon :=
  {| loop_total := 0; loop_start := 0; material_index := 0 |}.

(** The mesh datablock the function returns, as it stands before the
    host's [validate] and [update]. *)
Definition create_bmesh (dmesh : Mesh) (mats : gmap nat BMat) (shape : DtsShape)
    : result BMesh :=
  st ← for_each (prim_step shape mats (indices dmesh)) (primitives dmesh)
        {| faces := []; material_indices := ∅; slots := [] |};
  _ ← (if Nat.eqb (length (normals dmesh)) (length (verts dmesh)) then Return tt
       else Raise (HostError "foreach_set"));
  let n := length (faces st) in
  g ← for_each (face_step (tverts dmesh) (material_indices st))
        (enumerate (faces st))
        {| polygons := replicate n default_polygon;
           loops := replicate (n * 3) 0;
           uvs := replicate (n * 3) (0, 0)%float |};
  mret {| me_name := "Mesh"; me_materials := slots st;
          me_co := verts dmesh; me_normal := normals dmesh;
          me_polygons := polygons g; me_loops := loops g; me_uv := uvs g |}.

(** ** [load]

    The model starts from the shape the reader returned; the debug
    report writes files only and is left out. *)

Inductive NodeMode : Type := EMPTY | ARMATURE | BONE.

(** [v == True] on a custom property. *)
Definition eq_True (v : PropVal) : bool :=
  match v with
  | PBool b => b
  | PInt n => n =? 1
  | PFloat f => PrimFloat.eqb f 1
  | PStr _ => false
  end.

Section Load.
Context (env : Env) (shape : DtsShape) (filepath : path).
Context (node_mode : NodeMode) (hide_default_player : bool).

(** [for dmat in shape.materials: materials[dmat] = import_material(dmat, filepath)]. *)
Definition import_materials : M (gmap nat BMat) :=
  for_eachM
    (λ mats '(k, dmat),
       bmat ← import_material env dmat filepath;
       mret (<[k := bmat]> mats))
    (enumerate (materials shape)) ∅.

(** One turn of [for ifl in shape.iflmaterials]. The handle [mat] is the
    entry of [materials]; what is assigned through it lands there. *)
Definition ifl_step (mats : gmap nat BMat) (ifl : IFLEntry) : result (gmap nat BMat) :=
  dmat ← Py.position (materials shape) (ifl_slot ifl);
  mat ← dict_get mats dmat;
  v ← get_prop "ifl" mat;
  _ ← Py.assert (eq_True v);
  name ← Py.index (names shape) (ifl_name ifl);
  let mat := set_prop "iflName" (PStr name) mat in
  let mat := set_prop "iflFirstFrame" (PInt (ifl_firstFrame ifl)) mat in
  let mat := set_prop "iflNumFrames" (PInt (ifl_numFrames ifl)) mat in
  let mat := set_prop "iflTime" (PFloat (ifl_time ifl)) mat in
  mret (<[dmat := mat]> mats).

Definition assign_ifl (mats : gmap nat BMat) : result (gmap nat BMat) :=
  for_each ifl_step (iflmaterials shape) mats.

(** [for lod in shape.detail_levels: lod_by_mesh[lod.objectDetail] = lod]. *)
Definition lod_by_mesh : gmap Z DetailLevel :=
  foldl (λ d lod, <[objectDetail lod := lod]> d) ∅ (detail_levels shape).

Definition newline : string := String (Ascii.ascii_of_nat 10) EmptyString.

(** The text block [NodeOrder] and its content. *)
Definition write_node_order : M unit :=
  _ ← texts_ensure "NodeOrder";
  lines ← lift (mapM (λ node, Py.index (names shape) (node_name node)) (nodes shape));
  text_from_string "NodeOrder" (String.concat newline lines).

(** One turn of [for i, node in enumerate(shape.nodes)]; the variable
    the loop changes is [node_obs]. *)
Definition node_step (node_obs : list nat) (c : nat * Node) : M (list nat) :=
  let '(i, node) := c in
  name ← lift (Py.index (names shape) (node_name node));
  ob ← objects_new name None;
  _ ← modify ob (set_empty_draw "SINGLE_ARROW" 0.5);
  _ ← (if negb (node_parent node =? -1) then
         parent ← lift (Py.index node_obs (node_parent node));
         modify ob (set_parent parent)
       else mret tt);
  location ← lift (Py.index (default_translations shape) (Z.of_nat i));
  _ ← modify ob (set_location location);
  _ ← modify ob (set_rotation_mode "QUATERNION");
  q ← lift (Py.index (default_rotations shape) (Z.of_nat i));
  _ ← modify ob (set_rotation_quaternion ((- q_w q)%float, q_x q, q_y q, q_z q));
  _ ← scene_link ob;
  mret (node_obs ++ [ob]).

(** The node handles [node_obs] after the [if node_mode == ...] chain. *)
Definition build_nodes : M (list nat) :=
  match node_mode with
  | EMPTY => for_eachM node_step (enumerate (nodes shape)) []
  | ARMATURE => mret []
  | BONE => mret []
  end.

(** One turn of [for meshIndex in range(obj.numMeshes)]. *)
Definition mesh_step (mats : gmap nat BMat) (node_obs : list nat) (obj : Object)
    (_ : unit) (meshIndex : Z) : M unit :=
  mesh ← lift (Py.index (meshes shape) (firstMesh obj + meshIndex));
  match mesh_type mesh with
  | Null => mret tt
  | Unsupported kind =>
      name ← lift (Py.index (names shape) (obj_name obj));
      print (name +:+ " is a " +:+ kind +:+ " mesh, skipping due to lack of support")
  | Standard =>
      bmesh ← lift (create_bmesh mesh mats shape);
      name ← lift (Py.index (names shape) (obj_name obj));
      bobj ← objects_new name (Some bmesh);
      _ ← scene_link bobj;
      _ ← (if negb (obj_node obj =? -1) then
             parent ← lift (Py.index node_obs (obj_node obj));
             modify bobj (set_parent parent)
           else mret tt);
      _ ← (if hide_default_player && negb (bool_decide (name ∈ blockhead_nodes))
           then modify bobj (set_hide true) else mret tt);
      lod ← lift (match lod_by_mesh !! meshIndex with
                  | Some lod => Return lod
                  | None => Raise (KeyError (KInt meshIndex))
                  end);
      group ← lift (Py.index (names shape) (lod_name lod));
      _ ← groups_ensure group;
      group_link group bobj
  end.

(** One turn of [for obj in shape.objects]. *)
Definition object_step (mats : gmap nat BMat) (node_obs : list nat)
    (_ : unit) (obj : Object) : M unit :=
  for_eachM (mesh_step mats node_obs obj) (Py.range 0 (numMeshes obj)) tt.

Definition load : M unit :=
  mats ← import_materials;
  mats ← lift (assign_ifl mats);
  _ ← write_node_order;
  node_obs ← build_nodes;
  for_eachM (object_step mats node_obs) (objects shape) tt.

End Load.

End Importer.

(** ** What the object loop creates

    The statements about the object loop name the meshes it turns into
    objects and the detail level a mesh index selects. *)

(** [shape.meshes[obj.firstMesh + meshIndex]] is there and is a
    Standard mesh. *)
Definition is_standard (shape : DtsShape) (obj : Object) (meshIndex : Z) : bool :=
  match Py.index (meshes shape) (firstMesh obj + meshIndex) with
  | Return mesh =>
      match mesh_type mesh with
      | Standard => true
      | _ => false
      end
  | Raise _ => false
  end.

(** The mesh indices of [obj] that get an object, in loop order. *)
Definition created_by (shape : DtsShape) (obj : Object) : list Z :=
  List.filter (is_standard shape obj) (Py.range 0 (numMeshes obj)).

(** The (object, mesh index) pairs that get an object, in loop order. *)
Definition created (shape : DtsShape) : list (Object * Z) :=
  flat_map (λ obj, pair obj <$> created_by shape obj) (objects shape).

(** The last detail level, in shape order, whose [objectDetail] is
    [meshIndex]. *)
Definition last_detail (shape : DtsShape) (meshIndex : Z) : option DetailLevel :=
  last (List.filter (λ lod, objectDetail lod =? meshIndex) (detail_levels shape)).

(** The object [h] is a member of the group named after the detail
    level that [lod_by_mesh] has for [meshIndex]. *)
Definition grouped (shape : DtsShape) (groups : gmap string (list nat))
    (h : nat) (meshIndex : Z) : Prop :=
  ∃ lod group members,
    lod_by_mesh shape !! meshIndex = Some lod
    ∧ Py.index (names shape) (lod_name lod) = Return group
    ∧ groups !! group = Some members
    ∧ h ∈ members.

(** Groups are only added and only gain members. *)
Definition groups_grow (g g' : gmap string (list nat)) : Prop :=
  ∀ name members, g !! name = Some members →
    ∃ more, g' !! name = Some (members ++ more).

(** What a run of the loops adds to the host, for the mesh indices
    [pairs] that get an object: the objects [new], one per pair and in
    order, each in the group of its mesh index. *)
Definition adds (shape : DtsShape) (pairs : list (Object * Z)) (w w' : World) : Prop :=
  ∃ new,
    data_objects w' = data_objects w ++ new
    ∧ length new = length pairs
    ∧ groups_grow (data_groups w) (data_groups w')
    ∧ ∀ k obj m, pairs !! k = Some (obj, m) →
        ∃ ob, new !! k = Some ob
              ∧ is_Some (ob_data ob)
              ∧ Py.index (names shape) (obj_name obj) = Return (ob_name ob)
              ∧ grouped shape (data_groups w') (length (data_objects w) + k) m.

(** Every descriptor has its handle in [mats], and the handle has the
    property "ifl" (then [True]) exactly when the descriptor has the IFL
    flag. *)
Definition ifl_marked (MC : MaterialConsts) (shape : DtsShape) (mats : gmap nat BMat)
    : Prop :=
  ∀ k dmat, materials shape !! k = Some dmat →
    ∃ bmat, mats !! k = Some bmat
            ∧ props bmat !! "ifl"
              = if truthy (Z.land (mat_flags dmat) (IFLMaterial MC))
                then Some (PBool true) else None.

(** The handle [mat] has the four properties of the entry [ifl]. *)
Definition carries (shape : DtsShape) (mat : BMat) (ifl : IFLEntry) : Prop :=
  ∃ name,
    Py.index (names shape) (ifl_name ifl) = Return name
    ∧ props mat !! "iflName" = Some (PStr name)
    ∧ props mat !! "iflFirstFrame" = Some (PInt (ifl_firstFrame ifl))
    ∧ props mat !! "iflNumFrames" = Some (PInt (ifl_numFrames ifl))
    ∧ props mat !! "iflTime" = Some (PFloat (ifl_time ifl)).

(** A statement that leaves the objects and the groups as they are,
    whether it returns or raises. *)
Definition keeps_host {A} (m : M A) : Prop :=
  ∀ w r w', m w = (r, w') →
    data_objects w' = data_objects w ∧ data_groups w' = data_groups w.

(** The number of node objects [load] creates. *)
Definition node_count (shape : DtsShape) (node_mode : NodeMode) : nat :=
  match node_mode with
  | EMPTY => length (nodes shape)
  | ARMATURE | BONE => 0
  end.

(** What a loop of the decoder does from the faces so far is what it
    does from none, put behind them. *)
Definition behind (faces : list Face) (r : result (list Face)) : result (list Face) :=
  out ← r; mret (faces ++ out).

(** ** What the primitive loop keeps

    [ds] lists the descriptors that have a material slot, in slot
    order: no descriptor twice, slot j holds the handle of [ds[j]],
    [material_indices] maps each to its slot, and every face with a
    material has one of them. *)
Definition slots_of (mats : gmap nat BMat) (ds : list nat) (st : Assembly) : Prop :=
  NoDup ds
  ∧ Forall2 (λ d b, mats !! d = Some b) ds (slots st)
  ∧ (∀ d i, material_indices st !! d = Some i ↔ ∃ j : nat, i = Z.of_nat j ∧ ds !! j = Some d)
  ∧ (∀ f d, f ∈ faces st → f.2 = Some d → d ∈ ds).

(** The primitive has a material, the descriptor [d]. *)
Definition names_material (PC : PrimitiveConsts) (shape : DtsShape) (prim : Primitive)
    (d : nat) : Prop :=
  truthy (Z.land (prim_type prim) (NoMaterial PC)) = false
  ∧ Py.position (materials shape) (Z.land (prim_type prim) (MaterialMask PC)) = Return d.

(** A statement that leaves one part of the host ([part] is one of the
    fields of [World]) as it is, whether it returns or raises. *)
Definition leaves {A B} (part : World → B) (m : M A) : Prop :=
  ∀ w r w', m w = (r, w') → part w' = part w.

(** The object of node [i], when the node objects start at the handle
    [base]: its name and location are the node's, and its parent is
    the object of the node that [node_obs[node.parent]] is, counted
    from the end of the nodes built so far when the index is
    negative. *)
Definition node_object (shape : DtsShape) (base i : nat) (node : Node) (ob : BObj)
    : Prop :=
  Py.index (names shape) (node_name node) = Return (ob_name ob)
  ∧ Py.index (default_translations shape) (Z.of_nat i) = Return (ob_location ob)
  ∧ ob_data ob = None
  ∧ ob_rotation_mode ob = "QUATERNION"
  ∧ ob_empty_draw_type ob = "SINGLE_ARROW"
  ∧ ob_hide ob = false
  ∧ ((node_parent node = -1 ∧ ob_parent ob = None)
     ∨ (0 ≤ node_parent node < Z.of_nat i
        ∧ ob_parent ob = Some (base + Z.to_nat (node_parent node))%nat)
     ∨ (- Z.of_nat i ≤ node_parent node < -1
        ∧ ob_parent ob = Some (base + Z.to_nat (Z.of_nat i + node_parent node))%nat)).

(** The object made for mesh [m] of [obj]: it holds the mesh datablock
    of that mesh and has the object's name; it is hidden when
    [hide_default_player] is set and its name is not one of
    [blockhead_nodes]; its parent is [node_obs[obj.node]] unless
    [obj.node] is -1. *)
Definition mesh_object (PC : PrimitiveConsts) (shape : DtsShape)
    (hide_default_player : bool) (mats : gmap nat BMat) (node_obs : list nat)
    (obj : Object) (m : Z) (ob : BObj) : Prop :=
  ∃ mesh bmesh,
    Py.index (meshes shape) (firstMesh obj + m) = Return mesh
    ∧ mesh_type mesh = Standard
    ∧ create_bmesh PC mesh mats shape = Return bmesh
    ∧ ob_data ob = Some bmesh
    ∧ Py.index (names shape) (obj_name obj) = Return (ob_name ob)
    ∧ ob_hide ob
      = hide_default_player && negb (bool_decide (ob_name ob ∈ blockhead_nodes))
    ∧ ((obj_node obj = -1 ∧ ob_parent ob = None)
       ∨ (obj_node obj ≠ -1
          ∧ ∃ p, Py.index node_obs (obj_node obj) = Return p ∧ ob_parent ob = Some p)).

(** What a run of the object loop puts into the host for the pairs
    [pairs]: one object per pair, in order, behind the objects there
    were, each linked to the scene once. *)
Definition places (P : Object → Z → BObj → Prop) (pairs : list (Object * Z))
    (w w' : World) : Prop :=
  ∃ new,
    data_objects w' = data_objects w ++ new
    ∧ Forall2 (λ '(obj, m) ob, P obj m ob) pairs new
    ∧ scene_objects w' = scene_objects w ++ seq (length (data_objects w)) (length new).

(** What the IFL loop may change of a handle: the four IFL properties
    and nothing else. *)
Definition ifl_update (mat mat' : BMat) : Prop :=
  bmat_name mat' = bmat_name mat
  ∧ texture_slots mat' = texture_slots mat
  ∧ diffuse_color mat' = diffuse_color mat
  ∧ use_shadeless mat' = use_shadeless mat
  ∧ use_transparency mat' = use_transparency mat
  ∧ ∀ key, key ∉ ["iflName"; "iflFirstFrame"; "iflNumFrames"; "iflTime"] →
      props mat' !! key = props mat !! key.

(** ** Concrete inputs *)

(** The constants of the Torque engine's shape format. *)
Definition torque_primitive : PrimitiveConsts := {|
  Strip := 0x40000000;
  Fan := 0x80000000;
  Indexed := 0x20000000;
  NoMaterial := 0x10000000;
  MaterialMask := 0x0FFFFFFF
|}.

Definition torque_material : MaterialConsts := {|
  SWrap := 0x00000001;
  TWrap := 0x00000002;
  Translucent := 0x00000004;
  Additive := 0x00000008;
  Subtractive := 0x00000010;
  SelfIlluminating := 0x00000020;
  NeverEnvMap := 0x00000040;
  NoMipMap := 0x00000080;
  IFLMaterial := 0x08000000
|}.

(** An indexed strip without material over five indices. *)
Definition strip5 : Primitive :=
  {| firstElement := 0; numElements := 5; prim_type := 0x70000000 |}.

(** An indexed fan without material that starts at element 1. *)
Definition fan_at_1 : Primitive :=
  {| firstElement := 1; numElements := 4; prim_type := 0xB0000000 |}.

(** Triangle lists of two, three and five elements. *)
Definition list_of (n : Z) : Primitive :=
  {| firstElement := 0; numElements := n; prim_type := 0x30000000 |}.

(** A host where the only file is [shapes/red.png] and no image loads. *)
Definition unreadable_env : Env := {|
  isfile := λ p, bool_decide (p = ["red.png"; "shapes"]);
  ismount := λ _, false;
  images_load := λ _, None;
  random := λ _, 0%float
|}.

(** A host without files. *)
Definition bare_env : Env := {|
  isfile := λ _, false;
  ismount := λ _, false;
  images_load := λ _, None;
  random := λ _, 0%float
|}.

Definition empty_world : World := {|
  stdout := []; rand_pos := 0; data_texts := ∅; data_objects := [];
  data_groups := ∅; scene_objects := []
|}.

Definition shape_path : path := ["player.dts"; "shapes"].

(** A material with no flag, and one that is additive only. *)
Definition red : Material := {| mat_name := "red"; mat_flags := 0 |}.
Definition red_additive : Material := {| mat_name := "red"; mat_flags := 0x8 |}.

(** A triangle over three vertices; the texel of vertex 0 is
    (0.25, 0.75). *)
Definition triangle_mesh : Mesh := {|
  mesh_type := Standard;
  verts := [ {| p3_x := 0; p3_y := 0; p3_z := 0 |};
             {| p3_x := 1; p3_y := 0; p3_z := 0 |};
             {| p3_x := 0; p3_y := 1; p3_z := 0 |} ];
  normals := [ {| p3_x := 0; p3_y := 0; p3_z := 1 |};
               {| p3_x := 0; p3_y := 0; p3_z := 1 |};
               {| p3_x := 0; p3_y := 0; p3_z := 1 |} ];
  tverts := [ {| p2_x := 0.25; p2_y := 0.75 |};
              {| p2_x := 0; p2_y := 0 |};
              {| p2_x := 1; p2_y := 1 |} ];
  indices := [0; 1; 2];
  primitives := [list_of 3]
|}.

(** The mesh datablock of [triangle_mesh]: one polygon over the loops
    0, 1, 2, which are the vertices 2, 1, 0. *)
Definition triangle_bmesh : BMesh := {|
  me_name := "Mesh";
  me_materials := [];
  me_co := verts triangle_mesh;
  me_normal := normals triangle_mesh;
  me_polygons := [ {| loop_total := 3; loop_start := 0; material_index := 0 |} ];
  me_loops := [2; 1; 0];
  me_uv := [ (1, 0); (0, 1); (0.25, 0.25) ]%float
|}.

(** A primitive without the Indexed bit. *)
Definition unindexed_list : Primitive :=
  {| firstElement := 0; numElements := 3; prim_type := 0x10000000 |}.

(** The same mesh with a second primitive that lacks the Indexed bit. *)
Definition unindexed_mesh : Mesh := {|
  mesh_type := Standard;
  verts := verts triangle_mesh;
  normals := normals triangle_mesh;
  tverts := tverts triangle_mesh;
  indices := indices triangle_mesh;
  primitives := [list_of 3; unindexed_list]
|}.

(** One root node, one material, one object with the triangle, one
    detail level for mesh index 0. *)
Definition tiny_shape : DtsShape := {|
  names := ["root"; "body"; "detail32"; "idle"];
  nodes := [ {| node_name := 0; node_parent := -1 |} ];
  materials := [red];
  iflmaterials := [];
  meshes := [triangle_mesh];
  objects := [ {| obj_name := 1; obj_node := 0; firstMesh := 0; numMeshes := 1 |} ];
  detail_levels := [ {| lod_name := 2; objectDetail := 0 |} ];
  default_translations := [ {| p3_x := 0; p3_y := 0; p3_z := 0 |} ];
  default_rotations := [ {| q_x := 0; q_y := 0.5; q_z := 0; q_w := 1 |} ]
|}.

(** A material with the IFL flag, and an IFL entry for slot 0. *)
Definition red_ifl : Material := {| mat_name := "red"; mat_flags := 0x08000000 |}.
Definition idle_frames : IFLEntry :=
  {| ifl_name := 3; ifl_slot := 0; ifl_firstFrame := 0; ifl_numFrames := 4;
     ifl_time := 0.5 |}.

(** [tiny_shape] with the IFL entry, its material without and with the
    IFL flag. *)
Definition unflagged_shape : DtsShape := {|
  names := names tiny_shape; nodes := nodes tiny_shape;
  materials := [red]; iflmaterials := [idle_frames];
  meshes := meshes tiny_shape; objects := objects tiny_shape;
  detail_levels := detail_levels tiny_shape;
  default_translations := default_translations tiny_shape;
  default_rotations := default_rotations tiny_shape
|}.

Definition flagged_shape : DtsShape := {|
  names := names tiny_shape; nodes := nodes tiny_shape;
  materials := [red_ifl]; iflmaterials := [idle_frames];
  meshes := meshes tiny_shape; objects := objects tiny_shape;
  detail_levels := detail_levels tiny_shape;
  default_translations := default_translations tiny_shape;
  default_rotations := default_rotations tiny_shape
|}.

(** [tiny_shape] with the unindexed mesh for its triangle. *)
Definition unindexed_shape : DtsShape := {|
  names := names tiny_shape; nodes := nodes tiny_shape;
  materials := materials tiny_shape; iflmaterials := [];
  meshes := [unindexed_mesh]; objects := objects tiny_shape;
  detail_levels := detail_levels tiny_shape;
  default_translations := default_translations tiny_shape;
  default_rotations := default_rotations tiny_shape
|}.

(** [tiny_shape] without detail levels. *)
Definition undetailed_shape : DtsShape := {|
  names := names tiny_shape; nodes := nodes tiny_shape;
  materials := materials tiny_shape; iflmaterials := [];
  meshes := meshes tiny_shape; objects := objects tiny_shape;
  detail_levels := [];
  default_translations := default_translations tiny_shape;
  default_rotations := default_rotations tiny_shape
|}.

(** The handles of the materials of a shape imported on [bare_env]. *)
Definition imported (shape : DtsShape) : gmap nat BMat :=
  match (import_materials torque_material bare_env shape shape_path empty_world).1 with
  | Return mats => mats
  | Raise _ => ∅
  end.

(** The only object of [tiny_shape]. *)
Definition body : Object :=
  {| obj_name := 1; obj_node := 0; firstMesh := 0; numMeshes := 1 |}.

(** The host after importing [tiny_shape] into an empty one. *)
Definition tiny_world : World :=
  (load torque_material torque_primitive bare_env tiny_shape shape_path EMPTY false
     empty_world).2.

(** The handle of [red_additive] on a host without files. *)
Definition red_additive_handle : BMat :=
  apply_flags torque_material 0x8
    (set_diffuse_color (213 / 255, 0 / 255, 0 / 255)%float (materials_new "red")).



(** A host where [shapes/red.png] is a file that loads. *)
Definition textured_env : Env := {|
  isfile := λ p, bool_decide (p = ["red.png"; "shapes"]);
  ismount := λ _, false;
  images_load := λ p, Some {| img_filepath := p |};
  random := λ _, 0%float
|}.

(** A triangle list with the material of slot 0. *)
Definition red_list : Primitive :=
  {| firstElement := 0; numElements := 3; prim_type := 0x20000000 |}.

(** The triangle twice, both times with material 0. *)
Definition shared_mesh : Mesh := {|
  mesh_type := Standard;
  verts := verts triangle_mesh;
  normals := normals triangle_mesh;
  tverts := tverts triangle_mesh;
  indices := indices triangle_mesh;
  primitives := [red_list; red_list]
|}.

(** The mesh datablock of [shared_mesh] with the materials of
    [tiny_shape]. *)
Definition shared_bmesh : BMesh :=
  match create_bmesh torque_primitive shared_mesh (imported tiny_shape) tiny_shape with
  | Return me => me
  | Raise _ => triangle_bmesh
  end.

(** The host after building the nodes of [tiny_shape]. *)
Definition tiny_nodes_world : World := (build_nodes tiny_shape EMPTY empty_world).2.

(** [tiny_shape] with a root that names itself as its parent. *)
Definition self_parent_shape : DtsShape := {|
  names := names tiny_shape;
  nodes := [ {| node_name := 0; node_parent := 0 |} ];
  materials := materials tiny_shape; iflmaterials := [];
  meshes := meshes tiny_shape; objects := objects tiny_shape;
  detail_levels := detail_levels tiny_shape;
  default_translations := default_translations tiny_shape;
  default_rotations := default_rotations tiny_shape
|}.

(** The handles of [imported shape] after the IFL loop. *)
Definition assigned (shape : DtsShape) : gmap nat BMat :=
  match assign_ifl shape (imported shape) with
  | Return mats => mats
  | Raise _ => ∅
  end.

(** * Properties *)

(** ** Python lists and ranges *)

Lemma index_lookup {A} (xs : list A) (i : Z) (x : A) :
  0 ≤ i → xs !! Z.to_nat i = Some x → Py.index xs i = Return x.
Proof.
  intros Hi Hx. unfold Py.index.
  pose proof (lookup_lt_Some _ _ _ Hx) as Hlt.
  destruct (Z.ltb_spec i 0); [lia|].
  destruct (Z.ltb_spec i 0); [lia|].
  destruct (Z.leb_spec (Z.of_nat (length xs)) i); [lia|].
  simpl. by rewrite Hx.
Qed.

Lemma index_in_range {A} (xs : list A) (i : Z) :
  0 ≤ i < Z.of_nat (length xs) → ∃ x, Py.index xs i = Return x ∧ xs !! Z.to_nat i = Some x.
Proof.
  intros Hi.
  destruct (lookup_lt_is_Some_2 xs (Z.to_nat i)) as [x Hx]; [lia|].
  exists x. split; [|done]. apply index_lookup; [lia|done].
Qed.

Lemma index_not_assertion {A} (xs : list A) (i : Z) :
  Py.index xs i ≠ Raise AssertionError.
Proof.
  unfold Py.index.
  destruct (_ || _); [done|]. by destruct (xs !! _).
Qed.

Lemma range_unfold (start stop : Z) :
  Py.range start stop = (λ k : nat, start + Z.of_nat k) <$> seq 0 (Z.to_nat (stop - start)).
Proof.
  unfold Py.range, Py.range_step.
  replace ((stop - start + 1 - 1) / 1) with (stop - start) by (rewrite Z.div_1_r; lia).
  apply list_fmap_ext. intros _ k _. lia.
Qed.

Lemma range_empty (start stop : Z) : stop ≤ start → Py.range start stop = [].
Proof.
  intros H. rewrite range_unfold.
  replace (Z.to_nat (stop - start)) with 0%nat by lia. done.
Qed.

Lemma range_step3_length (start n : Z) :
  length (Py.range_step (start + 2) (start + n) 3) = Z.to_nat (n / 3).
Proof.
  unfold Py.range_step. rewrite length_fmap, length_seq.
  f_equal. f_equal. lia.
Qed.

(** ** The decoder *)

Lemma triple_in_range (indices : list Z) (a b c : Z) (x y z : Z) :
  Py.index indices a = Return x →
  Py.index indices b = Return y →
  Py.index indices c = Return z →
  triple indices a b c = Return (x, y, z).
Proof. intros Ha Hb Hc. unfold triple. by rewrite Ha, Hb, Hc. Qed.

(** The strip loop over the steps [s, s + n) of a range that lies in
    the buffer. *)
Lemma strip_loop_in_range (indices : list Z) (dmat : option nat) (first : Z) :
  0 ≤ first →
  ∀ (n s : nat) (faces : list Face),
    first + 2 + Z.of_nat s + Z.of_nat n ≤ Z.of_nat (length indices) →
    ∃ out,
      strip_loop indices dmat
        ((λ k : nat, first + 2 + Z.of_nat k) <$> seq s n) (Nat.even s) faces
      = Return (faces ++ out)
      ∧ length out = n
      ∧ ∀ k : nat, (k < n)%nat →
          ∃ a b c,
            Py.index indices (first + 2 + Z.of_nat (s + k)) = Return a
            ∧ Py.index indices (first + 2 + Z.of_nat (s + k) - 1) = Return b
            ∧ Py.index indices (first + 2 + Z.of_nat (s + k) - 2) = Return c
            ∧ out !! k = Some (if Nat.even (s + k) then (a, b, c) else (c, b, a), dmat).
Proof.
  intros Hfirst n. induction n as [|n IH]; intros s faces Hlen.
  - exists []. simpl. rewrite app_nil_r. split; [done|]. split; [done|]. intros; lia.
  - destruct (index_in_range indices (first + 2 + Z.of_nat s)) as (a & Ha & _); [lia|].
    destruct (index_in_range indices (first + 2 + Z.of_nat s - 1)) as (b & Hb & _); [lia|].
    destruct (index_in_range indices (first + 2 + Z.of_nat s - 2)) as (c & Hc & _); [lia|].
    destruct (IH (S s) (faces ++ [(if Nat.even s then (a, b, c) else (c, b, a), dmat)]))
      as (out & Hout & Hn & Hk); [lia|].
    exists ((if Nat.even s then (a, b, c) else (c, b, a), dmat) :: out).
    split; [|split].
    + cbn [seq fmap list_fmap strip_loop].
      rewrite Nat.even_succ, <- Nat.negb_even in Hout.
      destruct (Nat.even s); cbn [negb] in *.
      * rewrite (triple_in_range _ _ _ _ _ _ _ Ha Hb Hc). cbn.
        by rewrite Hout, <- app_assoc.
      * rewrite (triple_in_range _ _ _ _ _ _ _ Hc Hb Ha). cbn.
        by rewrite Hout, <- app_assoc.
    + simpl. by rewrite Hn.
    + intros [|k] Hlt.
      * rewrite Nat.add_0_r. exists a, b, c. done.
      * destruct (Hk k) as (a' & b' & c' & ? & ? & ? & ?); [lia|].
        replace (s + S k)%nat with (S s + k)%nat by lia.
        exists a', b', c'. done.
Qed.

(** C4. A strip primitive of N >= 3 elements whose range lies in the
    index buffer decodes to exactly N - 2 triangles, appended in the
    order of i = firstElement + 2 .. firstElement + N - 1; step k (from
    0) emits (indices[i], indices[i-1], indices[i-2]) when k is even and
    (indices[i-2], indices[i-1], indices[i]) when k is odd. *)
Theorem strip_decode (PC : PrimitiveConsts) (indices : list Z) (prim : Primitive)
    (dmat : option nat) (faces : list Face) :
  truthy (Z.land (prim_type prim) (Strip PC)) = true →
  3 ≤ numElements prim →
  0 ≤ firstElement prim →
  firstElement prim + numElements prim ≤ Z.of_nat (length indices) →
  ∃ out,
    decode PC indices prim dmat faces = Return (faces ++ out)
    ∧ Z.of_nat (length out) = numElements prim - 2
    ∧ ∀ k : nat, Z.of_nat k < numElements prim - 2 →
        let i := firstElement prim + 2 + Z.of_nat k in
        ∃ a b c,
          Py.index indices i = Return a
          ∧ Py.index indices (i - 1) = Return b
          ∧ Py.index indices (i - 2) = Return c
          ∧ out !! k = Some (if Nat.even k then (a, b, c) else (c, b, a), dmat).
Proof.
  intros Hstrip HN Hfirst Hrange.
  destruct (strip_loop_in_range indices dmat (firstElement prim) Hfirst
              (Z.to_nat (numElements prim - 2)) 0 faces) as (out & Hout & Hlen & Hk);
    [lia|].
  exists out. split; [|split].
  - unfold decode. rewrite Hstrip, range_unfold.
    replace (firstElement prim + numElements prim - (firstElement prim + 2))
      with (numElements prim - 2) by lia.
    by rewrite <- Hout.
  - lia.
  - intros k Hlt. apply (Hk k). lia.
Qed.

(** The strip of the indices [0, 1, 2, 3, 4]. *)
Lemma strip_decode_witness :
  ∃ out,
    decode torque_primitive [0; 1; 2; 3; 4] strip5 None [] = Return ([] ++ out)
    ∧ Z.of_nat (length out) = numElements strip5 - 2
    ∧ ∀ k : nat, Z.of_nat k < numElements strip5 - 2 →
        let i := firstElement strip5 + 2 + Z.of_nat k in
        ∃ a b c,
          Py.index [0; 1; 2; 3; 4] i = Return a
          ∧ Py.index [0; 1; 2; 3; 4] (i - 1) = Return b
          ∧ Py.index [0; 1; 2; 3; 4] (i - 2) = Return c
          ∧ out !! k = Some (if Nat.even k then (a, b, c) else (c, b, a), None).
Proof.
  apply (strip_decode torque_primitive [0; 1; 2; 3; 4] strip5 None []).
  - reflexivity.
  - simpl. lia.
  - simpl. lia.
  - simpl. lia.
Defined.

(** C9. A primitive of fewer than three elements decodes to no triangle
    and raises nothing, whatever its draw mode and whatever the index
    buffer holds; and a triangle list of 3k + 1 or 3k + 2 elements
    decodes exactly as the list of its first 3k elements does. *)
Theorem short_and_trailing_elements (PC : PrimitiveConsts) (indices : list Z)
    (dmat : option nat) (faces : list Face) :
  (∀ prim : Primitive,
     numElements prim < 3 → decode PC indices prim dmat faces = Return faces)
  ∧ (∀ (first type k r : Z),
       truthy (Z.land type (Strip PC)) = false →
       truthy (Z.land type (Fan PC)) = false →
       1 ≤ r ≤ 2 →
       decode PC indices
         {| firstElement := first; numElements := 3 * k + r; prim_type := type |}
         dmat faces
       = decode PC indices
           {| firstElement := first; numElements := 3 * k; prim_type := type |}
           dmat faces).
Proof.
  split.
  - intros prim HN. unfold decode.
    assert (Hlist : Py.range_step (firstElement prim + 2)
                      (firstElement prim + numElements prim) 3 = []).
    { apply length_zero_iff_nil. rewrite range_step3_length.
      assert (numElements prim / 3 ≤ 0); [|lia].
      apply Z.lt_succ_r, Z.div_lt_upper_bound; lia. }
    rewrite range_empty, Hlist by lia.
    by repeat destruct (truthy _).
  - intros first type k r Hstrip Hfan Hr. unfold decode. simpl.
    rewrite Hstrip, Hfan.
    f_equal. unfold Py.range_step. do 3 f_equal.
    replace (first + (3 * k + r) - (first + 2) + 3 - 1) with (r + k * 3) by lia.
    replace (first + 3 * k - (first + 2) + 3 - 1) with (0 + k * 3) by lia.
    rewrite !Z.div_add by lia.
    rewrite (Z.div_small r), (Z.div_small 0) by lia. done.
Qed.

(** Lists of two and of five elements over a buffer of five indices. *)
Lemma short_and_trailing_elements_witness :
  decode torque_primitive [0; 1; 2; 3; 4] (list_of 2) None [] = Return []
  ∧ decode torque_primitive [0; 1; 2; 3; 4] (list_of (3 * 1 + 2)) None []
    = decode torque_primitive [0; 1; 2; 3; 4] (list_of (3 * 1)) None [].
Proof.
  destruct (short_and_trailing_elements torque_primitive [0; 1; 2; 3; 4] None [])
    as [Hshort Htrail].
  split.
  - apply Hshort. simpl. lia.
  - apply (Htrail 0 0x30000000 1 2); [reflexivity | reflexivity | lia].
Defined.

(** C2. On the fan that starts at element 1 of [5, 6, 7, 8, 9, 10] the
    decoder takes [indices[0]] = 5 for the pivot of both triangles,
    where [indices[firstElement]] is 6. *)
Theorem fan_pivot_is_first_index :
  decode torque_primitive [5; 6; 7; 8; 9; 10] fan_at_1 None []
  = Return [((8, 7, 5), None); ((5, 8, 9), None)]
  ∧ Py.index [5; 6; 7; 8; 9; 10] (firstElement fan_at_1) = Return 6.
Proof. split; reflexivity. Qed.

(** The fan loop over the steps [s, s + n) of a range that lies in the
    buffer. *)
Lemma fan_loop_in_range (indices : list Z) (dmat : option nat) (first : Z) :
  0 ≤ first →
  ∀ (n s : nat) (faces : list Face),
    first + 2 + Z.of_nat s + Z.of_nat n ≤ Z.of_nat (length indices) →
    ∃ out,
      fan_loop indices dmat
        ((λ k : nat, first + 2 + Z.of_nat k) <$> seq s n) (Nat.even s) faces
      = Return (faces ++ out)
      ∧ length out = n
      ∧ ∀ k : nat, (k < n)%nat →
          ∃ a b pivot,
            Py.index indices (first + 2 + Z.of_nat (s + k)) = Return a
            ∧ Py.index indices (first + 2 + Z.of_nat (s + k) - 1) = Return b
            ∧ Py.index indices 0 = Return pivot
            ∧ out !! k
              = Some (if Nat.even (s + k) then (a, b, pivot) else (pivot, b, a), dmat).
Proof.
  intros Hfirst n. induction n as [|n IH]; intros s faces Hlen.
  - exists []. simpl. rewrite app_nil_r. split; [done|]. split; [done|]. intros; lia.
  - destruct (index_in_range indices (first + 2 + Z.of_nat s)) as (a & Ha & _); [lia|].
    destruct (index_in_range indices (first + 2 + Z.of_nat s - 1)) as (b & Hb & _); [lia|].
    destruct (index_in_range indices 0) as (c & Hc & _); [lia|].
    destruct (IH (S s) (faces ++ [(if Nat.even s then (a, b, c) else (c, b, a), dmat)]))
      as (out & Hout & Hn & Hk); [lia|].
    exists ((if Nat.even s then (a, b, c) else (c, b, a), dmat) :: out).
    split; [|split].
    + cbn [seq fmap list_fmap fan_loop].
      rewrite Nat.even_succ, <- Nat.negb_even in Hout.
      destruct (Nat.even s); cbn [negb] in *.
      * rewrite (triple_in_range _ _ _ _ _ _ _ Ha Hb Hc). cbn.
        by rewrite Hout, <- app_assoc.
      * rewrite (triple_in_range _ _ _ _ _ _ _ Hc Hb Ha). cbn.
        by rewrite Hout, <- app_assoc.
    + simpl. by rewrite Hn.
    + intros [|k] Hlt.
      * rewrite Nat.add_0_r. exists a, b, c. done.
      * destruct (Hk k) as (a' & b' & c' & ? & ? & ? & ?); [lia|].
        replace (s + S k)%nat with (S s + k)%nat by lia.
        exists a', b', c'. done.
Qed.

(** X1. A fan primitive of N >= 3 elements that is not also a strip, with
    its range in the index buffer, decodes to N - 2 triangles that
    alternate like a strip's and whose pivot is the first index of the
    buffer, [indices[0]]. *)
Theorem fan_decode (PC : PrimitiveConsts) (indices : list Z) (prim : Primitive)
    (dmat : option nat) (faces : list Face) :
  truthy (Z.land (prim_type prim) (Strip PC)) = false →
  truthy (Z.land (prim_type prim) (Fan PC)) = true →
  3 ≤ numElements prim →
  0 ≤ firstElement prim →
  firstElement prim + numElements prim ≤ Z.of_nat (length indices) →
  ∃ out,
    decode PC indices prim dmat faces = Return (faces ++ out)
    ∧ Z.of_nat (length out) = numElements prim - 2
    ∧ ∀ k : nat, Z.of_nat k < numElements prim - 2 →
        let i := firstElement prim + 2 + Z.of_nat k in
        ∃ a b pivot,
          Py.index indices i = Return a
          ∧ Py.index indices (i - 1) = Return b
          ∧ Py.index indices 0 = Return pivot
          ∧ out !! k = Some (if Nat.even k then (a, b, pivot) else (pivot, b, a), dmat).
Proof.
  intros Hstrip Hfan HN Hfirst Hrange.
  destruct (fan_loop_in_range indices dmat (firstElement prim) Hfirst
              (Z.to_nat (numElements prim - 2)) 0 faces) as (out & Hout & Hlen & Hk);
    [lia|].
  exists out. split; [|split].
  - unfold decode. rewrite Hstrip, Hfan, range_unfold.
    replace (firstElement prim + numElements prim - (firstElement prim + 2))
      with (numElements prim - 2) by lia.
    by rewrite <- Hout.
  - lia.
  - intros k Hlt. apply (Hk k). lia.
Qed.

(** The fan that starts at element 1 of [5, 6, 7, 8, 9, 10]. *)
Lemma fan_decode_witness :
  ∃ out,
    decode torque_primitive [5; 6; 7; 8; 9; 10] fan_at_1 None [] = Return ([] ++ out)
    ∧ Z.of_nat (length out) = numElements fan_at_1 - 2
    ∧ ∀ k : nat, Z.of_nat k < numElements fan_at_1 - 2 →
        let i := firstElement fan_at_1 + 2 + Z.of_nat k in
        ∃ a b pivot,
          Py.index [5; 6; 7; 8; 9; 10] i = Return a
          ∧ Py.index [5; 6; 7; 8; 9; 10] (i - 1) = Return b
          ∧ Py.index [5; 6; 7; 8; 9; 10] 0 = Return pivot
          ∧ out !! k = Some (if Nat.even k then (a, b, pivot) else (pivot, b, a), None).
Proof.
  apply (fan_decode torque_primitive [5; 6; 7; 8; 9; 10] fan_at_1 None []).
  - reflexivity.
  - reflexivity.
  - simpl. lia.
  - simpl. lia.
  - simpl. lia.
Defined.

(** The list loop over the groups [s, s + n) of a range that lies in
    the buffer. *)
Lemma list_loop_in_range (indices : list Z) (dmat : option nat) (first : Z) :
  0 ≤ first →
  ∀ (n s : nat) (faces : list Face),
    first + 3 * (Z.of_nat s + Z.of_nat n) ≤ Z.of_nat (length indices) →
    ∃ out,
      list_loop indices dmat
        ((λ k : nat, first + 2 + 3 * Z.of_nat k) <$> seq s n) faces
      = Return (faces ++ out)
      ∧ length out = n
      ∧ ∀ k : nat, (k < n)%nat →
          ∃ a b c,
            Py.index indices (first + 2 + 3 * Z.of_nat (s + k)) = Return a
            ∧ Py.index indices (first + 2 + 3 * Z.of_nat (s + k) - 1) = Return b
            ∧ Py.index indices (first + 2 + 3 * Z.of_nat (s + k) - 2) = Return c
            ∧ out !! k = Some ((a, b, c), dmat).
Proof.
  intros Hfirst n. induction n as [|n IH]; intros s faces Hlen.
  - exists []. simpl. rewrite app_nil_r. split; [done|]. split; [done|]. intros; lia.
  - destruct (index_in_range indices (first + 2 + 3 * Z.of_nat s)) as (a & Ha & _); [lia|].
    destruct (index_in_range indices (first + 2 + 3 * Z.of_nat s - 1))
      as (b & Hb & _); [lia|].
    destruct (index_in_range indices (first + 2 + 3 * Z.of_nat s - 2))
      as (c & Hc & _); [lia|].
    destruct (IH (S s) (faces ++ [((a, b, c), dmat)])) as (out & Hout & Hn & Hk); [lia|].
    exists (((a, b, c), dmat) :: out). split; [|split].
    + cbn [seq fmap list_fmap list_loop].
      rewrite (triple_in_range _ _ _ _ _ _ _ Ha Hb Hc). cbn.
      by rewrite Hout, <- app_assoc.
    + simpl. by rewrite Hn.
    + intros [|k] Hlt.
      * rewrite Nat.add_0_r. exists a, b, c. done.
      * destruct (Hk k) as (a' & b' & c' & ? & ? & ? & ?); [lia|].
        replace (s + S k)%nat with (S s + k)%nat by lia.
        exists a', b', c'. done.
Qed.

(** X2. A triangle list of N >= 0 elements with its range in the index
    buffer decodes to N / 3 triangles; the k-th is
    (indices[i], indices[i-1], indices[i-2]) for i = firstElement + 2 + 3k. *)
Theorem list_decode (PC : PrimitiveConsts) (indices : list Z) (prim : Primitive)
    (dmat : option nat) (faces : list Face) :
  truthy (Z.land (prim_type prim) (Strip PC)) = false →
  truthy (Z.land (prim_type prim) (Fan PC)) = false →
  0 ≤ numElements prim →
  0 ≤ firstElement prim →
  firstElement prim + numElements prim ≤ Z.of_nat (length indices) →
  ∃ out,
    decode PC indices prim dmat faces = Return (faces ++ out)
    ∧ Z.of_nat (length out) = numElements prim / 3
    ∧ ∀ k : nat, Z.of_nat k < numElements prim / 3 →
        let i := firstElement prim + 2 + 3 * Z.of_nat k in
        ∃ a b c,
          Py.index indices i = Return a
          ∧ Py.index indices (i - 1) = Return b
          ∧ Py.index indices (i - 2) = Return c
          ∧ out !! k = Some ((a, b, c), dmat).
Proof.
  intros Hstrip Hfan HN Hfirst Hrange.
  pose proof (Z.mul_div_le (numElements prim) 3 ltac:(lia)) as Hdiv.
  pose proof (Z.div_pos (numElements prim) 3 HN ltac:(lia)) as Hpos.
  destruct (list_loop_in_range indices dmat (firstElement prim) Hfirst
              (Z.to_nat (numElements prim / 3)) 0 faces) as (out & Hout & Hlen & Hk);
    [lia|].
  exists out. split; [|split].
  - unfold decode, Py.range_step. rewrite Hstrip, Hfan.
    replace (firstElement prim + numElements prim - (firstElement prim + 2) + 3 - 1)
      with (numElements prim) by lia.
    by rewrite <- Hout.
  - lia.
  - intros k Hlt. apply (Hk k). lia.
Qed.

(** The list of three elements over [0, 1, 2, 3, 4]. *)
Lemma list_decode_witness :
  ∃ out,
    decode torque_primitive [0; 1; 2; 3; 4] (list_of 3) None [] = Return ([] ++ out)
    ∧ Z.of_nat (length out) = numElements (list_of 3) / 3
    ∧ ∀ k : nat, Z.of_nat k < numElements (list_of 3) / 3 →
        let i := firstElement (list_of 3) + 2 + 3 * Z.of_nat k in
        ∃ a b c,
          Py.index [0; 1; 2; 3; 4] i = Return a
          ∧ Py.index [0; 1; 2; 3; 4] (i - 1) = Return b
          ∧ Py.index [0; 1; 2; 3; 4] (i - 2) = Return c
          ∧ out !! k = Some ((a, b, c), None).
Proof.
  apply (list_decode torque_primitive [0; 1; 2; 3; 4] (list_of 3) None []).
  - reflexivity.
  - reflexivity.
  - simpl. lia.
  - simpl. lia.
  - simpl. lia.
Defined.

(** ** [import_material] *)

Lemma blend_mode_additive (MC : MaterialConsts) (flags : Z) (bmat : BMat) :
  Z.land flags (Additive MC) ≠ 0 →
  props (blend_mode MC flags bmat) !! "blendMode" = Some (PStr "both").
Proof.
  intros Hadd. unfold blend_mode, truthy.
  rewrite Z.land_lor_distr_r.
  destruct (Z.eqb_spec (Z.lor (Z.land flags (Additive MC))
                          (Z.land flags (Subtractive MC))) 0) as [H0|_].
  - apply Z.lor_eq_0_iff in H0. tauto.
  - simpl. apply lookup_insert_eq.
Qed.

Lemma apply_flags_blend_mode (MC : MaterialConsts) (flags : Z) (bmat : BMat) :
  props (apply_flags MC flags bmat) !! "blendMode"
  = props (blend_mode MC flags
             (when (truthy (Z.land flags (Translucent MC))) (set_use_transparency true)
                (when (truthy (Z.land flags (SelfIlluminating MC)))
                   (set_use_shadeless true) bmat))) !! "blendMode".
Proof.
  unfold apply_flags, when.
  repeat match goal with
         | |- context [if ?c then _ else _] =>
             match c with
             | context [blend_mode] => fail 1
             | _ => destruct c
             end
         end; simpl; by rewrite ?lookup_insert_ne.
Qed.

Lemma import_material_returns (MC : MaterialConsts) (env : Env) (dmat : Material)
    (filepath : path) (w w' : World) (bmat : BMat) :
  import_material MC env dmat filepath w = (Return bmat, w') →
  ∃ bmat0, bmat = apply_flags MC (mat_flags dmat) bmat0.
Proof.
  unfold import_material, mbind, M_bind.
  destruct (texture_or_color env dmat filepath w) as [[bmat0|e] w0]; [|done].
  intros [= <- <-]. by exists bmat0.
Qed.

(** C1. For a descriptor whose flags have the Additive bit and not the
    Subtractive bit, the handle [import_material] returns carries the
    blend mode "both", not "additive". *)
Theorem additive_only_blends_both (MC : MaterialConsts) (env : Env) (dmat : Material)
    (filepath : path) (w w' : World) (bmat : BMat) :
  Z.land (mat_flags dmat) (Additive MC) ≠ 0 →
  Z.land (mat_flags dmat) (Subtractive MC) = 0 →
  import_material MC env dmat filepath w = (Return bmat, w') →
  props bmat !! "blendMode" = Some (PStr "both").
Proof.
  intros Hadd _ Hret.
  destruct (import_material_returns _ _ _ _ _ _ _ Hret) as [bmat0 ->].
  rewrite apply_flags_blend_mode. by apply blend_mode_additive.
Qed.

(** The material "red" with only the Additive flag, no texture on disk. *)
Lemma additive_only_blends_both_witness :
  props (apply_flags torque_material 0x8
           (set_diffuse_color (213 / 255, 0 / 255, 0 / 255)%float (materials_new "red")))
    !! "blendMode" = Some (PStr "both").
Proof.
  apply (additive_only_blends_both torque_material bare_env red_additive shape_path
           empty_world empty_world).
  - vm_compute. discriminate.
  - reflexivity.
  - reflexivity.
Defined.

(** C3. When a texture file is found and loading it raises, the
    function prints the message and then raises [UnboundLocalError] at
    [tex.image = teximg]: no handle is returned. *)
Theorem failed_load_raises (MC : MaterialConsts) (env : Env) (dmat : Material)
    (filepath texname : path) (w : World) :
  find_texture env (mat_name dmat) (Os.dirname filepath) = Some texname →
  images_load env texname = None →
  import_material MC env dmat filepath w
  = (Raise (UnboundLocalError "teximg"),
     (print ("Cannot load image " +:+ Os.render texname) w).2).
Proof.
  intros Hfound Hload.
  unfold import_material, texture_or_color, try_load.
  rewrite Hfound, Hload. reflexivity.
Qed.

(** The material "red" next to an unreadable [shapes/red.png]. *)
Lemma failed_load_raises_witness :
  import_material torque_material unreadable_env red shape_path empty_world
  = (Raise (UnboundLocalError "teximg"),
     (print ("Cannot load image " +:+ Os.render ["red.png"; "shapes"]) empty_world).2).
Proof.
  apply (failed_load_raises torque_material unreadable_env red shape_path
           ["red.png"; "shapes"] empty_world).
  - reflexivity.
  - reflexivity.
Defined.

(** ** Loops and exceptions *)

Lemma for_each_app {S A} (body : S → A → result S) (xs ys : list A) (s : S) :
  for_each body (xs ++ ys) s = (s' ← for_each body xs s; for_each body ys s').
Proof.
  revert s. induction xs as [|x xs IH]; intros s; [done|].
  simpl. destruct (body s x) as [s'|e]; simpl; [apply IH|done].
Qed.

(** A loop with a turn that raises in every state does not return. *)
Lemma for_each_raises {S A} (body : S → A → result S) (xs : list A) (x : A) (s : S) :
  x ∈ xs → (∀ s', raises (body s' x)) → raises (for_each body xs s).
Proof.
  intros Hin Hx. revert s.
  induction xs as [|y xs IH]; intros s; [by apply elem_of_nil in Hin|].
  simpl. apply elem_of_cons in Hin as [->|Hin].
  - destruct (Hx s) as [e ->]. by exists e.
  - destruct (body s y) as [s'|e]; simpl; [by apply IH|by exists e].
Qed.

(** What a loop raises, one of its turns raised. *)
Lemma for_each_raise_inv {S A} (body : S → A → result S) (xs : list A) (s : S) (e : exn) :
  for_each body xs s = Raise e → ∃ s' x, x ∈ xs ∧ body s' x = Raise e.
Proof.
  revert s. induction xs as [|x xs IH]; intros s; [done|].
  simpl. destruct (body s x) as [s'|e'] eqn:Hb; simpl.
  - intros H. destruct (IH _ H) as (s'' & y & Hy & Hr).
    exists s'', y. split; [apply elem_of_cons; by right|done].
  - intros [= ->]. exists s, x. split; [apply elem_of_cons; by left|done].
Qed.

Lemma bind_raise_inv {A B} (m : result A) (f : A → result B) (e : exn) :
  m ≫= f = Raise e → m = Raise e ∨ ∃ a, m = Return a ∧ f a = Raise e.
Proof. destruct m as [a|e']; simpl; [by eauto|]. intros [= ->]. by left. Qed.

(** ** The primitive loop and the Indexed bit *)

Section Assembly.
Context (PC : PrimitiveConsts).

Lemma triple_not_assertion (indices : list Z) (a b c : Z) :
  triple indices a b c ≠ Raise AssertionError.
Proof.
  unfold triple. intros H.
  apply bind_raise_inv in H as [H|(x & _ & H)]; [by apply index_not_assertion in H|].
  apply bind_raise_inv in H as [H|(y & _ & H)]; [by apply index_not_assertion in H|].
  apply bind_raise_inv in H as [H|(z & _ & H)]; [by apply index_not_assertion in H|].
  done.
Qed.

Lemma strip_loop_not_assertion (indices : list Z) (dmat : option nat) (ids : list Z)
    (even : bool) (fs : list Face) :
  strip_loop indices dmat ids even fs ≠ Raise AssertionError.
Proof.
  revert even fs. induction ids as [|i ids IH]; intros even fs; [done|].
  simpl. intros H. apply bind_raise_inv in H as [H|(t & _ & H)].
  - destruct even; by apply triple_not_assertion in H.
  - by apply IH in H.
Qed.

Lemma fan_loop_not_assertion (indices : list Z) (dmat : option nat) (ids : list Z)
    (even : bool) (fs : list Face) :
  fan_loop indices dmat ids even fs ≠ Raise AssertionError.
Proof.
  revert even fs. induction ids as [|i ids IH]; intros even fs; [done|].
  simpl. intros H. apply bind_raise_inv in H as [H|(t & _ & H)].
  - destruct even; by apply triple_not_assertion in H.
  - by apply IH in H.
Qed.

Lemma list_loop_not_assertion (indices : list Z) (dmat : option nat) (ids : list Z)
    (fs : list Face) :
  list_loop indices dmat ids fs ≠ Raise AssertionError.
Proof.
  revert fs. induction ids as [|i ids IH]; intros fs; [done|].
  simpl. intros H. apply bind_raise_inv in H as [H|(t & _ & H)].
  - by apply triple_not_assertion in H.
  - by apply IH in H.
Qed.

Lemma decode_not_assertion (indices : list Z) (prim : Primitive) (dmat : option nat)
    (fs : list Face) :
  decode PC indices prim dmat fs ≠ Raise AssertionError.
Proof.
  unfold decode. destruct (truthy _); [apply strip_loop_not_assertion|].
  destruct (truthy _); [apply fan_loop_not_assertion|apply list_loop_not_assertion].
Qed.

Lemma position_not_assertion {A} (xs : list A) (i : Z) :
  Py.position xs i ≠ Raise AssertionError.
Proof. unfold Py.position. by destruct (_ || _). Qed.

(** A primitive without the Indexed bit stops the loop at the [assert]. *)
Lemma prim_step_not_indexed (shape : DtsShape) (mats : gmap nat BMat) (indices : list Z)
    (st : Assembly) (prim : Primitive) :
  truthy (Z.land (prim_type prim) (Indexed PC)) = false →
  prim_step PC shape mats indices st prim = Raise AssertionError.
Proof. intros H. unfold prim_step. by rewrite H. Qed.

(** With the Indexed bit, whatever the turn raises is not the [assert]. *)
Lemma prim_step_indexed (shape : DtsShape) (mats : gmap nat BMat) (indices : list Z)
    (st : Assembly) (prim : Primitive) :
  truthy (Z.land (prim_type prim) (Indexed PC)) = true →
  prim_step PC shape mats indices st prim ≠ Raise AssertionError.
Proof.
  intros Hix H. unfold prim_step in H. rewrite Hix in H. simpl in H.
  apply bind_raise_inv in H as [H|([[dmat mi] sl] & _ & H)].
  - destruct (negb _); [|done].
    apply bind_raise_inv in H as [H|(d & _ & H)]; [by apply position_not_assertion in H|].
    destruct (material_indices st !! d); [done|].
    unfold dict_get in H. by destruct (mats !! d).
  - apply bind_raise_inv in H as [H|(fs & _ & H)]; [|done].
    by apply decode_not_assertion in H.
Qed.

Lemma corner_step_not_assertion (tv : list Point2) (g : Geometry) (c : nat * Z) :
  corner_step tv g c ≠ Raise AssertionError.
Proof.
  destruct c as [j index]. unfold corner_step. intros H.
  apply bind_raise_inv in H as [H|(uv & _ & H)]; [|done].
  by apply index_not_assertion in H.
Qed.

Lemma face_step_not_assertion (tv : list Point2) (mi : gmap nat Z) (g : Geometry)
    (f : nat * Face) :
  face_step tv mi g f ≠ Raise AssertionError.
Proof.
  destruct f as [i [[[v0 v1] v2] dmat]]. unfold face_step.
  destruct (polygons g !! i) as [poly|]; [|done].
  intros H. apply bind_raise_inv in H as [H|(poly' & _ & H)].
  - destruct dmat as [d|]; [|done]. by destruct (mi !! d).
  - apply for_each_raise_inv in H as (g' & c & _ & H).
    by apply corner_step_not_assertion in H.
Qed.

End Assembly.

(** C7. A mesh with a primitive whose type lacks the Indexed bit is not
    assembled: [create_bmesh] raises, and what it raises is the failed
    [assert] as soon as the primitives before that one were decoded.
    When every primitive has the Indexed bit, nothing that
    [create_bmesh] may raise is the failed [assert]. What
    [create_bmesh] raises for a Standard mesh, the object loop raises
    in turn, which ends the import. *)
Theorem indexed_bit_is_asserted (PC : PrimitiveConsts) (dmesh : Mesh)
    (mats : gmap nat BMat) (shape : DtsShape) :
  (∀ prim, prim ∈ primitives dmesh →
     truthy (Z.land (prim_type prim) (Indexed PC)) = false →
     raises (create_bmesh PC dmesh mats shape))
  ∧ (∀ before prim after st,
       primitives dmesh = before ++ prim :: after →
       truthy (Z.land (prim_type prim) (Indexed PC)) = false →
       for_each (prim_step PC shape mats (indices dmesh)) before
         {| faces := []; material_indices := ∅; slots := [] |} = Return st →
       create_bmesh PC dmesh mats shape = Raise AssertionError)
  ∧ ((∀ prim, prim ∈ primitives dmesh →
        truthy (Z.land (prim_type prim) (Indexed PC)) = true) →
     create_bmesh PC dmesh mats shape ≠ Raise AssertionError)
  ∧ (∀ hide_default_player node_obs obj meshIndex w e,
       Py.index (meshes shape) (firstMesh obj + meshIndex) = Return dmesh →
       mesh_type dmesh = Standard →
       create_bmesh PC dmesh mats shape = Raise e →
       mesh_step PC shape hide_default_player mats node_obs obj tt meshIndex w
       = (Raise e, w)).
Proof.
  split; [|split; [|split]].
  - intros prim Hin Hbit. unfold create_bmesh.
    destruct (for_each_raises (prim_step PC shape mats (indices dmesh))
                (primitives dmesh) prim
                {| faces := []; material_indices := ∅; slots := [] |} Hin) as [e He].
    { intros s'. exists AssertionError. by apply prim_step_not_indexed. }
    rewrite He. by exists e.
  - intros before prim after st Hsplit Hbit Hbefore. unfold create_bmesh.
    rewrite Hsplit, for_each_app, Hbefore. simpl.
    by rewrite prim_step_not_indexed.
  - intros Hall H. unfold create_bmesh in H.
    apply bind_raise_inv in H as [H|(st & _ & H)].
    { apply for_each_raise_inv in H as (s' & prim & Hin & H).
      by apply prim_step_indexed in H; [|apply Hall]. }
    apply bind_raise_inv in H as [H|(_ & _ & H)].
    { by destruct (Nat.eqb _ _). }
    apply bind_raise_inv in H as [H|(g & _ & H)]; [|done].
    apply for_each_raise_inv in H as (g' & f & _ & H).
    by apply face_step_not_assertion in H.
  - intros hide_default_player node_obs obj meshIndex w e Hmesh Htype Hraise.
    unfold mesh_step, mbind, M_bind, lift.
    by rewrite Hmesh, Htype, Hraise.
Qed.

(** The triangle mesh, and the same with an unindexed second primitive. *)
Lemma indexed_bit_is_asserted_witness :
  raises (create_bmesh torque_primitive unindexed_mesh ∅ tiny_shape)
  ∧ create_bmesh torque_primitive unindexed_mesh ∅ tiny_shape = Raise AssertionError
  ∧ create_bmesh torque_primitive triangle_mesh ∅ tiny_shape ≠ Raise AssertionError
  ∧ mesh_step torque_primitive unindexed_shape false ∅ [] body tt 0 empty_world
    = (Raise AssertionError, empty_world).
Proof.
  destruct (indexed_bit_is_asserted torque_primitive unindexed_mesh ∅ tiny_shape)
    as (Hraises & Hassert & _).
  destruct (indexed_bit_is_asserted torque_primitive triangle_mesh ∅ tiny_shape)
    as (_ & _ & Hindexed & _).
  destruct (indexed_bit_is_asserted torque_primitive unindexed_mesh ∅ unindexed_shape)
    as (_ & _ & _ & Haborts).
  split; [|split; [|split]]; [| | |by apply Haborts].
  - apply (Hraises unindexed_list); [|reflexivity].
    apply elem_of_cons. right. apply elem_of_cons. by left.
  - eapply (Hassert [list_of 3] unindexed_list []); reflexivity.
  - apply Hindexed. intros prim Hin.
    apply list_elem_of_singleton in Hin as ->. reflexivity.
Defined.


(** ** The face loop and the UV layer *)

(** Reads [l !! i] through the writes [<[j := x]>] around [l]. *)
Ltac lookup_inserts :=
  repeat first
    [ rewrite list_lookup_insert_ne by lia
    | rewrite list_lookup_insert_eq by (rewrite ?length_insert; lia) ].

Lemma loop_indices_three (i : nat) (m : Z) :
  loop_indices {| loop_total := 3; loop_start := Z.of_nat i * 3; material_index := m |}
  = [3 * i; 3 * i + 1; 3 * i + 2]%nat.
Proof.
  unfold loop_indices. simpl. rewrite range_unfold.
  replace (Z.to_nat (Z.of_nat i * 3 + 3 - Z.of_nat i * 3)) with 3%nat by lia.
  simpl. f_equal; [lia|]. f_equal; [lia|]. f_equal. lia.
Qed.

(** One face: the polygon at [i] is set up and the three loops from
    [3 * i] get the face's vertices and their texels, V flipped. *)
Lemma face_step_returns (tv : list Point2) (mi : gmap nat Z) (g g' : Geometry)
    (i : nat) (v0 v1 v2 : Z) (dmat : option nat) :
  (i < length (polygons g))%nat →
  face_step tv mi g (i, ((v0, v1, v2), dmat)) = Return g' →
  ∃ uv0 uv1 uv2,
    Py.index tv v0 = Return uv0 ∧ Py.index tv v1 = Return uv1
    ∧ Py.index tv v2 = Return uv2
    ∧ loops g' = <[(3 * i + 2)%nat := v2]>
                   (<[(3 * i + 1)%nat := v1]> (<[(3 * i)%nat := v0]> (loops g)))
    ∧ uvs g' = <[(3 * i + 2)%nat := (p2_x uv2, (1 - p2_y uv2)%float)]>
                 (<[(3 * i + 1)%nat := (p2_x uv1, (1 - p2_y uv1)%float)]>
                    (<[(3 * i)%nat := (p2_x uv0, (1 - p2_y uv0)%float)]> (uvs g)))
    ∧ length (polygons g') = length (polygons g).
Proof.
  intros Hi. unfold face_step.
  destruct (lookup_lt_is_Some_2 (polygons g) i Hi) as [poly ->].
  cbn [loop_total loop_start].
  assert (Hcorners : ∀ m,
    for_each (corner_step tv)
      (zip (loop_indices {| loop_total := 3; loop_start := Z.of_nat i * 3;
                            material_index := m |}) [v0; v1; v2])
      {| polygons := <[i := {| loop_total := 3; loop_start := Z.of_nat i * 3;
                              material_index := m |}]> (polygons g);
         loops := loops g; uvs := uvs g |} = Return g' →
    ∃ uv0 uv1 uv2,
      Py.index tv v0 = Return uv0 ∧ Py.index tv v1 = Return uv1
      ∧ Py.index tv v2 = Return uv2
      ∧ loops g' = <[(3 * i + 2)%nat := v2]>
                     (<[(3 * i + 1)%nat := v1]> (<[(3 * i)%nat := v0]> (loops g)))
      ∧ uvs g' = <[(3 * i + 2)%nat := (p2_x uv2, (1 - p2_y uv2)%float)]>
                   (<[(3 * i + 1)%nat := (p2_x uv1, (1 - p2_y uv1)%float)]>
                      (<[(3 * i)%nat := (p2_x uv0, (1 - p2_y uv0)%float)]> (uvs g)))
      ∧ length (polygons g') = length (polygons g)).
  { intros m. rewrite loop_indices_three.
    cbn [zip zip_with for_each corner_step].
    destruct (Py.index tv v0) as [uv0|]; [|done]. cbn.
    destruct (Py.index tv v1) as [uv1|]; [|done]. cbn.
    destruct (Py.index tv v2) as [uv2|]; [|done]. cbn.
    intros [= <-]. exists uv0, uv1, uv2. cbn.
    by rewrite length_insert. }
  destruct dmat as [d|]; cbn.
  - destruct (mi !! d) as [m|]; [|done]. cbn. apply Hcorners.
  - apply Hcorners.
Qed.

(** The face loop from face [s] on: the loops of the faces it visits
    are written, those before [3 * s] are left as they were. *)
Lemma face_loop_returns (tv : list Point2) (mi : gmap nat Z) (fs : list Face) :
  ∀ (s : nat) (g g' : Geometry),
    (s + length fs ≤ length (polygons g))%nat →
    (3 * (s + length fs) ≤ length (loops g))%nat →
    length (uvs g) = length (loops g) →
    for_each (face_step tv mi) (zip (seq s (length fs)) fs) g = Return g' →
    length (loops g') = length (loops g)
    ∧ length (uvs g') = length (uvs g)
    ∧ (∀ j, (j < 3 * s)%nat →
         loops g' !! j = loops g !! j ∧ uvs g' !! j = uvs g !! j)
    ∧ (∀ k v0 v1 v2 dmat c index,
         fs !! k = Some ((v0, v1, v2), dmat) →
         [v0; v1; v2] !! c = Some index →
         ∃ uv, Py.index tv index = Return uv
               ∧ loops g' !! (3 * (s + k) + c)%nat = Some index
               ∧ uvs g' !! (3 * (s + k) + c)%nat
                 = Some (p2_x uv, (1 - p2_y uv)%float)).
Proof.
  induction fs as [|[[[v0 v1] v2] dmat] fs IH]; intros s g g' Hpoly Hloops Huv.
  - simpl. intros [= <-]. repeat split; done.
  - cbn [length seq zip zip_with for_each] in *.
    destruct (face_step tv mi g _) as [g1|] eqn:Hstep;
      cbn [mbind result_bind]; [|done].
    intros Hrest.
    destruct (face_step_returns tv mi g g1 s v0 v1 v2 dmat ltac:(lia) Hstep)
      as (uv0 & uv1 & uv2 & H0 & H1 & H2 & Hl & Hu & Hp).
    assert (Hl1 : length (loops g1) = length (loops g))
      by (rewrite Hl, !length_insert; done).
    assert (Hu1 : length (uvs g1) = length (uvs g))
      by (rewrite Hu, !length_insert; done).
    destruct (IH (S s) g1 g') as (Hlen & Hulen & Hframe & Hfaces);
      [lia | lia | lia | done |].
    split; [lia|]. split; [lia|]. split.
    + intros j Hj. destruct (Hframe j) as [-> ->]; [lia|].
      rewrite Hl, Hu. by lookup_inserts.
    + intros [|k] w0 w1 w2 d c index Hk Hc.
      * injection Hk as <- <- <- <-. rewrite Nat.add_0_r.
        destruct (Hframe (3 * s + c)%nat) as [-> ->].
        { apply lookup_lt_Some in Hc. simpl in Hc. lia. }
        rewrite Hl, Hu.
        destruct c as [|[|[|c]]]; simpl in Hc; [| | |done];
          injection Hc as <-.
        -- exists uv0. rewrite Nat.add_0_r. by lookup_inserts.
        -- exists uv1. by lookup_inserts.
        -- exists uv2. by lookup_inserts.
      * destruct (Hfaces k w0 w1 w2 d c index Hk Hc) as (uv & ? & ? & ?).
        exists uv. replace (s + S k)%nat with (S s + k)%nat by lia. done.
Qed.

(** C6. In the mesh [create_bmesh] returns, the loop of corner c of
    face i (loop 3 * i + c) has the face's c-th vertex index, and its
    UV is (u, 1 - v) for the texel (u, v) that [tverts] holds at that
    index; the texel (0.25, 0.75) is written as (0.25, 0.25). *)
Theorem uv_is_v_flipped (PC : PrimitiveConsts) (dmesh : Mesh) (mats : gmap nat BMat)
    (shape : DtsShape) (me : BMesh) :
  create_bmesh PC dmesh mats shape = Return me →
  ∃ st,
    for_each (prim_step PC shape mats (indices dmesh)) (primitives dmesh)
      {| faces := []; material_indices := ∅; slots := [] |} = Return st
    ∧ length (me_uv me) = (length (faces st) * 3)%nat
    ∧ ∀ i v0 v1 v2 dmat c index,
        faces st !! i = Some ((v0, v1, v2), dmat) →
        [v0; v1; v2] !! c = Some index →
        ∃ uv,
          Py.index (tverts dmesh) index = Return uv
          ∧ me_loops me !! (3 * i + c)%nat = Some index
          ∧ me_uv me !! (3 * i + c)%nat = Some (p2_x uv, (1 - p2_y uv)%float)
          ∧ (uv = {| p2_x := 0.25; p2_y := 0.75 |} →
             me_uv me !! (3 * i + c)%nat = Some (0.25, 0.25)%float).
Proof.
  unfold create_bmesh. intros H.
  destruct (for_each (prim_step _ _ _ _) _ _) as [st|] eqn:Hst; [|done].
  cbn in H. destruct (Nat.eqb _ _); [|done]. cbn in H.
  destruct (for_each (face_step _ _) _ _) as [g|] eqn:Hg; [|done].
  cbn in H. injection H as <-. cbn [me_uv me_loops].
  exists st. split; [done|].
  unfold enumerate in Hg.
  apply face_loop_returns in Hg as (Hlen & Hulen & _ & Hfaces);
    [|cbn; rewrite ?length_replicate; lia..].
  cbn in Hlen, Hulen. rewrite length_replicate in Hulen.
  split; [done|].
  intros i v0 v1 v2 dmat c index Hi Hc.
  destruct (Hfaces i v0 v1 v2 dmat c index Hi Hc) as (uv & Huv & Hloop & Huvs).
  change (0 + i)%nat with i in Hloop, Huvs.
  exists uv. repeat split; try done.
  intros ->. rewrite Huvs. reflexivity.
Qed.

(** The triangle mesh: loop 2 is vertex 0, texel (0.25, 0.75). *)
Lemma uv_is_v_flipped_witness :
  ∃ st,
    for_each (prim_step torque_primitive tiny_shape ∅ (indices triangle_mesh))
      (primitives triangle_mesh)
      {| faces := []; material_indices := ∅; slots := [] |} = Return st
    ∧ length (me_uv triangle_bmesh) = (length (faces st) * 3)%nat
    ∧ ∀ i v0 v1 v2 dmat c index,
        faces st !! i = Some ((v0, v1, v2), dmat) →
        [v0; v1; v2] !! c = Some index →
        ∃ uv,
          Py.index (tverts triangle_mesh) index = Return uv
          ∧ me_loops triangle_bmesh !! (3 * i + c)%nat = Some index
          ∧ me_uv triangle_bmesh !! (3 * i + c)%nat
            = Some (p2_x uv, (1 - p2_y uv)%float)
          ∧ (uv = {| p2_x := 0.25; p2_y := 0.75 |} →
             me_uv triangle_bmesh !! (3 * i + c)%nat = Some (0.25, 0.25)%float).
Proof.
  apply (uv_is_v_flipped torque_primitive triangle_mesh ∅ tiny_shape triangle_bmesh).
  reflexivity.
Defined.


(** ** Statements on the host *)

Lemma bindM_returns {A B} (m : M A) (f : A → M B) (w w' : World) (b : B) :
  (m ≫= f) w = (Return b, w') →
  ∃ a w1, m w = (Return a, w1) ∧ f a w1 = (Return b, w').
Proof.
  unfold mbind, M_bind. destruct (m w) as [[a|e] w1]; [|done].
  intros H. by exists a, w1.
Qed.

Lemma lift_returns {A} (r : result A) (w w' : World) (a : A) :
  lift r w = (Return a, w') → r = Return a ∧ w' = w.
Proof. unfold lift. by intros [= -> ->]. Qed.

Lemma mret_returns {A} (a b : A) (w w' : World) :
  (mret a : M A) w = (Return b, w') → b = a ∧ w' = w.
Proof. by intros [= -> ->]. Qed.

Lemma objects_new_returns (name : string) (data : option BMesh) (w w' : World) (h : nat) :
  objects_new name data w = (Return h, w') →
  h = length (data_objects w)
  ∧ data_objects w' = data_objects w ++ [new_object name data]
  ∧ data_groups w' = data_groups w.
Proof. intros [= <- <-]. by cbn. Qed.

Lemma modify_returns (h : nat) (f : BObj → BObj) (w w' : World) (u : unit) :
  modify h f w = (Return u, w') →
  data_objects w' = alter f h (data_objects w) ∧ data_groups w' = data_groups w.
Proof. intros [= <- <-]. by cbn. Qed.

Lemma scene_link_returns (h : nat) (w w' : World) (u : unit) :
  scene_link h w = (Return u, w') →
  data_objects w' = data_objects w ∧ data_groups w' = data_groups w.
Proof. intros [= <- <-]. by cbn. Qed.

Lemma print_returns (line : string) (w w' : World) (u : unit) :
  print line w = (Return u, w') →
  data_objects w' = data_objects w ∧ data_groups w' = data_groups w.
Proof. intros [= <- <-]. by cbn. Qed.

(** A handle just created is the last object; assigning to one of its
    attributes changes that object only. *)
Lemma alter_last {A} (f : A → A) (l : list A) (x : A) :
  alter f (length l) (l ++ [x]) = l ++ [f x].
Proof.
  replace (length l) with (length l + 0)%nat by lia.
  by rewrite alter_app_r.
Qed.

(** Peels the first statement off a sequence that returned. *)
Ltac step H a w := apply bindM_returns in H as (a & w & ?Hstep & H).

Section NodeTree.
Context (shape : DtsShape).

(** [if node.parent != -1: ob.parent = node_obs[node.parent]]. *)
Lemma parent_returns (node_obs : list nat) (parent : Z) (ob : nat) (w w' : World)
    (u : unit) :
  (if negb (parent =? -1) then
     p ← lift (Py.index node_obs parent); modify ob (set_parent p)
   else mret tt) w = (Return u, w') →
  ∃ f, data_objects w' = alter f ob (data_objects w)
       ∧ (∀ o, ob_rotation_quaternion (f o) = ob_rotation_quaternion o)
       ∧ (∀ o, ob_data (f o) = ob_data o)
       ∧ (∀ o, ob_name (f o) = ob_name o)
       ∧ data_groups w' = data_groups w.
Proof.
  destruct (negb _); intros H.
  - step H p w1. apply lift_returns in Hstep as [_ ->].
    apply modify_returns in H as [-> ->]. by exists (set_parent p).
  - apply mret_returns in H as [_ ->]. exists id.
    by rewrite list_alter_id.
Qed.

Lemma node_step_groups (node_obs obs' : list nat) (i : nat) (node : Node)
    (w w' : World) :
  node_step shape node_obs (i, node) w = (Return obs', w') →
  data_groups w' = data_groups w.
Proof.
  unfold node_step. intros H.
  step H name w1. apply lift_returns in Hstep as [_ ->].
  step H ob w2. apply objects_new_returns in Hstep as (_ & _ & Hg2).
  step H u3 w3. apply modify_returns in Hstep as [_ Hg3].
  step H u4 w4. apply parent_returns in Hstep as (f & _ & _ & _ & _ & Hg4).
  step H loc w5. apply lift_returns in Hstep as [_ ->].
  step H u6 w6. apply modify_returns in Hstep as [_ Hg6].
  step H u7 w7. apply modify_returns in Hstep as [_ Hg7].
  step H q w8. apply lift_returns in Hstep as [_ ->].
  step H u9 w9. apply modify_returns in Hstep as [_ Hg9].
  step H u10 w10. apply scene_link_returns in Hstep as [_ Hg10].
  apply mret_returns in H as [_ ->]. congruence.
Qed.

Lemma node_step_returns (node_obs obs' : list nat) (i : nat) (node : Node)
    (w w' : World) :
  node_step shape node_obs (i, node) w = (Return obs', w') →
  ∃ q ob,
    Py.index (default_rotations shape) (Z.of_nat i) = Return q
    ∧ ob_rotation_quaternion ob = ((- q_w q)%float, q_x q, q_y q, q_z q)
    ∧ obs' = node_obs ++ [length (data_objects w)]
    ∧ data_objects w' = data_objects w ++ [ob].
Proof.
  unfold node_step. intros H.
  step H name w1. apply lift_returns in Hstep as [_ ->].
  step H ob w2. apply objects_new_returns in Hstep as (-> & Ho2 & _).
  step H u3 w3. apply modify_returns in Hstep as [Ho3 _].
  step H u4 w4. apply parent_returns in Hstep as (f & Ho4 & _).
  step H loc w5. apply lift_returns in Hstep as [_ ->].
  step H u6 w6. apply modify_returns in Hstep as [Ho6 _].
  step H u7 w7. apply modify_returns in Hstep as [Ho7 _].
  step H q w8. apply lift_returns in Hstep as [Hq ->].
  step H u9 w9. apply modify_returns in Hstep as [Ho9 _].
  step H u10 w10. apply scene_link_returns in Hstep as [Ho10 _].
  apply mret_returns in H as [-> ->].
  eexists q, _. split; [done|]. split; [|split; [done|]].
  2: { rewrite Ho10, Ho9, Ho7, Ho6, Ho4, Ho3, Ho2, !alter_last. done. }
  done.
Qed.

(** The node loop from node [s] on: one object per node is appended, in
    order, and [node_obs] gets their handles. *)
Lemma node_loop_returns (ns : list Node) :
  ∀ (s : nat) (node_obs obs' : list nat) (w w' : World),
    for_eachM (node_step shape) (zip (seq s (length ns)) ns) node_obs w
    = (Return obs', w') →
    ∃ created,
      data_objects w' = data_objects w ++ created
      ∧ data_groups w' = data_groups w
      ∧ length created = length ns
      ∧ obs' = node_obs ++ seq (length (data_objects w)) (length ns)
      ∧ ∀ k, (k < length ns)%nat →
          ∃ q ob,
            Py.index (default_rotations shape) (Z.of_nat (s + k)) = Return q
            ∧ created !! k = Some ob
            ∧ ob_rotation_quaternion ob = ((- q_w q)%float, q_x q, q_y q, q_z q).
Proof.
  induction ns as [|node ns IH]; intros s node_obs obs' w w' H.
  - apply mret_returns in H as [-> ->]. exists [].
    rewrite !app_nil_r. repeat split; try done. intros k Hk. simpl in Hk. lia.
  - cbn [length seq zip zip_with for_eachM] in H.
    step H obs1 w1.
    pose proof (node_step_groups _ _ _ _ _ _ Hstep) as Hg1.
    apply node_step_returns in Hstep as (q & ob & Hq & Hrot & -> & Ho1).
    apply IH in H as (created & Ho & Hg & Hlen & -> & Hk).
    exists (ob :: created). split; [|split; [|split; [|split]]].
    + by rewrite Ho, Ho1, <- app_assoc.
    + by rewrite Hg, Hg1.
    + simpl. by rewrite Hlen.
    + rewrite Ho1, length_app, <- app_assoc. simpl.
      by rewrite Nat.add_1_r.
    + intros [|k] Hlt.
      * rewrite Nat.add_0_r. by exists q, ob.
      * destruct (Hk k) as (q' & ob' & ? & ? & ?); [simpl in Hlt; lia|].
        replace (s + S k)%nat with (S s + k)%nat by lia.
        by exists q', ob'.
Qed.

End NodeTree.

(** ** Detail levels and groups *)

Lemma lod_by_mesh_last (shape : DtsShape) (meshIndex : Z) :
  lod_by_mesh shape !! meshIndex = last_detail shape meshIndex.
Proof.
  unfold lod_by_mesh, last_detail.
  induction (detail_levels shape) as [|lod lods IH] using rev_ind; [done|].
  rewrite foldl_app, List.filter_app. simpl.
  destruct (Z.eqb_spec (objectDetail lod) meshIndex) as [->|Hne].
  - rewrite lookup_insert_eq. by rewrite last_snoc.
  - rewrite lookup_insert_ne by done. by rewrite app_nil_r.
Qed.

Lemma groups_grow_refl (g : gmap string (list nat)) : groups_grow g g.
Proof. intros name members H. exists []. by rewrite app_nil_r. Qed.

Lemma groups_grow_trans (g1 g2 g3 : gmap string (list nat)) :
  groups_grow g1 g2 → groups_grow g2 g3 → groups_grow g1 g3.
Proof.
  intros H12 H23 name members H.
  destruct (H12 _ _ H) as [more1 H1]. destruct (H23 _ _ H1) as [more2 H2].
  exists (more1 ++ more2). by rewrite app_assoc.
Qed.

Lemma grouped_grow (shape : DtsShape) (g g' : gmap string (list nat)) (h : nat) (m : Z) :
  groups_grow g g' → grouped shape g h m → grouped shape g' h m.
Proof.
  intros Hgrow (lod & group & members & Hlod & Hname & Hg & Hin).
  destruct (Hgrow _ _ Hg) as [more Hg'].
  exists lod, group, (members ++ more). repeat split; try done.
  apply elem_of_app. by left.
Qed.

Lemma groups_ensure_returns (name : string) (w w' : World) (u : unit) :
  groups_ensure name w = (Return u, w') →
  data_objects w' = data_objects w
  ∧ groups_grow (data_groups w) (data_groups w')
  ∧ is_Some (data_groups w' !! name).
Proof.
  unfold groups_ensure. intros [= <- <-].
  destruct (data_groups w !! name) as [members|] eqn:Hg.
  - split; [done|]. split; [apply groups_grow_refl|by rewrite Hg].
  - cbn. split; [done|]. split.
    + intros other members H. exists []. rewrite app_nil_r.
      rewrite lookup_insert_ne; [done|]. intros <-. congruence.
    + rewrite lookup_insert_eq. by eexists.
Qed.

Lemma group_link_returns (name : string) (h : nat) (w w' : World) (u : unit) :
  group_link name h w = (Return u, w') →
  data_objects w' = data_objects w
  ∧ groups_grow (data_groups w) (data_groups w')
  ∧ ∃ members, data_groups w' !! name = Some members ∧ h ∈ members.
Proof.
  unfold group_link.
  destruct (data_groups w !! name) as [members|] eqn:Hg; [|done].
  intros [= <- <-]. cbn. split; [done|]. split.
  - intros other members' H.
    destruct (decide (other = name)) as [->|Hne].
    + rewrite lookup_insert_eq. exists [h]. congruence.
    + rewrite lookup_insert_ne by done. exists []. by rewrite app_nil_r.
  - exists (members ++ [h]). rewrite lookup_insert_eq. split; [done|].
    apply elem_of_app. right. apply list_elem_of_singleton. done.
Qed.

(** ** The object loop *)

Section Objects.
Context (PC : PrimitiveConsts) (shape : DtsShape) (hide_default_player : bool).
Context (mats : gmap nat BMat) (node_obs : list nat).

(** [if hide_default_player and ...: bobj.hide = True]. *)
Lemma hide_returns (c : bool) (ob : nat) (w w' : World) (u : unit) :
  (if c then modify ob (set_hide true) else mret tt) w = (Return u, w') →
  ∃ f, data_objects w' = alter f ob (data_objects w)
       ∧ (∀ o, ob_data (f o) = ob_data o)
       ∧ (∀ o, ob_name (f o) = ob_name o)
       ∧ data_groups w' = data_groups w.
Proof.
  destruct c; intros H.
  - apply modify_returns in H as [-> ->]. by exists (set_hide true).
  - apply mret_returns in H as [_ ->]. exists id. by rewrite list_alter_id.
Qed.

(** One mesh: a Standard mesh gets one new object, in the group of the
    detail level [lod_by_mesh] has for its index; any other mesh
    leaves the objects as they are. *)
Lemma mesh_step_returns (obj : Object) (m : Z) (w w' : World) :
  mesh_step PC shape hide_default_player mats node_obs obj tt m w = (Return tt, w') →
  groups_grow (data_groups w) (data_groups w')
  ∧ if is_standard shape obj m then
      ∃ ob, data_objects w' = data_objects w ++ [ob]
            ∧ is_Some (ob_data ob)
            ∧ Py.index (names shape) (obj_name obj) = Return (ob_name ob)
            ∧ grouped shape (data_groups w') (length (data_objects w)) m
    else data_objects w' = data_objects w.
Proof.
  unfold mesh_step, is_standard. intros H.
  step H mesh w1. apply lift_returns in Hstep as [-> ->].
  destruct (mesh_type mesh) as [| |kind].
  - apply mret_returns in H as [_ ->]. split; [apply groups_grow_refl|done].
  - step H bmesh w1. apply lift_returns in Hstep as [_ ->].
    step H name w2. apply lift_returns in Hstep as [Hname ->].
    step H bobj w3. apply objects_new_returns in Hstep as (-> & Ho3 & Hg3).
    step H u4 w4. apply scene_link_returns in Hstep as [Ho4 Hg4].
    step H u5 w5. apply parent_returns in Hstep as (f5 & Ho5 & _ & Hd5 & Hn5 & Hg5).
    step H u6 w6. apply hide_returns in Hstep as (f6 & Ho6 & Hd6 & Hn6 & Hg6).
    step H lod w7. apply lift_returns in Hstep as [Hlod ->].
    step H group w8. apply lift_returns in Hstep as [Hgroup ->].
    step H u9 w9. apply groups_ensure_returns in Hstep as (Ho9 & Hg9 & _).
    apply group_link_returns in H as (Ho10 & Hg10 & members & Hmem & Hin).
    rewrite Hg6, Hg5, Hg4, Hg3 in Hg9.
    split; [by eapply groups_grow_trans|].
    exists (f6 (f5 (new_object name (Some bmesh)))).
    split; [|split; [|split]].
    + by rewrite Ho10, Ho9, Ho6, Ho5, Ho4, Ho3, !alter_last.
    + rewrite Hd6, Hd5. by eexists.
    + by rewrite Hn6, Hn5.
    + exists lod, group, members. repeat split; try done.
      by destruct (lod_by_mesh shape !! m); simplify_eq.
  - step H name w1. apply lift_returns in Hstep as [_ ->].
    apply print_returns in H as [-> ->]. split; [apply groups_grow_refl|done].
Qed.

Lemma adds_nil (w : World) : adds shape [] w w.
Proof.
  exists []. rewrite app_nil_r. repeat split; try done.
  apply groups_grow_refl.
Qed.

Lemma adds_app (ps1 ps2 : list (Object * Z)) (w w1 w' : World) :
  adds shape ps1 w w1 → adds shape ps2 w1 w' → adds shape (ps1 ++ ps2) w w'.
Proof.
  intros (new1 & Ho1 & Hl1 & Hg1 & Hk1) (new2 & Ho2 & Hl2 & Hg2 & Hk2).
  exists (new1 ++ new2). split; [|split; [|split]].
  - by rewrite Ho2, Ho1, app_assoc.
  - rewrite !length_app. lia.
  - by eapply groups_grow_trans.
  - intros k obj m Hk.
    destruct (decide (k < length ps1)%nat) as [Hlt|Hge].
    + rewrite lookup_app_l in Hk by done.
      destruct (Hk1 k obj m Hk) as (ob & Hnew & Hdata & Hname & Hgrouped).
      exists ob. rewrite lookup_app_l by lia.
      repeat split; try done. by eapply grouped_grow.
    + rewrite lookup_app_r in Hk by lia.
      destruct (Hk2 _ obj m Hk) as (ob & Hnew & Hdata & Hname & Hgrouped).
      exists ob. rewrite lookup_app_r by lia. rewrite Hl1.
      repeat split; try done.
      rewrite Ho1, length_app, Hl1 in Hgrouped.
      by replace (length (data_objects w) + k)%nat
        with (length (data_objects w) + length ps1 + (k - length ps1))%nat by lia.
Qed.

Lemma mesh_loop_returns (obj : Object) (ms : list Z) :
  ∀ w w' : World,
    for_eachM (mesh_step PC shape hide_default_player mats node_obs obj) ms tt w
    = (Return tt, w') →
    adds shape (pair obj <$> List.filter (is_standard shape obj) ms) w w'.
Proof.
  induction ms as [|m ms IH]; intros w w' H.
  - apply mret_returns in H as [_ ->]. apply adds_nil.
  - cbn [for_eachM] in H. step H u w1. destruct u.
    apply mesh_step_returns in Hstep as [Hgrow Hcase].
    apply IH in H. cbn [List.filter].
    destruct (is_standard shape obj m).
    + destruct Hcase as (ob & Ho & Hdata & Hname & Hgrouped).
      apply (adds_app [(obj, m)] _ w w1 w'); [|done].
      exists [ob]. repeat split; try done.
      intros [|k] obj' m' Hk; [|done]. injection Hk as <- <-.
      exists ob. rewrite Nat.add_0_r. done.
    + destruct H as (new & Ho' & Hl & Hg & Hk).
      exists new. rewrite <- Hcase. repeat split; try done.
      by eapply groups_grow_trans.
Qed.

Lemma object_loop_returns (objs : list Object) :
  ∀ w w' : World,
    for_eachM (object_step PC shape hide_default_player mats node_obs) objs tt w
    = (Return tt, w') →
    adds shape (flat_map (λ obj, pair obj <$> created_by shape obj) objs) w w'.
Proof.
  induction objs as [|obj objs IH]; intros w w' H.
  - apply mret_returns in H as [_ ->]. apply adds_nil.
  - cbn [for_eachM flat_map] in H |- *. step H u w1. destruct u.
    apply mesh_loop_returns in Hstep. apply IH in H.
    by eapply adds_app.
Qed.

End Objects.

(** ** Statements that leave the objects and groups alone *)

Lemma keeps_ret {A} (a : A) : keeps_host (mret a).
Proof. by intros w r w' [= <- <-]. Qed.

Lemma keeps_lift {A} (r : result A) : keeps_host (lift r).
Proof. by intros w r' w' [= <- <-]. Qed.

Lemma keeps_bind {A B} (m : M A) (f : A → M B) :
  keeps_host m → (∀ a, keeps_host (f a)) → keeps_host (m ≫= f).
Proof.
  intros Hm Hf w r w'. unfold mbind, M_bind.
  destruct (m w) as [[a|e] w1] eqn:Hmw.
  - intros Hfa. destruct (Hm _ _ _ Hmw) as [<- <-]. by eapply Hf.
  - intros [= <- <-]. by eapply Hm.
Qed.

Lemma keeps_print (line : string) : keeps_host (print line).
Proof. by intros w r w' [= <- <-]. Qed.

Lemma keeps_draw (env : Env) : keeps_host (draw env).
Proof. by intros w r w' [= <- <-]. Qed.

Lemma keeps_for_eachM {S A} (body : S → A → M S) (xs : list A) (s : S) :
  (∀ s x, keeps_host (body s x)) → keeps_host (for_eachM body xs s).
Proof.
  intros Hbody. revert s. induction xs as [|x xs IH]; intros s.
  - apply keeps_ret.
  - simpl. apply keeps_bind; [apply Hbody|apply IH].
Qed.

Lemma keeps_import_material (MC : MaterialConsts) (env : Env) (dmat : Material)
    (filepath : path) :
  keeps_host (import_material MC env dmat filepath).
Proof.
  unfold import_material. apply keeps_bind; [|intros; apply keeps_ret].
  unfold texture_or_color.
  destruct (find_texture _ _ _) as [texname|].
  - apply keeps_bind.
    + unfold try_load. destruct (images_load _ _); [apply keeps_ret|].
      apply keeps_bind; [apply keeps_print|intros; apply keeps_ret].
    + intros teximg. apply keeps_bind; [apply keeps_lift|intros; apply keeps_ret].
  - destruct (default_materials !! _); [apply keeps_ret|].
    repeat (apply keeps_bind; [apply keeps_draw|intros]). apply keeps_ret.
Qed.

Lemma keeps_import_materials (MC : MaterialConsts) (env : Env) (shape : DtsShape)
    (filepath : path) :
  keeps_host (import_materials MC env shape filepath).
Proof.
  unfold import_materials. apply keeps_for_eachM. intros mats [k dmat].
  apply keeps_bind; [apply keeps_import_material|intros; apply keeps_ret].
Qed.

Lemma keeps_write_node_order (shape : DtsShape) : keeps_host (write_node_order shape).
Proof.
  unfold write_node_order. apply keeps_bind.
  - intros w r w' [= <- <-]. unfold set_texts. by destruct (data_texts w !! _).
  - intros _. apply keeps_bind; [apply keeps_lift|].
    intros lines w r w' [= <- <-]. done.
Qed.

(** ** [load] as a whole *)

Lemma build_nodes_returns (shape : DtsShape) (node_mode : NodeMode)
    (node_obs : list nat) (w w' : World) :
  build_nodes shape node_mode w = (Return node_obs, w') →
  ∃ created,
    data_objects w' = data_objects w ++ created
    ∧ data_groups w' = data_groups w
    ∧ length created = node_count shape node_mode
    ∧ node_obs = seq (length (data_objects w)) (node_count shape node_mode)
    ∧ (node_mode = EMPTY →
       ∀ i, (i < length (nodes shape))%nat →
         ∃ q ob,
           Py.index (default_rotations shape) (Z.of_nat i) = Return q
           ∧ created !! i = Some ob
           ∧ ob_rotation_quaternion ob = ((- q_w q)%float, q_x q, q_y q, q_z q)).
Proof.
  unfold build_nodes, node_count. destruct node_mode.
  - unfold enumerate. intros H.
    apply node_loop_returns in H as (created & Ho & Hg & Hlen & -> & Hk).
    exists created. repeat split; try done.
  - intros H. apply mret_returns in H as [-> ->]. exists [].
    by rewrite app_nil_r.
  - intros H. apply mret_returns in H as [-> ->]. exists [].
    by rewrite app_nil_r.
Qed.

(** A run of [load] that returns: the materials were imported, the IFL
    entries assigned, the nodes built and the objects placed, in turn. *)
Lemma load_returns (MC : MaterialConsts) (PC : PrimitiveConsts) (env : Env)
    (shape : DtsShape) (filepath : path) (node_mode : NodeMode)
    (hide_default_player : bool) (w w' : World) :
  load MC PC env shape filepath node_mode hide_default_player w = (Return tt, w') →
  ∃ mats0 mats node_obs w1 w2 w3,
    import_materials MC env shape filepath w = (Return mats0, w1)
    ∧ assign_ifl shape mats0 = Return mats
    ∧ write_node_order shape w1 = (Return tt, w2)
    ∧ build_nodes shape node_mode w2 = (Return node_obs, w3)
    ∧ for_eachM (object_step PC shape hide_default_player mats node_obs)
        (objects shape) tt w3 = (Return tt, w')
    ∧ data_objects w2 = data_objects w
    ∧ data_groups w2 = data_groups w.
Proof.
  unfold load. intros H.
  step H mats0 w1. rename Hstep into Himport.
  step H mats w1'. apply lift_returns in Hstep as [Hifl ->].
  step H u w2. destruct u. rename Hstep into Horder.
  step H node_obs w3. rename Hstep into Hnodes.
  exists mats0, mats, node_obs, w1, w2, w3. repeat split; try done.
  - destruct (keeps_import_materials _ _ _ _ _ _ _ Himport) as [Ho1 _].
    destruct (keeps_write_node_order _ _ _ _ Horder) as [Ho2 _]. congruence.
  - destruct (keeps_import_materials _ _ _ _ _ _ _ Himport) as [_ Hg1].
    destruct (keeps_write_node_order _ _ _ _ Horder) as [_ Hg2]. congruence.
Qed.

(** C5. After an import with node objects, each node i has its own
    object, whose handle is [node_obs[i]] and whose rotation is
    (-w, x, y, z) for the node's default rotation (x, y, z, w); the
    rest of the import leaves that object's rotation as it is. *)
Theorem node_rotation_is_negated_w (MC : MaterialConsts) (PC : PrimitiveConsts)
    (env : Env) (shape : DtsShape) (filepath : path) (hide_default_player : bool)
    (w w' : World) :
  load MC PC env shape filepath EMPTY hide_default_player w = (Return tt, w') →
  ∀ i, (i < length (nodes shape))%nat →
    ∃ q ob,
      Py.index (default_rotations shape) (Z.of_nat i) = Return q
      ∧ data_objects w' !! (length (data_objects w) + i)%nat = Some ob
      ∧ ob_rotation_quaternion ob = ((- q_w q)%float, q_x q, q_y q, q_z q)
      ∧ ∃ node_obs w2 w3,
          build_nodes shape EMPTY w2 = (Return node_obs, w3)
          ∧ node_obs !! i = Some (length (data_objects w) + i)%nat
          ∧ data_objects w3 !! (length (data_objects w) + i)%nat = Some ob.
Proof.
  intros Hload i Hi.
  apply load_returns in Hload
    as (mats0 & mats & node_obs & w1 & w2 & w3 & _ & _ & _ & Hnodes & Hobjs & Ho2 & _).
  pose proof Hnodes as Hbuild.
  apply build_nodes_returns in Hnodes as (created & Ho3 & _ & Hlen & -> & Hrot).
  destruct (Hrot eq_refl i Hi) as (q & ob & Hq & Hob & Hquat).
  apply object_loop_returns in Hobjs as (new & Ho' & _).
  assert (Hw3 : data_objects w3 !! (length (data_objects w) + i)%nat = Some ob).
  { rewrite Ho3, Ho2, lookup_app_r by lia.
    by replace (length (data_objects w) + i - length (data_objects w))%nat with i by lia. }
  exists q, ob. split; [done|]. split; [|split; [done|]].
  - rewrite Ho'. rewrite lookup_app_l; [done|]. by eapply lookup_lt_Some.
  - exists (seq (length (data_objects w2)) (node_count shape EMPTY)), w2, w3.
    split; [done|]. split; [|done].
    rewrite Ho2. by apply lookup_seq.
Qed.

(** The root node of [tiny_shape], rotation (0, 0.5, 0, 1). *)
Lemma node_rotation_is_negated_w_witness :
  ∃ q ob,
    Py.index (default_rotations tiny_shape) (Z.of_nat 0) = Return q
    ∧ data_objects tiny_world !! (length (data_objects empty_world) + 0)%nat = Some ob
    ∧ ob_rotation_quaternion ob = ((- q_w q)%float, q_x q, q_y q, q_z q)
    ∧ ∃ node_obs w2 w3,
        build_nodes tiny_shape EMPTY w2 = (Return node_obs, w3)
        ∧ node_obs !! 0%nat = Some (length (data_objects empty_world) + 0)%nat
        ∧ data_objects w3 !! (length (data_objects empty_world) + 0)%nat = Some ob.
Proof.
  apply (node_rotation_is_negated_w torque_material torque_primitive bare_env
           tiny_shape shape_path false empty_world tiny_world).
  - vm_compute. reflexivity.
  - simpl. lia.
Defined.

(** The pairs that get an object are the Standard meshes of the
    objects' mesh ranges. *)
Lemma created_lookup (shape : DtsShape) (obj : Object) (m : Z) :
  obj ∈ objects shape →
  m ∈ Py.range 0 (numMeshes obj) →
  is_standard shape obj m = true →
  ∃ k, created shape !! k = Some (obj, m).
Proof.
  intros Hobj Hm Hstd. apply list_elem_of_lookup_1.
  apply list_elem_of_In, in_flat_map. exists obj.
  split; [by apply list_elem_of_In|].
  apply list_elem_of_In, list_elem_of_fmap. exists m. split; [done|].
  apply list_elem_of_In, filter_In. split; [by apply list_elem_of_In|done].
Qed.

(** C10. After an import that returns, the k-th mesh object created
    (for mesh index m of its object) is a member of the group named
    after the last detail level, in shape order, whose objectDetail is
    m; and when some Standard mesh of an object's range has no detail
    level with its index, the import raises instead of returning. *)
Theorem mesh_objects_are_grouped (MC : MaterialConsts) (PC : PrimitiveConsts)
    (env : Env) (shape : DtsShape) (filepath : path) (node_mode : NodeMode)
    (hide_default_player : bool) (w : World) :
  (∀ w' k obj m,
     load MC PC env shape filepath node_mode hide_default_player w = (Return tt, w') →
     created shape !! k = Some (obj, m) →
     let h := (length (data_objects w) + node_count shape node_mode + k)%nat in
     ∃ ob lod group members,
       data_objects w' !! h = Some ob
       ∧ is_Some (ob_data ob)
       ∧ Py.index (names shape) (obj_name obj) = Return (ob_name ob)
       ∧ last_detail shape m = Some lod
       ∧ Py.index (names shape) (lod_name lod) = Return group
       ∧ data_groups w' !! group = Some members
       ∧ h ∈ members)
  ∧ (∀ obj m,
       obj ∈ objects shape →
       m ∈ Py.range 0 (numMeshes obj) →
       is_standard shape obj m = true →
       last_detail shape m = None →
       ∃ e w',
         load MC PC env shape filepath node_mode hide_default_player w = (Raise e, w')).
Proof.
  assert (Hgrouped : ∀ w' k obj m,
    load MC PC env shape filepath node_mode hide_default_player w = (Return tt, w') →
    created shape !! k = Some (obj, m) →
    ∃ ob lod group members,
      data_objects w' !! (length (data_objects w) + node_count shape node_mode + k)%nat
      = Some ob
      ∧ is_Some (ob_data ob)
      ∧ Py.index (names shape) (obj_name obj) = Return (ob_name ob)
      ∧ last_detail shape m = Some lod
      ∧ Py.index (names shape) (lod_name lod) = Return group
      ∧ data_groups w' !! group = Some members
      ∧ (length (data_objects w) + node_count shape node_mode + k)%nat ∈ members).
  { intros w' k obj m Hload Hk.
    apply load_returns in Hload
      as (mats0 & mats & node_obs & w1 & w2 & w3 & _ & _ & _ & Hnodes & Hobjs & Ho2 & _).
    apply build_nodes_returns in Hnodes as (nodes_new & Ho3 & _ & Hlen & _ & _).
    apply object_loop_returns in Hobjs as (new & Ho' & Hnew & _ & Hpairs).
    destruct (Hpairs k obj m Hk)
      as (ob & Hob & Hdata & Hname & lod & group & members & Hlod & Hgroup & Hg & Hin).
    assert (Hbase : length (data_objects w3)
                    = (length (data_objects w) + node_count shape node_mode)%nat)
      by (rewrite Ho3, length_app, Ho2, Hlen; done).
    rewrite Hbase in Hin.
    exists ob, lod, group, members. repeat split; try done.
    - rewrite Ho', lookup_app_r by lia.
      by replace (length (data_objects w) + node_count shape node_mode + k
                  - length (data_objects w3))%nat with k by lia.
    - by rewrite <- lod_by_mesh_last. }
  split; [exact Hgrouped|].
  intros obj m Hobj Hm Hstd Hnone.
  destruct (created_lookup shape obj m Hobj Hm Hstd) as [k Hk].
  destruct (load MC PC env shape filepath node_mode hide_default_player w)
    as [[[]|e] w'] eqn:Hload.
  - destruct (Hgrouped w' k obj m eq_refl Hk) as (? & lod & ? & ? & _ & _ & _ & Hlod & _).
    congruence.
  - by exists e, w'.
Qed.

(** [tiny_shape], whose mesh 0 has the detail level "detail32", and the
    same shape without detail levels. *)
Lemma mesh_objects_are_grouped_witness :
  (∃ ob lod group members,
     data_objects tiny_world
       !! (length (data_objects empty_world) + node_count tiny_shape EMPTY + 0)%nat
     = Some ob
     ∧ is_Some (ob_data ob)
     ∧ Py.index (names tiny_shape) (obj_name body) = Return (ob_name ob)
     ∧ last_detail tiny_shape 0 = Some lod
     ∧ Py.index (names tiny_shape) (lod_name lod) = Return group
     ∧ data_groups tiny_world !! group = Some members
     ∧ (length (data_objects empty_world) + node_count tiny_shape EMPTY + 0)%nat
       ∈ members)
  ∧ ∃ e w',
      load torque_material torque_primitive bare_env undetailed_shape shape_path
        EMPTY false empty_world = (Raise e, w').
Proof.
  split.
  - destruct (mesh_objects_are_grouped torque_material torque_primitive bare_env
                tiny_shape shape_path EMPTY false empty_world) as [Hgrouped _].
    apply (Hgrouped tiny_world 0%nat body 0).
    + vm_compute. reflexivity.
    + reflexivity.
  - destruct (mesh_objects_are_grouped torque_material torque_primitive bare_env
                undetailed_shape shape_path EMPTY false empty_world) as [_ Hraises].
    apply (Hraises body 0).
    + apply elem_of_cons. by left.
    + apply elem_of_cons. by left.
    + reflexivity.
    + reflexivity.
Defined.

(** What the import of the shape without detail levels raises. *)
Example undetailed_import_raises :
  (load torque_material torque_primitive bare_env undetailed_shape shape_path
     EMPTY false empty_world).1 = Raise (KeyError (KInt 0)).
Proof. vm_compute. reflexivity. Qed.


(** ** IFL materials *)

Lemma position_lookup {A} (xs : list A) (i : Z) (k : nat) :
  Py.position xs i = Return k → is_Some (xs !! k).
Proof.
  unfold Py.position.
  destruct (_ || _) eqn:Hc; [done|]. intros [= <-].
  apply orb_false_iff in Hc as [H1 H2].
  apply lookup_lt_is_Some_2. lia.
Qed.

Section IFL.
Context (MC : MaterialConsts) (shape : DtsShape).

Lemma texture_or_color_props (env : Env) (dmat : Material) (filepath : path)
    (w w' : World) (bmat : BMat) :
  texture_or_color env dmat filepath w = (Return bmat, w') → props bmat = ∅.
Proof.
  unfold texture_or_color. destruct (find_texture _ _ _) as [texname|].
  - intros H. step H teximg w1. step H img w2.
    apply mret_returns in H as [-> _]. done.
  - destruct (default_materials !! _).
    + intros H. apply mret_returns in H as [-> _]. done.
    + intros H. step H r w1. step H g w2. step H b w3.
      apply mret_returns in H as [-> _]. done.
Qed.

Lemma blend_mode_ifl (flags : Z) (bmat : BMat) :
  props (blend_mode MC flags bmat) !! "ifl" = props bmat !! "ifl".
Proof.
  unfold blend_mode.
  repeat (destruct (truthy _); [by apply lookup_insert_ne|]). done.
Qed.

Lemma apply_flags_ifl (flags : Z) (bmat : BMat) :
  props bmat = ∅ →
  props (apply_flags MC flags bmat) !! "ifl"
  = if truthy (Z.land flags (IFLMaterial MC)) then Some (PBool true) else None.
Proof.
  intros Hempty. unfold apply_flags.
  destruct (truthy (Z.land flags (IFLMaterial MC))); cbn [when].
  - apply lookup_insert_eq.
  - unfold when.
    repeat match goal with
           | |- context [if negb ?c then _ else _] => destruct c; cbn [negb]
           end;
      cbn [set_prop props]; rewrite ?lookup_insert_ne by done;
      rewrite blend_mode_ifl;
      repeat match goal with
             | |- context [if ?c then _ else _] => destruct c
             end; cbn; by rewrite Hempty.
Qed.

(** The import loop from descriptor [s] on. *)
Lemma import_loop_returns (env : Env) (filepath : path) (ms : list Material) :
  ∀ (s : nat) (acc mats : gmap nat BMat) (w w' : World),
    for_eachM
      (λ mats '(k, dmat),
         bmat ← import_material MC env dmat filepath; mret (<[k := bmat]> mats))
      (zip (seq s (length ms)) ms) acc w = (Return mats, w') →
    ∀ k dmat, ms !! k = Some dmat →
      ∃ bmat, mats !! (s + k)%nat = Some bmat
              ∧ props bmat !! "ifl"
                = if truthy (Z.land (mat_flags dmat) (IFLMaterial MC))
                  then Some (PBool true) else None.
Proof.
  assert (Hframe : ∀ (ms : list Material) (s : nat) (acc mats : gmap nat BMat) w w',
    for_eachM
      (λ mats '(k, dmat),
         bmat ← import_material MC env dmat filepath; mret (<[k := bmat]> mats))
      (zip (seq s (length ms)) ms) acc w = (Return mats, w') →
    ∀ j, (j < s)%nat → mats !! j = acc !! j).
  { clear ms. induction ms as [|dmat ms IH]; intros s acc mats w w' H j Hj.
    - apply mret_returns in H as [-> _]. done.
    - cbn [length seq zip zip_with for_eachM] in H. step H acc1 w1.
      step Hstep bmat w0. apply mret_returns in Hstep as [-> _].
      rewrite (IH _ _ _ _ _ H j) by lia. apply lookup_insert_ne. lia. }
  induction ms as [|dmat ms IH]; intros s acc mats w w' H k d Hk; [done|].
  cbn [length seq zip zip_with for_eachM] in H. step H acc1 w1.
  step Hstep bmat w0. apply mret_returns in Hstep as [-> _].
  destruct k as [|k].
  - injection Hk as <-. exists bmat. rewrite Nat.add_0_r. split.
    + rewrite (Hframe _ _ _ _ _ _ H s) by lia. apply lookup_insert_eq.
    + unfold import_material in Hstep0. step Hstep0 bmat0 w2.
      apply mret_returns in Hstep0 as [-> _].
      apply apply_flags_ifl. by eapply texture_or_color_props.
  - destruct (IH _ _ _ _ _ H k d Hk) as (b & Hb & Hifl).
    exists b. by replace (s + S k)%nat with (S s + k)%nat by lia.
Qed.

Lemma import_materials_marked (env : Env) (filepath : path)
    (mats : gmap nat BMat) (w w' : World) :
  import_materials MC env shape filepath w = (Return mats, w') →
  ifl_marked MC shape mats.
Proof.
  unfold import_materials, enumerate. intros H k dmat Hk.
  by apply (import_loop_returns _ _ _ 0%nat _ _ _ _ H k dmat).
Qed.

(** An entry whose material has not the IFL flag stops the loop at
    [mat["ifl"]]. *)
Lemma ifl_step_unflagged (mats : gmap nat BMat) (ifl : IFLEntry) (k : nat)
    (dmat : Material) :
  ifl_marked MC shape mats →
  Py.position (materials shape) (ifl_slot ifl) = Return k →
  materials shape !! k = Some dmat →
  truthy (Z.land (mat_flags dmat) (IFLMaterial MC)) = false →
  ifl_step shape mats ifl = Raise (KeyError (KStr "ifl")).
Proof.
  intros Hmarked Hpos Hk Hflag.
  destruct (Hmarked k dmat Hk) as (bmat & Hb & Hifl). rewrite Hflag in Hifl.
  unfold ifl_step. rewrite Hpos. cbn. unfold dict_get. rewrite Hb. cbn.
  unfold get_prop. by rewrite Hifl.
Qed.

(** An entry that is assigned: its four values are written to the
    handle of its material, and the marks stay. *)
Lemma ifl_step_returns (mats mats' : gmap nat BMat) (ifl : IFLEntry) :
  ifl_marked MC shape mats →
  ifl_step shape mats ifl = Return mats' →
  ∃ k mat mat',
    Py.position (materials shape) (ifl_slot ifl) = Return k
    ∧ mats !! k = Some mat
    ∧ mats' = <[k := mat']> mats
    ∧ carries shape mat' ifl
    ∧ props mat' !! "ifl" = props mat !! "ifl"
    ∧ ifl_marked MC shape mats'.
Proof.
  intros Hmarked. unfold ifl_step.
  destruct (Py.position _ _) as [k|] eqn:Hpos; [|done]. cbn.
  unfold dict_get. destruct (mats !! k) as [mat|] eqn:Hk; [|done]. cbn.
  destruct (get_prop "ifl" mat) as [v|]; [|done]. cbn.
  destruct (Py.assert _); [|done]. cbn.
  destruct (Py.index (names shape) _) as [name|] eqn:Hname; [|done]. cbn.
  intros [= <-]. eexists k, mat, _. split; [done|]. split; [done|].
  split; [done|]. split; [|split].
  - exists name. cbn. rewrite Hname. repeat split; by simplify_map_eq.
  - cbn. by simplify_map_eq.
  - intros j dmat Hj. destruct (Hmarked j dmat Hj) as (bmat & Hb & Hifl).
    destruct (decide (k = j)) as [->|Hne].
    + rewrite lookup_insert_eq. eexists. split; [done|].
      cbn. simplify_map_eq. done.
    + rewrite lookup_insert_ne by done. by exists bmat.
Qed.

Lemma ifl_step_flagged (mats : gmap nat BMat) (ifl : IFLEntry) (k : nat)
    (dmat : Material) (name : string) :
  ifl_marked MC shape mats →
  Py.position (materials shape) (ifl_slot ifl) = Return k →
  materials shape !! k = Some dmat →
  truthy (Z.land (mat_flags dmat) (IFLMaterial MC)) = true →
  Py.index (names shape) (ifl_name ifl) = Return name →
  ∃ mats', ifl_step shape mats ifl = Return mats'.
Proof.
  intros Hmarked Hpos Hk Hflag Hname.
  destruct (Hmarked k dmat Hk) as (bmat & Hb & Hifl). rewrite Hflag in Hifl.
  unfold ifl_step. rewrite Hpos. cbn. unfold dict_get. rewrite Hb. cbn.
  unfold get_prop. rewrite Hifl. cbn. rewrite Hname. cbn. by eexists.
Qed.

(** The loop raises when one of its entries has an unflagged material. *)
Lemma ifl_loop_unflagged (entries : list IFLEntry) :
  ∀ mats : gmap nat BMat,
    ifl_marked MC shape mats →
    (∃ ifl k dmat,
       ifl ∈ entries
       ∧ Py.position (materials shape) (ifl_slot ifl) = Return k
       ∧ materials shape !! k = Some dmat
       ∧ truthy (Z.land (mat_flags dmat) (IFLMaterial MC)) = false) →
    raises (for_each (ifl_step shape) entries mats)
    ∧ ((∀ ifl, ifl ∈ entries →
          ∃ k name, Py.position (materials shape) (ifl_slot ifl) = Return k
                    ∧ Py.index (names shape) (ifl_name ifl) = Return name) →
       for_each (ifl_step shape) entries mats = Raise (KeyError (KStr "ifl"))).
Proof.
  induction entries as [|x entries IH]; intros mats Hmarked (ifl & k & dmat & Hin & Hbad).
  { by apply elem_of_nil in Hin. }
  cbn [for_each].
  destruct (ifl_step shape mats x) as [mats1|e] eqn:Hstep; cbn.
  - apply ifl_step_returns in Hstep as Hret; [|done].
    destruct Hret as (_ & _ & _ & _ & _ & _ & _ & _ & Hmarked1).
    apply elem_of_cons in Hin as [->|Hin].
    + destruct Hbad as (Hpos & Hk & Hflag).
      rewrite (ifl_step_unflagged _ _ _ _ Hmarked Hpos Hk Hflag) in Hstep. done.
    + destruct (IH mats1 Hmarked1) as [Hraises Hkey]; [by exists ifl, k, dmat|].
      split; [done|]. intros Hwf. apply Hkey. intros y Hy. apply Hwf.
      apply elem_of_cons. by right.
  - split; [by exists e|]. intros Hwf.
    destruct (Hwf x) as (kx & name & Hposx & Hname); [apply elem_of_cons; by left|].
    destruct (position_lookup _ _ _ Hposx) as [dx Hdx].
    destruct (truthy (Z.land (mat_flags dx) (IFLMaterial MC))) eqn:Hflag.
    + destruct (ifl_step_flagged _ _ _ _ _ Hmarked Hposx Hdx Hflag Hname) as [m Hm].
      congruence.
    + rewrite (ifl_step_unflagged _ _ _ _ Hmarked Hposx Hdx Hflag) in Hstep.
      by injection Hstep as <-.
Qed.

(** The loop returns when every entry is well formed and flagged. *)
Lemma ifl_loop_flagged (entries : list IFLEntry) :
  ∀ mats : gmap nat BMat,
    ifl_marked MC shape mats →
    (∀ ifl, ifl ∈ entries →
       ∃ k dmat name,
         Py.position (materials shape) (ifl_slot ifl) = Return k
         ∧ materials shape !! k = Some dmat
         ∧ truthy (Z.land (mat_flags dmat) (IFLMaterial MC)) = true
         ∧ Py.index (names shape) (ifl_name ifl) = Return name) →
    ∃ mats', for_each (ifl_step shape) entries mats = Return mats'.
Proof.
  induction entries as [|x entries IH]; intros mats Hmarked Hall; [by eexists|].
  cbn [for_each].
  destruct (Hall x) as (k & dmat & name & Hpos & Hk & Hflag & Hname);
    [apply elem_of_cons; by left|].
  destruct (ifl_step_flagged _ _ _ _ _ Hmarked Hpos Hk Hflag Hname) as [mats1 Hstep].
  rewrite Hstep. cbn.
  apply ifl_step_returns in Hstep as (_ & _ & _ & _ & _ & _ & _ & _ & Hmarked1);
    [|done].
  apply IH; [done|]. intros y Hy. apply Hall. apply elem_of_cons. by right.
Qed.

(** After the loop, the handle of a material has the values of the
    last entry that names it. *)
Lemma ifl_loop_returns (entries : list IFLEntry) :
  ∀ mats mats' : gmap nat BMat,
    ifl_marked MC shape mats →
    for_each (ifl_step shape) entries mats = Return mats' →
    (∀ k, (∀ ifl, ifl ∈ entries →
             Py.position (materials shape) (ifl_slot ifl) ≠ Return k) →
          mats' !! k = mats !! k)
    ∧ ∀ j ifl k,
        entries !! j = Some ifl →
        Py.position (materials shape) (ifl_slot ifl) = Return k →
        (∀ j' ifl', (j < j')%nat → entries !! j' = Some ifl' →
                    Py.position (materials shape) (ifl_slot ifl') ≠ Return k) →
        ∃ mat, mats' !! k = Some mat
               ∧ carries shape mat ifl
               ∧ props mat !! "ifl" = Some (PBool true).
Proof.
  induction entries as [|x entries IH]; intros mats mats' Hmarked H.
  { injection H as <-. split; [done|]. intros j ifl k Hj. done. }
  cbn [for_each] in H.
  destruct (ifl_step shape mats x) as [mats1|] eqn:Hstep; [|done]. cbn in H.
  pose proof Hstep as Hstep'.
  apply ifl_step_returns in Hstep
    as (kx & mat & mat' & Hposx & Hmat & -> & Hcarries & Hifl & Hmarked1); [|done].
  destruct (IH _ _ Hmarked1 H) as [Hframe Hlast]. split.
  - intros k Hk. rewrite Hframe.
    + apply lookup_insert_ne. intros ->. apply (Hk x); [|done].
      apply elem_of_cons. by left.
    + intros y Hy. apply Hk. apply elem_of_cons. by right.
  - intros [|j] ifl k Hj Hpos Hlater.
    + injection Hj as <-. rewrite Hposx in Hpos. injection Hpos as <-.
      exists mat'. rewrite Hframe.
      * rewrite lookup_insert_eq. split; [done|]. split; [done|].
        rewrite Hifl. destruct (position_lookup _ _ _ Hposx) as [dmat Hd].
        destruct (Hmarked kx dmat Hd) as (b & Hb & Hbifl).
        rewrite Hmat in Hb. injection Hb as <-. rewrite Hbifl.
        destruct (truthy _) eqn:Hflag; [done|].
        rewrite (ifl_step_unflagged _ _ _ _ Hmarked Hposx Hd Hflag) in Hstep'. done.
      * intros y Hy. apply list_elem_of_lookup_1 in Hy as [j' Hj'].
        apply (Hlater (S j') y); [lia|done].
    + apply (Hlast j ifl k Hj Hpos). intros j' ifl' Hlt Hj'.
      apply (Hlater (S j') ifl'); [lia|done].
Qed.

End IFL.

Lemma load_raises_at_ifl (MC : MaterialConsts) (PC : PrimitiveConsts) (env : Env)
    (shape : DtsShape) (filepath : path) (node_mode : NodeMode)
    (hide_default_player : bool) (w w1 : World) (mats : gmap nat BMat) (e : exn) :
  import_materials MC env shape filepath w = (Return mats, w1) →
  assign_ifl shape mats = Raise e →
  load MC PC env shape filepath node_mode hide_default_player w = (Raise e, w1).
Proof.
  intros Himport Hifl. unfold load, mbind, M_bind.
  rewrite Himport. unfold lift. by rewrite Hifl.
Qed.

(** C8. Once the materials are resolved: if an IFL entry names a
    material without the IFL flag, the import raises and does not go
    on, and what it raises is the missing "ifl" property read by the
    [assert] when the slot and name indices of the entries are in range;
    if every entry names a flagged material, the loop returns and the
    handle of each material has the name, firstFrame, numFrames and
    time of the last entry that names it. *)
Theorem ifl_integrity (MC : MaterialConsts) (PC : PrimitiveConsts) (env : Env)
    (shape : DtsShape) (filepath : path) (node_mode : NodeMode)
    (hide_default_player : bool) (w w1 : World) (mats : gmap nat BMat) :
  import_materials MC env shape filepath w = (Return mats, w1) →
  ((∃ ifl k dmat,
      ifl ∈ iflmaterials shape
      ∧ Py.position (materials shape) (ifl_slot ifl) = Return k
      ∧ materials shape !! k = Some dmat
      ∧ truthy (Z.land (mat_flags dmat) (IFLMaterial MC)) = false) →
   (∃ e w', load MC PC env shape filepath node_mode hide_default_player w
            = (Raise e, w'))
   ∧ ((∀ ifl, ifl ∈ iflmaterials shape →
         ∃ k name, Py.position (materials shape) (ifl_slot ifl) = Return k
                   ∧ Py.index (names shape) (ifl_name ifl) = Return name) →
      load MC PC env shape filepath node_mode hide_default_player w
      = (Raise (KeyError (KStr "ifl")), w1)))
  ∧ ((∀ ifl, ifl ∈ iflmaterials shape →
        ∃ k dmat name,
          Py.position (materials shape) (ifl_slot ifl) = Return k
          ∧ materials shape !! k = Some dmat
          ∧ truthy (Z.land (mat_flags dmat) (IFLMaterial MC)) = true
          ∧ Py.index (names shape) (ifl_name ifl) = Return name) →
     ∃ mats',
       assign_ifl shape mats = Return mats'
       ∧ ∀ j ifl k,
           iflmaterials shape !! j = Some ifl →
           Py.position (materials shape) (ifl_slot ifl) = Return k →
           (∀ j' ifl', (j < j')%nat → iflmaterials shape !! j' = Some ifl' →
                       Py.position (materials shape) (ifl_slot ifl') ≠ Return k) →
           ∃ mat, mats' !! k = Some mat
                  ∧ carries shape mat ifl
                  ∧ props mat !! "ifl" = Some (PBool true)).
Proof.
  intros Himport.
  pose proof (import_materials_marked _ _ _ _ _ _ _ Himport) as Hmarked.
  split.
  - intros Hbad.
    destruct (ifl_loop_unflagged MC shape (iflmaterials shape) mats Hmarked Hbad)
      as [[e He] Hkey].
    split.
    + exists e, w1. by eapply load_raises_at_ifl.
    + intros Hwf. eapply load_raises_at_ifl; [done|]. by apply Hkey.
  - intros Hall.
    destruct (ifl_loop_flagged MC shape (iflmaterials shape) mats Hmarked Hall)
      as [mats' Hret].
    exists mats'. split; [done|].
    by apply (ifl_loop_returns MC shape (iflmaterials shape) mats mats' Hmarked Hret).
Qed.

(** The IFL entry for slot 0 of [unflagged_shape] and of
    [flagged_shape]. *)
Lemma ifl_integrity_witness :
  ((∃ e w',
      load torque_material torque_primitive bare_env unflagged_shape shape_path
        EMPTY false empty_world = (Raise e, w'))
   ∧ load torque_material torque_primitive bare_env unflagged_shape shape_path
       EMPTY false empty_world = (Raise (KeyError (KStr "ifl")), empty_world))
  ∧ ∃ mats',
      assign_ifl flagged_shape (imported flagged_shape) = Return mats'
      ∧ ∀ j ifl k,
          iflmaterials flagged_shape !! j = Some ifl →
          Py.position (materials flagged_shape) (ifl_slot ifl) = Return k →
          (∀ j' ifl', (j < j')%nat → iflmaterials flagged_shape !! j' = Some ifl' →
                      Py.position (materials flagged_shape) (ifl_slot ifl') ≠ Return k) →
          ∃ mat, mats' !! k = Some mat
                 ∧ carries flagged_shape mat ifl
                 ∧ props mat !! "ifl" = Some (PBool true).
Proof.
  split.
  - destruct (ifl_integrity torque_material torque_primitive bare_env unflagged_shape
                shape_path EMPTY false empty_world empty_world
                (imported unflagged_shape)) as [Hbad _]; [reflexivity|].
    destruct Hbad as [Hraises Hkey].
    + exists idle_frames, 0%nat, red. split; [apply elem_of_cons; by left|].
      repeat split; reflexivity.
    + split; [exact Hraises|]. apply Hkey. intros ifl Hin.
      apply list_elem_of_singleton in Hin as ->.
      exists 0%nat, "idle". split; reflexivity.
  - destruct (ifl_integrity torque_material torque_primitive bare_env flagged_shape
                shape_path EMPTY false empty_world empty_world
                (imported flagged_shape)) as [_ Hgood]; [reflexivity|].
    apply Hgood. intros ifl Hin.
    apply list_elem_of_singleton in Hin as ->.
    exists 0%nat, red_ifl, "idle". repeat split; reflexivity.
Defined.


(** * Further properties of the importer *)

(** ** The texture search of [import_material] *)






(** ** What [import_material] returns *)

Section Handles.
Context (MC : MaterialConsts) (env : Env).

Lemma blend_mode_fields (flags : Z) (bmat : BMat) :
  bmat_name (blend_mode MC flags bmat) = bmat_name bmat
  ∧ texture_slots (blend_mode MC flags bmat) = texture_slots bmat
  ∧ diffuse_color (blend_mode MC flags bmat) = diffuse_color bmat
  ∧ use_shadeless (blend_mode MC flags bmat) = use_shadeless bmat
  ∧ use_transparency (blend_mode MC flags bmat) = use_transparency bmat.
Proof. unfold blend_mode. by repeat destruct (truthy _). Qed.


Lemma texture_or_color_fresh (dmat : Material) (filepath : path) (w w' : World)
    (bmat : BMat) :
  texture_or_color env dmat filepath w = (Return bmat, w') →
  props bmat = ∅ ∧ use_shadeless bmat = false ∧ use_transparency bmat = false
  ∧ bmat_name bmat = mat_name dmat.
Proof.
  unfold texture_or_color. destruct (find_texture _ _ _) as [texname|].
  - intros H. step H teximg w1. step H img w2.
    apply mret_returns in H as [-> _]. done.
  - destruct (default_materials !! _).
    + intros H. apply mret_returns in H as [-> _]. done.
    + intros H. step H r w1. step H g w2. step H b w3.
      apply mret_returns in H as [-> _]. done.
Qed.

(** X5. [import_material] raises in one case only: a texture file was
    found and loading it failed. *)
Theorem import_material_returns_unless_load_fails (dmat : Material) (filepath : path)
    (w : World) :
  (∃ bmat w', import_material MC env dmat filepath w = (Return bmat, w'))
  ↔ (∀ texname,
       find_texture env (mat_name dmat) (Os.dirname filepath) = Some texname →
       is_Some (images_load env texname)).
Proof.
  unfold import_material, texture_or_color, try_load.
  destruct (find_texture _ _ _) as [texname|]; split.
  - intros (bmat & w' & H) t [= <-].
    destruct (images_load env texname) as [img|]; [by eexists|].
    by cbv [mbind M_bind mret M_ret lift read_local print draw] in H.
  - intros Hload. destruct (Hload texname eq_refl) as [img Himg].
    rewrite Himg. by eexists _, _.
  - done.
  - intros _. destruct (default_materials !! _); by eexists _, _.
Qed.

End Handles.

(** The material "red" on a host without files. *)
Lemma import_material_returns_unless_load_fails_witness :
  ∃ bmat w',
    import_material torque_material bare_env red shape_path empty_world
    = (Return bmat, w').
Proof.
  apply (proj2 (import_material_returns_unless_load_fails torque_material bare_env red
                  shape_path empty_world)).
  intros texname H. vm_compute in H. discriminate H.
Defined.

Section Settings.
Context (MC : MaterialConsts) (env : Env).

Lemma blend_mode_props (flags : Z) (bmat : BMat) (key : string) :
  key ≠ "blendMode" →
  props (blend_mode MC flags bmat) !! key = props bmat !! key.
Proof.
  intros Hne. unfold blend_mode.
  repeat (destruct (truthy _); [by apply lookup_insert_ne|]). done.
Qed.

(** What the chain of tests on the blend flags assigns: "both" when the
    Additive or the Subtractive bit is set, else "none" when the
    Translucent bit is set, else nothing. *)
Lemma blend_mode_assigns (flags : Z) (bmat : BMat) :
  props bmat !! "blendMode" = None →
  props (blend_mode MC flags bmat) !! "blendMode"
  = if truthy (Z.land flags (Z.lor (Additive MC) (Subtractive MC)))
    then Some (PStr "both")
    else if truthy (Z.land flags (Translucent MC)) then Some (PStr "none")
    else None.
Proof.
  intros Hnone. unfold blend_mode.
  destruct (truthy (Z.land flags (Z.lor _ _))) eqn:Hboth; [apply lookup_insert_eq|].
  assert (Hzero : Z.land flags (Additive MC) = 0 ∧ Z.land flags (Subtractive MC) = 0).
  { unfold truthy in Hboth. apply negb_false_iff, Z.eqb_eq in Hboth.
    rewrite Z.land_lor_distr_r in Hboth. by apply Z.lor_eq_0_iff in Hboth. }
  destruct Hzero as [-> ->]. cbn [truthy Z.eqb negb].
  destruct (truthy (Z.land flags (Translucent MC))); [apply lookup_insert_eq|done].
Qed.

(** X6. The settings of a returned handle are read off the flags, each
    from its own bit: shadeless and transparency from SelfIlluminating
    and Translucent; "noSWrap", "noTWrap", "envMap" and "mipMap" are
    [True] when SWrap, TWrap, NeverEnvMap and NoMipMap are clear and
    absent otherwise; "ifl" is [True] when IFLMaterial is set; and
    "blendMode" is "both" when Additive or Subtractive is set, else
    "none" when Translucent is set, else absent. *)
Theorem settings_follow_flags (dmat : Material) (filepath : path) (w w' : World)
    (bmat : BMat) :
  import_material MC env dmat filepath w = (Return bmat, w') →
  let flag bit := truthy (Z.land (mat_flags dmat) bit) in
  let mark (set : bool) := if set then Some (PBool true) else None in
  use_shadeless bmat = flag (SelfIlluminating MC)
  ∧ use_transparency bmat = flag (Translucent MC)
  ∧ props bmat !! "noSWrap" = mark (negb (flag (SWrap MC)))
  ∧ props bmat !! "noTWrap" = mark (negb (flag (TWrap MC)))
  ∧ props bmat !! "envMap" = mark (negb (flag (NeverEnvMap MC)))
  ∧ props bmat !! "mipMap" = mark (negb (flag (NoMipMap MC)))
  ∧ props bmat !! "ifl" = mark (flag (IFLMaterial MC))
  ∧ props bmat !! "blendMode"
    = (if flag (Z.lor (Additive MC) (Subtractive MC)) then Some (PStr "both")
       else if flag (Translucent MC) then Some (PStr "none") else None).
Proof.
  intros H. unfold import_material in H. step H bmat0 w1.
  apply mret_returns in H as [-> _].
  apply texture_or_color_fresh in Hstep as (Hprops & Hshade & Htransp & _).
  cbv zeta. unfold apply_flags.
  set (b1 := when _ (set_use_shadeless true) bmat0).
  set (b2 := when _ (set_use_transparency true) b1).
  assert (Hb2 : props b2 = ∅ ∧ use_shadeless b2
                  = truthy (Z.land (mat_flags dmat) (SelfIlluminating MC))
                ∧ use_transparency b2
                  = truthy (Z.land (mat_flags dmat) (Translucent MC))).
  { unfold b2, b1, when. by repeat destruct (truthy _). }
  destruct Hb2 as (Hp2 & Hs2 & Ht2).
  destruct (blend_mode_fields MC (mat_flags dmat) b2) as (_ & _ & _ & Hs3 & Ht3).
  assert (Hblend := blend_mode_assigns (mat_flags dmat) b2 ltac:(by rewrite Hp2)).
  assert (Hother : ∀ key, key ≠ "blendMode" →
            props (blend_mode MC (mat_flags dmat) b2) !! key = None).
  { intros key Hne. rewrite blend_mode_props by done. by rewrite Hp2. }
  set (b3 := blend_mode MC (mat_flags dmat) b2) in *.
  unfold when.
  destruct (truthy (Z.land (mat_flags dmat) (SWrap MC)));
    destruct (truthy (Z.land (mat_flags dmat) (TWrap MC)));
    destruct (truthy (Z.land (mat_flags dmat) (NeverEnvMap MC)));
    destruct (truthy (Z.land (mat_flags dmat) (NoMipMap MC)));
    destruct (truthy (Z.land (mat_flags dmat) (IFLMaterial MC)));
    cbn [negb set_prop props use_shadeless use_transparency];
    repeat split; rewrite ?Hs3, ?Ht3; try done;
    repeat first [rewrite lookup_insert_eq | rewrite lookup_insert_ne by done];
    rewrite ?Hother by done; try done; exact Hblend.
Qed.

End Settings.

(** The handle of the additive "red". *)
Lemma settings_follow_flags_witness :
  let flag bit := truthy (Z.land (mat_flags red_additive) bit) in
  let mark (set : bool) := if set then Some (PBool true) else None in
  use_shadeless red_additive_handle = flag (SelfIlluminating torque_material)
  ∧ use_transparency red_additive_handle = flag (Translucent torque_material)
  ∧ props red_additive_handle !! "noSWrap" = mark (negb (flag (SWrap torque_material)))
  ∧ props red_additive_handle !! "noTWrap" = mark (negb (flag (TWrap torque_material)))
  ∧ props red_additive_handle !! "envMap"
    = mark (negb (flag (NeverEnvMap torque_material)))
  ∧ props red_additive_handle !! "mipMap" = mark (negb (flag (NoMipMap torque_material)))
  ∧ props red_additive_handle !! "ifl" = mark (flag (IFLMaterial torque_material))
  ∧ props red_additive_handle !! "blendMode"
    = (if flag (Z.lor (Additive torque_material) (Subtractive torque_material))
       then Some (PStr "both")
       else if flag (Translucent torque_material) then Some (PStr "none") else None).
Proof.
  apply (settings_follow_flags torque_material bare_env red_additive shape_path
           empty_world empty_world red_additive_handle).
  reflexivity.
Defined.

(** ** Texture or colour *)



(** ** How the decoder composes and fails *)

Lemma index_raises_index_error {A} (xs : list A) (i : Z) (e : exn) :
  Py.index xs i = Raise e → e = IndexError.
Proof.
  unfold Py.index. destruct (_ || _); [by intros [= <-]|].
  destruct (xs !! _); [done|]. by intros [= <-].
Qed.

Lemma index_returns_in_range {A} (xs : list A) (i : Z) (x : A) :
  0 ≤ i → Py.index xs i = Return x → i < Z.of_nat (length xs).
Proof.
  intros Hi. unfold Py.index.
  destruct (Z.ltb_spec i 0); [lia|].
  destruct (Z.ltb_spec i 0); [lia|].
  destruct (Z.leb_spec (Z.of_nat (length xs)) i); [done|]. lia.
Qed.

Lemma triple_raises_index_error (indices : list Z) (a b c : Z) (e : exn) :
  triple indices a b c = Raise e → e = IndexError.
Proof.
  unfold triple. intros H.
  apply bind_raise_inv in H as [H|(x & _ & H)]; [by apply index_raises_index_error in H|].
  apply bind_raise_inv in H as [H|(y & _ & H)]; [by apply index_raises_index_error in H|].
  apply bind_raise_inv in H as [H|(z & _ & H)]; [by apply index_raises_index_error in H|].
  done.
Qed.

Lemma behind_behind (faces more : list Face) (r : result (list Face)) :
  behind faces (behind more r) = behind (faces ++ more) r.
Proof. destruct r as [out|e]; [|done]. cbn. by rewrite app_assoc. Qed.

Lemma strip_loop_behind (indices : list Z) (dmat : option nat) (ids : list Z) :
  ∀ (even : bool) (faces : list Face),
    strip_loop indices dmat ids even faces
    = behind faces (strip_loop indices dmat ids even []).
Proof.
  induction ids as [|i ids IH]; intros even faces.
  - cbn. by rewrite app_nil_r.
  - cbn [strip_loop].
    destruct (if even then _ else _) as [t|e]; [|done]. cbn [mbind result_bind].
    rewrite (IH _ (faces ++ _)), (IH _ ([] ++ _)), behind_behind. done.
Qed.

Lemma fan_loop_behind (indices : list Z) (dmat : option nat) (ids : list Z) :
  ∀ (even : bool) (faces : list Face),
    fan_loop indices dmat ids even faces
    = behind faces (fan_loop indices dmat ids even []).
Proof.
  induction ids as [|i ids IH]; intros even faces.
  - cbn. by rewrite app_nil_r.
  - cbn [fan_loop].
    destruct (if even then _ else _) as [t|e]; [|done]. cbn [mbind result_bind].
    rewrite (IH _ (faces ++ _)), (IH _ ([] ++ _)), behind_behind. done.
Qed.

Lemma list_loop_behind (indices : list Z) (dmat : option nat) (ids : list Z) :
  ∀ faces : list Face,
    list_loop indices dmat ids faces = behind faces (list_loop indices dmat ids []).
Proof.
  induction ids as [|i ids IH]; intros faces.
  - cbn. by rewrite app_nil_r.
  - cbn [list_loop].
    destruct (triple _ _ _ _) as [t|e]; [|done]. cbn [mbind result_bind].
    rewrite (IH (faces ++ _)), (IH ([] ++ _)), behind_behind. done.
Qed.

Lemma decode_behind (PC : PrimitiveConsts) (indices : list Z) (prim : Primitive)
    (dmat : option nat) (faces : list Face) :
  decode PC indices prim dmat faces = behind faces (decode PC indices prim dmat []).
Proof.
  unfold decode. destruct (truthy _); [apply strip_loop_behind|].
  destruct (truthy _); [apply fan_loop_behind|apply list_loop_behind].
Qed.

Lemma strip_loop_tags (indices : list Z) (dmat : option nat) (ids : list Z) :
  ∀ (even : bool) (faces out : list Face),
    Forall (λ f, f.2 = dmat) faces →
    strip_loop indices dmat ids even faces = Return out →
    Forall (λ f, f.2 = dmat) out.
Proof.
  induction ids as [|i ids IH]; intros even faces out Hfaces.
  - by intros [= <-].
  - cbn [strip_loop]. destruct (if even then _ else _) as [t|e]; [|done].
    cbn [mbind result_bind]. apply IH.
    apply Forall_app. split; [done|]. by apply Forall_singleton.
Qed.

Lemma fan_loop_tags (indices : list Z) (dmat : option nat) (ids : list Z) :
  ∀ (even : bool) (faces out : list Face),
    Forall (λ f, f.2 = dmat) faces →
    fan_loop indices dmat ids even faces = Return out →
    Forall (λ f, f.2 = dmat) out.
Proof.
  induction ids as [|i ids IH]; intros even faces out Hfaces.
  - by intros [= <-].
  - cbn [fan_loop]. destruct (if even then _ else _) as [t|e]; [|done].
    cbn [mbind result_bind]. apply IH.
    apply Forall_app. split; [done|]. by apply Forall_singleton.
Qed.

Lemma list_loop_tags (indices : list Z) (dmat : option nat) (ids : list Z) :
  ∀ faces out : list Face,
    Forall (λ f, f.2 = dmat) faces →
    list_loop indices dmat ids faces = Return out →
    Forall (λ f, f.2 = dmat) out.
Proof.
  induction ids as [|i ids IH]; intros faces out Hfaces.
  - by intros [= <-].
  - cbn [list_loop]. destruct (triple _ _ _ _) as [t|e]; [|done].
    cbn [mbind result_bind]. apply IH.
    apply Forall_app. split; [done|]. by apply Forall_singleton.
Qed.

Lemma decode_raises_index_error (PC : PrimitiveConsts) (indices : list Z)
    (prim : Primitive) (dmat : option nat) (faces : list Face) (e : exn) :
  decode PC indices prim dmat faces = Raise e → e = IndexError.
Proof.
  assert (Hstrip : ∀ ids even fs, strip_loop indices dmat ids even fs = Raise e →
                                   e = IndexError).
  { induction ids as [|i ids IH]; intros even fs; [done|]. cbn [strip_loop].
    intros H. apply bind_raise_inv in H as [H|(t & _ & H)]; [|by eapply IH].
    destruct even; by apply triple_raises_index_error in H. }
  assert (Hfan : ∀ ids even fs, fan_loop indices dmat ids even fs = Raise e →
                                 e = IndexError).
  { induction ids as [|i ids IH]; intros even fs; [done|]. cbn [fan_loop].
    intros H. apply bind_raise_inv in H as [H|(t & _ & H)]; [|by eapply IH].
    destruct even; by apply triple_raises_index_error in H. }
  assert (Hlist : ∀ ids fs, list_loop indices dmat ids fs = Raise e → e = IndexError).
  { induction ids as [|i ids IH]; intros fs; [done|]. cbn [list_loop].
    intros H. apply bind_raise_inv in H as [H|(t & _ & H)]; [|by eapply IH].
    by apply triple_raises_index_error in H. }
  unfold decode. destruct (truthy _); [apply Hstrip|].
  destruct (truthy _); [apply Hfan|apply Hlist].
Qed.

(** X8. Decoding a primitive leaves the faces decoded so far in place and
    puts its own behind them, each tagged with the primitive's material,
    and they are the faces it decodes on its own; when it raises, it
    raises [IndexError], and it does so on its own too. *)
Theorem decode_appends (PC : PrimitiveConsts) (indices : list Z) (prim : Primitive)
    (dmat : option nat) (faces : list Face) :
  (∀ fs, decode PC indices prim dmat faces = Return fs →
     ∃ out, fs = faces ++ out
            ∧ decode PC indices prim dmat [] = Return out
            ∧ Forall (λ f, f.2 = dmat) out)
  ∧ (∀ e, decode PC indices prim dmat faces = Raise e →
       e = IndexError ∧ decode PC indices prim dmat [] = Raise IndexError).
Proof.
  split.
  - intros fs H. rewrite decode_behind in H.
    destruct (decode PC indices prim dmat []) as [out|e] eqn:Hout; [|done].
    injection H as <-. exists out. split; [done|]. split; [done|].
    revert Hout. unfold decode.
    destruct (truthy _); [by apply strip_loop_tags|].
    destruct (truthy _); [by apply fan_loop_tags|by apply list_loop_tags].
  - intros e H. pose proof (decode_raises_index_error _ _ _ _ _ _ H) as ->.
    split; [done|]. rewrite decode_behind in H.
    by destruct (decode PC indices prim dmat []) as [out|e].
Qed.

(** The strip of [0, 1, 2, 3, 4] behind one face. *)
Lemma decode_appends_witness :
  ∃ out,
    [((9, 9, 9), Some 1%nat); ((2, 1, 0), None); ((1, 2, 3), None); ((4, 3, 2), None)]
    = [((9, 9, 9), Some 1%nat)] ++ out
    ∧ decode torque_primitive [0; 1; 2; 3; 4] strip5 None [] = Return out
    ∧ Forall (λ f, f.2 = None) out.
Proof.
  destruct (decode_appends torque_primitive [0; 1; 2; 3; 4] strip5 None
              [((9, 9, 9), Some 1%nat)]) as [Hreturns _].
  apply Hreturns. reflexivity.
Defined.

Lemma triple_reads (indices : list Z) (a b c : Z) (t : Z * Z * Z) :
  triple indices a b c = Return t →
  (∃ x, Py.index indices a = Return x) ∧ (∃ z, Py.index indices c = Return z).
Proof.
  unfold triple.
  destruct (Py.index indices a) as [x|]; [|done]. cbn.
  destruct (Py.index indices b) as [y|]; [|done]. cbn.
  destruct (Py.index indices c) as [z|]; [|done]. cbn.
  intros _. by eauto.
Qed.

Lemma strip_loop_reads (indices : list Z) (dmat : option nat) (ids : list Z) :
  ∀ (even : bool) (faces out : list Face),
    strip_loop indices dmat ids even faces = Return out →
    ∀ i, i ∈ ids → ∃ x, Py.index indices i = Return x.
Proof.
  induction ids as [|j ids IH]; intros even faces out H i Hi.
  - by apply elem_of_nil in Hi.
  - cbn [strip_loop] in H.
    destruct (if even then _ else _) as [t|e] eqn:Ht; [|done]. cbn in H.
    apply elem_of_cons in Hi as [->|Hi]; [|by eapply IH].
    destruct even; apply triple_reads in Ht; tauto.
Qed.

Lemma fan_loop_reads (indices : list Z) (dmat : option nat) (ids : list Z) :
  ∀ (even : bool) (faces out : list Face),
    fan_loop indices dmat ids even faces = Return out →
    ∀ i, i ∈ ids → ∃ x, Py.index indices i = Return x.
Proof.
  induction ids as [|j ids IH]; intros even faces out H i Hi.
  - by apply elem_of_nil in Hi.
  - cbn [fan_loop] in H.
    destruct (if even then _ else _) as [t|e] eqn:Ht; [|done]. cbn in H.
    apply elem_of_cons in Hi as [->|Hi]; [|by eapply IH].
    destruct even; apply triple_reads in Ht; tauto.
Qed.

Lemma list_loop_reads (indices : list Z) (dmat : option nat) (ids : list Z) :
  ∀ faces out : list Face,
    list_loop indices dmat ids faces = Return out →
    ∀ i, i ∈ ids → ∃ x, Py.index indices i = Return x.
Proof.
  induction ids as [|j ids IH]; intros faces out H i Hi.
  - by apply elem_of_nil in Hi.
  - cbn [list_loop] in H.
    destruct (triple _ _ _ _) as [t|e] eqn:Ht; [|done]. cbn in H.
    apply elem_of_cons in Hi as [->|Hi]; [|by eapply IH].
    apply triple_reads in Ht. tauto.
Qed.

(** X9. A primitive of at least three elements that starts in the buffer
    and whose elements do not all lie in it raises [IndexError]: a
    strip or a fan when its range ends beyond the buffer, a list when
    its last whole group of three does. *)
Theorem decode_out_of_range (PC : PrimitiveConsts) (indices : list Z) (prim : Primitive)
    (dmat : option nat) (faces : list Face) :
  0 ≤ firstElement prim →
  3 ≤ numElements prim →
  Z.of_nat (length indices)
  < firstElement prim
    + (if truthy (Z.land (prim_type prim) (Strip PC))
          || truthy (Z.land (prim_type prim) (Fan PC))
       then numElements prim else 3 * (numElements prim / 3)) →
  decode PC indices prim dmat faces = Raise IndexError.
Proof.
  intros Hfirst HN Hlen.
  destruct (decode PC indices prim dmat faces) as [out|e] eqn:Hdec;
    [|by apply decode_raises_index_error in Hdec as ->].
  exfalso. unfold decode in Hdec.
  assert (Hlast : firstElement prim + numElements prim - 1
                  ∈ Py.range (firstElement prim + 2)
                      (firstElement prim + numElements prim)).
  { rewrite range_unfold. apply list_elem_of_fmap.
    exists (Z.to_nat (numElements prim - 3)). split; [lia|].
    apply elem_of_seq. lia. }
  destruct (truthy (Z.land (prim_type prim) (Strip PC))); cbn [orb] in Hlen.
  { destruct (strip_loop_reads _ _ _ _ _ _ Hdec _ Hlast) as [x Hx].
    apply index_returns_in_range in Hx; lia. }
  destruct (truthy (Z.land (prim_type prim) (Fan PC))).
  { destruct (fan_loop_reads _ _ _ _ _ _ Hdec _ Hlast) as [x Hx].
    apply index_returns_in_range in Hx; lia. }
  pose proof (Z.div_le_lower_bound (numElements prim) 3 1 ltac:(lia) ltac:(lia)) as Hq.
  assert (Hgroup : firstElement prim + 2 + 3 * (numElements prim / 3 - 1)
                   ∈ Py.range_step (firstElement prim + 2)
                       (firstElement prim + numElements prim) 3).
  { unfold Py.range_step. apply list_elem_of_fmap.
    exists (Z.to_nat (numElements prim / 3 - 1)). split; [lia|].
    apply elem_of_seq.
    replace (firstElement prim + numElements prim - (firstElement prim + 2) + 3 - 1)
      with (numElements prim) by lia.
    lia. }
  destruct (list_loop_reads _ _ _ _ _ Hdec _ Hgroup) as [x Hx].
  apply index_returns_in_range in Hx; lia.
Qed.

(** The strip of five elements over a buffer of four. *)
Lemma decode_out_of_range_witness :
  decode torque_primitive [0; 1; 2; 3] strip5 None [] = Raise IndexError.
Proof.
  apply (decode_out_of_range torque_primitive [0; 1; 2; 3] strip5 None []).
  - simpl. lia.
  - simpl. lia.
  - vm_compute. reflexivity.
Defined.

(** ** The material slots of a mesh *)

Lemma decode_returns_behind (PC : PrimitiveConsts) (indices : list Z) (prim : Primitive)
    (dmat : option nat) (faces fs : list Face) :
  decode PC indices prim dmat faces = Return fs →
  ∃ out, fs = faces ++ out ∧ Forall (λ f, f.2 = dmat) out.
Proof.
  intros H. rewrite decode_behind in H.
  destruct (decode PC indices prim dmat []) as [out|e] eqn:Hout; [|done].
  injection H as <-. exists out. split; [done|].
  revert Hout. unfold decode.
  destruct (truthy _); [by apply strip_loop_tags|].
  destruct (truthy _); [by apply fan_loop_tags|by apply list_loop_tags].
Qed.

Section Slots.
Context (PC : PrimitiveConsts) (shape : DtsShape) (mats : gmap nat BMat).
Context (indices : list Z).

Lemma slots_of_faces (ds : list nat) (dmat : option nat) (fs out : list Face)
    (mi : gmap nat Z) (sl : list BMat) :
  NoDup ds →
  Forall2 (λ d b, mats !! d = Some b) ds sl →
  (∀ d i, mi !! d = Some i ↔ ∃ j : nat, i = Z.of_nat j ∧ ds !! j = Some d) →
  (∀ f d, f ∈ fs → f.2 = Some d → d ∈ ds) →
  Forall (λ f, f.2 = dmat) out →
  (∀ d, dmat = Some d → d ∈ ds) →
  slots_of mats ds {| faces := fs ++ out; material_indices := mi; slots := sl |}.
Proof.
  intros Hnodup Hslots Hmi Hfaces Hout Hdmat.
  split; [done|]. split; [done|]. split; [done|]. cbn.
  intros f d Hin Hf. apply elem_of_app in Hin as [Hin|Hin]; [by eapply Hfaces|].
  apply Hdmat. rewrite Forall_forall in Hout. rewrite <- (Hout f Hin). done.
Qed.

(** One primitive: its material gets a slot behind the others when it
    has none yet. *)
Lemma prim_step_slots (ds : list nat) (st st' : Assembly) (prim : Primitive) :
  slots_of mats ds st →
  prim_step PC shape mats indices st prim = Return st' →
  ∃ ds',
    slots_of mats ds' st'
    ∧ ds `prefix_of` ds'
    ∧ ∀ d, d ∈ ds' ↔ d ∈ ds ∨ names_material PC shape prim d.
Proof.
  intros (Hnodup & Hslots & Hmi & Hfaces). unfold prim_step, names_material.
  destruct (Py.assert _); [|done]. cbn [mbind result_bind].
  destruct (truthy (Z.land (prim_type prim) (NoMaterial PC))); cbn [negb].
  - cbn [mret result_ret mbind result_bind].
    destruct (decode _ _ _ _ _) as [fs|] eqn:Hdec; [|done]. cbn. intros [= <-].
    apply decode_returns_behind in Hdec as (out & -> & Hout).
    exists ds. split; [by apply (slots_of_faces ds None)|]. split; [done|].
    intros d. split; [by left|]. intros [?|[? _]]; done.
  - destruct (Py.position _ _) as [d|] eqn:Hpos; [|done]. cbn [mbind result_bind].
    destruct (material_indices st !! d) as [i|] eqn:Hd.
    + cbn [mret result_ret mbind result_bind].
      destruct (decode _ _ _ _ _) as [fs|] eqn:Hdec; [|done]. cbn. intros [= <-].
      apply decode_returns_behind in Hdec as (out & -> & Hout).
      assert (Hin : d ∈ ds).
      { apply Hmi in Hd as (j & _ & Hj). by eapply list_elem_of_lookup_2. }
      exists ds. split; [apply (slots_of_faces ds (Some d)); try done; by intros ? [= <-]|].
      split; [done|].
      intros d'. split; [by left|]. intros [?|[_ [= <-]]]; done.
    + unfold dict_get. destruct (mats !! d) as [bmat|] eqn:Hb; [|done].
      cbn [mret result_ret mbind result_bind].
      destruct (decode _ _ _ _ _) as [fs|] eqn:Hdec; [|done]. cbn. intros [= <-].
      apply decode_returns_behind in Hdec as (out & -> & Hout).
      assert (Hnotin : d ∉ ds).
      { intros Hin. apply list_elem_of_lookup_1 in Hin as [j Hj].
        assert (material_indices st !! d = Some (Z.of_nat j)) by (apply Hmi; eauto).
        congruence. }
      pose proof (Forall2_length _ _ _ Hslots) as Hlen.
      exists (ds ++ [d]). split; [|split].
      * apply (slots_of_faces (ds ++ [d]) (Some d)).
        -- apply NoDup_app. split; [done|]. split; [|apply NoDup_singleton].
           intros x Hx Hx'. apply list_elem_of_singleton in Hx' as ->. done.
        -- apply Forall2_app; [done|]. by apply Forall2_cons.
        -- intros d' i. destruct (decide (d' = d)) as [->|Hne].
           ++ rewrite lookup_insert_eq. split.
              ** intros [= <-]. exists (length ds). split; [by rewrite Hlen|].
                 by rewrite lookup_app_r, Nat.sub_diag.
              ** intros (j & -> & Hj). f_equal.
                 destruct (decide (j < length ds)%nat) as [Hlt|Hge].
                 { rewrite lookup_app_l in Hj by done.
                   apply list_elem_of_lookup_2 in Hj. done. }
                 apply lookup_lt_Some in Hj. rewrite length_app in Hj.
                 simpl in Hj. lia.
           ++ rewrite lookup_insert_ne by done. rewrite Hmi. split.
              ** intros (j & -> & Hj). exists j. split; [done|].
                 by apply lookup_app_l_Some.
              ** intros (j & -> & Hj). exists j. split; [done|].
                 apply lookup_app_Some in Hj as [Hj|[_ Hj]]; [done|].
                 apply list_lookup_singleton_Some in Hj as [_ ->]. done.
        -- intros f d' Hin Hf. apply elem_of_app. left. by eapply Hfaces.
        -- done.
        -- intros d' [= <-]. apply elem_of_app. right. by apply list_elem_of_singleton.
      * by apply prefix_app_r.
      * intros d'. rewrite elem_of_app, list_elem_of_singleton. split.
        -- intros [?| ->]; [by left|]. by right.
        -- intros [?|[_ [= <-]]]; [by left|by right].
Qed.

Lemma prim_loop_slots (prims : list Primitive) :
  ∀ (ds : list nat) (st st' : Assembly),
    slots_of mats ds st →
    for_each (prim_step PC shape mats indices) prims st = Return st' →
    ∃ ds',
      slots_of mats ds' st'
      ∧ ds `prefix_of` ds'
      ∧ ∀ d, d ∈ ds' ↔ d ∈ ds ∨ ∃ prim, prim ∈ prims ∧ names_material PC shape prim d.
Proof.
  induction prims as [|prim prims IH]; intros ds st st' Hslots H.
  - injection H as <-. exists ds. split; [done|]. split; [done|].
    intros d. split; [by left|]. intros [?|(prim & Hin & _)]; [done|].
    by apply elem_of_nil in Hin.
  - cbn [for_each] in H.
    destruct (prim_step PC shape mats indices st prim) as [st1|] eqn:Hstep; [|done].
    cbn in H.
    destruct (prim_step_slots _ _ _ _ Hslots Hstep) as (ds1 & Hslots1 & Hpre1 & Hin1).
    destruct (IH _ _ _ Hslots1 H) as (ds' & Hslots' & Hpre' & Hin').
    exists ds'. split; [done|]. split; [by etrans|].
    intros d. rewrite Hin', Hin1. split.
    + intros [[?|?]|(p & Hp & ?)]; [by left| |].
      * right. exists prim. split; [apply elem_of_cons; by left|done].
      * right. exists p. split; [apply elem_of_cons; by right|done].
    + intros [?|(p & Hp & ?)]; [by left; left|].
      apply elem_of_cons in Hp as [->|Hp]; [by left; right|].
      right. by exists p.
Qed.

End Slots.

(** X10. The material slots of a returned mesh hold the handles of the
    descriptors that its primitives name, each descriptor once, however
    many primitives name it. *)
Theorem material_slots_are_distinct (PC : PrimitiveConsts) (dmesh : Mesh)
    (mats : gmap nat BMat) (shape : DtsShape) (me : BMesh) :
  create_bmesh PC dmesh mats shape = Return me →
  ∃ ds : list nat,
    NoDup ds
    ∧ Forall2 (λ d bmat, mats !! d = Some bmat) ds (me_materials me)
    ∧ ∀ d, d ∈ ds ↔ ∃ prim, prim ∈ primitives dmesh ∧ names_material PC shape prim d.
Proof.
  unfold create_bmesh. intros H.
  destruct (for_each (prim_step _ _ _ _) _ _) as [st|] eqn:Hst; [|done].
  cbn in H. destruct (Nat.eqb _ _); [|done]. cbn in H.
  destruct (for_each (face_step _ _) _ _) as [g|] eqn:Hg; [|done].
  cbn in H. injection H as <-. cbn [me_materials].
  destruct (prim_loop_slots PC shape mats (indices dmesh) (primitives dmesh) []
              {| faces := []; material_indices := ∅; slots := [] |} st)
    as (ds & (Hnodup & Hslots & _) & _ & Hin); [|done|].
  { split; [apply NoDup_nil_2|]. split; [apply Forall2_nil_2|]. split.
    - intros d i. cbn. rewrite lookup_empty. split; [done|].
      by intros (j & _ & Hj).
    - intros f d Hf. by apply elem_of_nil in Hf. }
  exists ds. split; [done|]. split; [done|].
  intros d. rewrite Hin. split; [|by right].
  intros [Hd|?]; [by apply elem_of_nil in Hd|done].
Qed.

(** The triangle twice with the same material: one slot. *)
Lemma material_slots_are_distinct_witness :
  ∃ ds : list nat,
    NoDup ds
    ∧ Forall2 (λ d bmat, imported tiny_shape !! d = Some bmat) ds
        (me_materials shared_bmesh)
    ∧ ∀ d, d ∈ ds ↔ ∃ prim, prim ∈ primitives shared_mesh
                             ∧ names_material torque_primitive tiny_shape prim d.
Proof.
  apply (material_slots_are_distinct torque_primitive shared_mesh (imported tiny_shape)
           tiny_shape shared_bmesh).
  vm_compute. reflexivity.
Defined.

(** ** The polygons of a mesh *)






(** ** The parts of the host a statement leaves alone *)

Lemma leaves_ret {A B} (part : World → B) (a : A) : leaves part (mret a).
Proof. by intros w r w' [= <- <-]. Qed.

Lemma leaves_lift {A B} (part : World → B) (r : result A) : leaves part (lift r).
Proof. by intros w r' w' [= <- <-]. Qed.

Lemma leaves_bind {A B C} (part : World → C) (m : M A) (f : A → M B) :
  leaves part m → (∀ a, leaves part (f a)) → leaves part (m ≫= f).
Proof.
  intros Hm Hf w r w'. unfold mbind, M_bind.
  destruct (m w) as [[a|e] w1] eqn:Hmw.
  - intros Hfa. rewrite <- (Hm _ _ _ Hmw). by eapply Hf.
  - intros [= <- <-]. by eapply Hm.
Qed.

Lemma leaves_for_eachM {S A B} (part : World → B) (body : S → A → M S)
    (xs : list A) (s : S) :
  (∀ s x, leaves part (body s x)) → leaves part (for_eachM body xs s).
Proof.
  intros Hbody. revert s. induction xs as [|x xs IH]; intros s.
  - apply leaves_ret.
  - simpl. apply leaves_bind; [apply Hbody|apply IH].
Qed.

(** A statement of the host that changes other fields only. *)
Ltac leaves_field :=
  match goal with
  | |- leaves _ _ =>
      let w := fresh "w" in
      let H := fresh "H" in
      intros w ? ? H;
      first [ injection H as <- <- | unfold group_link in H ];
      try (destruct (data_groups w !! _); injection H as <- <-);
      try (unfold groups_ensure, texts_ensure, set_groups, set_texts;
           destruct (_ !! _));
      reflexivity
  end.

(** Takes a sequence of statements apart, down to the statements of
    the host. *)
Ltac leaves_steps :=
  repeat first
    [ apply leaves_ret
    | apply leaves_lift
    | apply leaves_bind; [|intros ?]
    | apply leaves_for_eachM; intros ? ?
    | match goal with
      | |- leaves _ (if ?c then _ else _) => destruct c
      | |- leaves _ (match ?x with _ => _ end) => destruct x
      end
    | leaves_field ].

Section Leaves.
Context (MC : MaterialConsts) (PC : PrimitiveConsts) (env : Env) (shape : DtsShape).

Lemma import_materials_leaves_host (filepath : path) :
  leaves data_texts (import_materials MC env shape filepath)
  ∧ leaves scene_objects (import_materials MC env shape filepath).
Proof.
  split; unfold import_materials; apply leaves_for_eachM; intros mats [k dmat];
    unfold import_material, texture_or_color, try_load; leaves_steps.
Qed.

Lemma build_nodes_leaves_texts (node_mode : NodeMode) :
  leaves data_texts (build_nodes shape node_mode).
Proof.
  unfold build_nodes. destruct node_mode; [|apply leaves_ret..].
  apply leaves_for_eachM. intros node_obs [i node]. unfold node_step.
  leaves_steps.
Qed.

Lemma object_loop_leaves_texts (hide_default_player : bool) (mats : gmap nat BMat)
    (node_obs : list nat) :
  leaves data_texts
    (for_eachM (object_step PC shape hide_default_player mats node_obs)
       (objects shape) tt).
Proof.
  apply leaves_for_eachM. intros [] obj. unfold object_step.
  apply leaves_for_eachM. intros [] m. unfold mesh_step.
  leaves_steps.
Qed.

End Leaves.

(** ** The text block of the node names *)

Lemma mapM_returns {A B} (f : A → result B) (xs : list A) (ys : list B) :
  mapM f xs = Return ys → Forall2 (λ x y, f x = Return y) xs ys.
Proof.
  revert ys. induction xs as [|x xs IH]; intros ys.
  - intros [= <-]. apply Forall2_nil_2.
  - cbn [mapM]. destruct (f x) as [y|] eqn:Hy; [|done]. cbn [mbind result_bind].
    destruct (mapM f xs) as [k|]; [|done]. cbn. intros [= <-].
    apply Forall2_cons. split; [done|]. by apply IH.
Qed.

Lemma write_node_order_returns (shape : DtsShape) (w w' : World) :
  write_node_order shape w = (Return tt, w') →
  ∃ lines,
    Forall2 (λ node name, Py.index (names shape) (node_name node) = Return name)
      (nodes shape) lines
    ∧ data_texts w' !! "NodeOrder" = Some (String.concat newline lines)
    ∧ ∀ name, name ≠ "NodeOrder" → data_texts w' !! name = data_texts w !! name.
Proof.
  unfold write_node_order. intros H.
  step H u w1. step H lines w2. apply lift_returns in Hstep0 as [Hlines ->].
  exists lines. split; [by apply mapM_returns|].
  injection H as <-. injection Hstep as _ <-. cbn.
  split; [apply lookup_insert_eq|].
  intros name Hne. rewrite lookup_insert_ne by done.
  destruct (data_texts w !! "NodeOrder"); [done|].
  cbn. by rewrite lookup_insert_ne.
Qed.

(** X12. After an import that returns, in any node mode, the text block
    "NodeOrder" holds the names of the nodes in shape order, one per
    line; what it held before is overwritten, and the other text blocks
    are as they were. *)
Theorem node_order_lists_the_nodes (MC : MaterialConsts) (PC : PrimitiveConsts)
    (env : Env) (shape : DtsShape) (filepath : path) (node_mode : NodeMode)
    (hide_default_player : bool) (w w' : World) :
  load MC PC env shape filepath node_mode hide_default_player w = (Return tt, w') →
  ∃ lines,
    Forall2 (λ node name, Py.index (names shape) (node_name node) = Return name)
      (nodes shape) lines
    ∧ data_texts w' !! "NodeOrder" = Some (String.concat newline lines)
    ∧ ∀ name, name ≠ "NodeOrder" → data_texts w' !! name = data_texts w !! name.
Proof.
  intros Hload.
  apply load_returns in Hload
    as (mats0 & mats & node_obs & w1 & w2 & w3 & Himport & _ & Horder & Hnodes
        & Hobjs & _).
  apply write_node_order_returns in Horder as (lines & Hlines & Htext & Hothers).
  destruct (import_materials_leaves_host MC env shape filepath) as [Htexts1 _].
  apply Htexts1 in Himport.
  apply build_nodes_leaves_texts in Hnodes.
  apply object_loop_leaves_texts in Hobjs.
  exists lines. split; [done|]. rewrite Hobjs, Hnodes. split; [done|].
  intros name Hne. rewrite Hothers by done. by rewrite Himport.
Qed.

(** The one node of [tiny_shape]. *)
Lemma node_order_lists_the_nodes_witness :
  ∃ lines,
    Forall2 (λ node name, Py.index (names tiny_shape) (node_name node) = Return name)
      (nodes tiny_shape) lines
    ∧ data_texts tiny_world !! "NodeOrder" = Some (String.concat newline lines)
    ∧ ∀ name, name ≠ "NodeOrder" →
        data_texts tiny_world !! name = data_texts empty_world !! name.
Proof.
  apply (node_order_lists_the_nodes torque_material torque_primitive bare_env
           tiny_shape shape_path EMPTY false empty_world tiny_world).
  vm_compute. reflexivity.
Defined.

(** ** The node objects *)

Lemma index_seq (base n : nat) (p : Z) (h : nat) :
  Py.index (seq base n) p = Return h →
  (0 ≤ p < Z.of_nat n ∧ h = (base + Z.to_nat p)%nat)
  ∨ (- Z.of_nat n ≤ p < 0 ∧ h = (base + Z.to_nat (Z.of_nat n + p))%nat).
Proof.
  unfold Py.index. rewrite length_seq.
  destruct (Z.ltb_spec p 0) as [Hneg|Hpos].
  - destruct (Z.ltb_spec (p + Z.of_nat n) 0); [done|].
    destruct (Z.leb_spec (Z.of_nat n) (p + Z.of_nat n)); [done|]. cbn.
    destruct (seq base n !! _) as [x|] eqn:Hx; [|done]. intros [= <-].
    apply lookup_seq in Hx as [-> _]. right. split; [lia|]. f_equal. lia.
  - destruct (Z.ltb_spec p 0); [lia|].
    destruct (Z.leb_spec (Z.of_nat n) p); [done|]. cbn.
    destruct (seq base n !! _) as [x|] eqn:Hx; [|done]. intros [= <-].
    apply lookup_seq in Hx as [-> _]. left. split; [lia|done].
Qed.

Section NodeObjects.
Context (shape : DtsShape).

(** One node, when the handles built so far are [base .. base + i). *)
Lemma node_step_object (base i : nat) (node : Node) (obs' : list nat) (w w' : World) :
  length (data_objects w) = (base + i)%nat →
  node_step shape (seq base i) (i, node) w = (Return obs', w') →
  ∃ ob,
    node_object shape base i node ob
    ∧ data_objects w' = data_objects w ++ [ob]
    ∧ scene_objects w' = scene_objects w ++ [(base + i)%nat]
    ∧ obs' = seq base (S i).
Proof.
  intros Hbase. unfold node_step. intros H.
  unfold mbind, M_bind, lift, objects_new, modify, scene_link, mret, M_ret in H.
  cbn in H.
  destruct (Py.index (names shape) (node_name node)) as [name|] eqn:Hname; [|done].
  destruct (negb (node_parent node =? -1)) eqn:Hpar.
  - destruct (Py.index (seq base i) (node_parent node)) as [p|] eqn:Hp; [|done].
    cbn in H.
    destruct (Py.index (default_translations shape) _) as [loc|] eqn:Hloc; [|done].
    destruct (Py.index (default_rotations shape) _) as [q|]; [|done].
    injection H as <- <-. cbn. rewrite !alter_last. eexists.
    split; [|split; [done|split; [by rewrite Hbase|]]].
    + cbn. repeat split; try done.
      apply negb_true_iff, Z.eqb_neq in Hpar.
      apply index_seq in Hp as [[Hrange ->]|[Hrange ->]]; [right; left|right; right].
      * done.
      * split; [lia|done].
    + change (base :: seq (S base) i) with (seq base (S i)).
      by rewrite seq_S, Hbase.
  - cbn in H.
    destruct (Py.index (default_translations shape) _) as [loc|] eqn:Hloc; [|done].
    destruct (Py.index (default_rotations shape) _) as [q|]; [|done].
    injection H as <- <-. cbn. rewrite !alter_last. eexists.
    split; [|split; [done|split; [by rewrite Hbase|]]].
    + cbn. repeat split; try done.
      apply negb_false_iff, Z.eqb_eq in Hpar. by left.
    + change (base :: seq (S base) i) with (seq base (S i)).
      by rewrite seq_S, Hbase.
Qed.

Lemma node_loop_objects (base : nat) (ns : list Node) :
  ∀ (s : nat) (obs' : list nat) (w w' : World),
    length (data_objects w) = (base + s)%nat →
    for_eachM (node_step shape) (zip (seq s (length ns)) ns) (seq base s) w
    = (Return obs', w') →
    obs' = seq base (s + length ns)
    ∧ scene_objects w' = scene_objects w ++ seq (base + s) (length ns)
    ∧ ∃ created,
        data_objects w' = data_objects w ++ created
        ∧ Forall2 (λ '(i, node) ob, node_object shape base i node ob)
            (zip (seq s (length ns)) ns) created.
Proof.
  induction ns as [|node ns IH]; intros s obs' w w' Hbase H.
  - apply mret_returns in H as [-> ->]. rewrite Nat.add_0_r, !app_nil_r.
    split; [done|]. split; [done|]. exists []. rewrite app_nil_r.
    split; [done|]. apply Forall2_nil_2.
  - cbn [length seq zip zip_with for_eachM] in H |- *. step H obs1 w1.
    apply node_step_object in Hstep as (ob & Hob & Ho1 & Hs1 & ->); [|done].
    apply IH in H as (-> & Hs' & created & Ho' & Hall);
      [|rewrite Ho1, length_app; simpl; lia].
    split; [f_equal; lia|]. split.
    { rewrite Hs', Hs1, <- app_assoc. cbn. do 3 f_equal. lia. }
    exists (ob :: created). split; [by rewrite Ho', Ho1, <- app_assoc|].
    by apply Forall2_cons.
Qed.

End NodeObjects.

Lemma build_nodes_objects (shape : DtsShape) (node_obs : list nat) (w w' : World) :
  build_nodes shape EMPTY w = (Return node_obs, w') →
  node_obs = seq (length (data_objects w)) (length (nodes shape))
  ∧ scene_objects w' = scene_objects w ++ node_obs
  ∧ length (data_objects w') = (length (data_objects w) + length (nodes shape))%nat
  ∧ ∀ i node, nodes shape !! i = Some node →
      ∃ ob,
        data_objects w' !! (length (data_objects w) + i)%nat = Some ob
        ∧ node_object shape (length (data_objects w)) i node ob.
Proof.
  unfold build_nodes, enumerate. intros H.
  apply (node_loop_objects shape (length (data_objects w)) (nodes shape) 0 node_obs w w')
    in H as (-> & Hscene & created & Ho & Hall); [|lia].
  rewrite Nat.add_0_r in Hscene. cbn [Nat.add].
  pose proof (Forall2_length _ _ _ Hall) as Hlen.
  rewrite length_zip_with, length_seq, Nat.min_id in Hlen.
  split; [done|]. split; [done|]. split; [rewrite Ho, length_app; lia|].
  intros i node Hi.
  assert (Hzip : zip (seq 0 (length (nodes shape))) (nodes shape) !! i = Some (i, node)).
  { apply lookup_zip_with_Some. exists i, node. split; [done|]. split; [|done].
    apply lookup_seq. split; [done|]. by eapply lookup_lt_Some. }
  destruct (Forall2_lookup_l _ _ _ _ _ Hall Hzip) as (ob & Hob & Hnode).
  exists ob. split; [|done].
  rewrite Ho, lookup_app_r by lia.
  by replace (length (data_objects w) + i - length (data_objects w))%nat with i by lia.
Qed.

(** X13. In node mode EMPTY the nodes become objects in shape order, each
    linked to the scene: the object of node i has the node's name and
    default translation and no mesh; a node with parent -1 has no
    parent, a node with parent p in [0, i) has the object of node p for
    parent, and a parent p in [-i, -1) is the object of node i + p. *)
Theorem nodes_become_objects (shape : DtsShape) (node_obs : list nat) (w w' : World) :
  build_nodes shape EMPTY w = (Return node_obs, w') →
  node_obs = seq (length (data_objects w)) (length (nodes shape))
  ∧ scene_objects w' = scene_objects w ++ node_obs
  ∧ length (data_objects w') = (length (data_objects w) + length (nodes shape))%nat
  ∧ ∀ i node, nodes shape !! i = Some node →
      ∃ ob,
        data_objects w' !! (length (data_objects w) + i)%nat = Some ob
        ∧ node_object shape (length (data_objects w)) i node ob.
Proof.
  intros H.
  destruct (build_nodes_objects shape node_obs w w' H)
    as (Hhandles & Hscene & Hlength & Hobjects).
  split; [exact Hhandles|]. split; [exact Hscene|]. split; [exact Hlength|].
  intros i node Hi. destruct (Hobjects i node Hi) as (ob & Hob & Hnode).
  by exists ob.
Qed.

(** The root of [tiny_shape]. *)
Lemma nodes_become_objects_witness :
  [0%nat] = seq (length (data_objects empty_world)) (length (nodes tiny_shape))
  ∧ scene_objects tiny_nodes_world = scene_objects empty_world ++ [0%nat]
  ∧ length (data_objects tiny_nodes_world)
    = (length (data_objects empty_world) + length (nodes tiny_shape))%nat
  ∧ ∀ i node, nodes tiny_shape !! i = Some node →
      ∃ ob,
        data_objects tiny_nodes_world !! (length (data_objects empty_world) + i)%nat
        = Some ob
        ∧ node_object tiny_shape (length (data_objects empty_world)) i node ob.
Proof.
  apply (nodes_become_objects tiny_shape [0%nat] empty_world tiny_nodes_world).
  reflexivity.
Defined.

(** X14. A node whose parent index is neither -1 nor the index of a node
    before it, from the front or from the back, ends the import: a
    forward reference raises instead of being linked. *)
Theorem misplaced_parent_raises (MC : MaterialConsts) (PC : PrimitiveConsts)
    (env : Env) (shape : DtsShape) (filepath : path) (hide_default_player : bool)
    (w : World) (i : nat) (node : Node) :
  nodes shape !! i = Some node →
  node_parent node ≠ -1 →
  Z.of_nat i ≤ node_parent node ∨ node_parent node < - Z.of_nat i →
  ∃ e w', load MC PC env shape filepath EMPTY hide_default_player w = (Raise e, w').
Proof.
  intros Hi Hroot Hrange.
  destruct (load MC PC env shape filepath EMPTY hide_default_player w)
    as [[[]|e] w'] eqn:Hload; [|by exists e, w'].
  exfalso.
  apply load_returns in Hload
    as (mats0 & mats & node_obs & w1 & w2 & w3 & _ & _ & _ & Hnodes & _).
  apply build_nodes_objects in Hnodes as (_ & _ & _ & Hobjects).
  destruct (Hobjects i node Hi) as (ob & _ & Hnode).
  destruct Hnode as (_ & _ & _ & _ & _ & _ & [[? _]|[[? _]|[? _]]]); lia.
Qed.

(** A single node that names itself as its parent. *)
Lemma misplaced_parent_raises_witness :
  ∃ e w',
    load torque_material torque_primitive bare_env self_parent_shape shape_path
      EMPTY false empty_world = (Raise e, w').
Proof.
  apply (misplaced_parent_raises torque_material torque_primitive bare_env
           self_parent_shape shape_path false empty_world 0
           {| node_name := 0; node_parent := 0 |}).
  - reflexivity.
  - simpl. lia.
  - simpl. lia.
Defined.

(** ** The mesh objects *)

Lemma places_nil (P : Object → Z → BObj → Prop) (w : World) : places P [] w w.
Proof.
  exists []. rewrite !app_nil_r. split; [done|]. split; [apply Forall2_nil_2|done].
Qed.

Lemma places_app (P : Object → Z → BObj → Prop) (ps1 ps2 : list (Object * Z))
    (w w1 w' : World) :
  places P ps1 w w1 → places P ps2 w1 w' → places P (ps1 ++ ps2) w w'.
Proof.
  intros (new1 & Ho1 & Hall1 & Hs1) (new2 & Ho2 & Hall2 & Hs2).
  exists (new1 ++ new2). split; [by rewrite Ho2, Ho1, app_assoc|].
  split; [by apply Forall2_app|].
  rewrite Hs2, Hs1, Ho1, !length_app, <- app_assoc. f_equal.
  by rewrite seq_app.
Qed.

Section MeshObjects.
Context (PC : PrimitiveConsts) (shape : DtsShape) (hide_default_player : bool).
Context (mats : gmap nat BMat) (node_obs : list nat).

Lemma mesh_step_places (obj : Object) (m : Z) (w w' : World) :
  mesh_step PC shape hide_default_player mats node_obs obj tt m w = (Return tt, w') →
  places (mesh_object PC shape hide_default_player mats node_obs)
    (if is_standard shape obj m then [(obj, m)] else []) w w'.
Proof.
  unfold mesh_step, is_standard. intros H.
  unfold mbind, M_bind, lift, objects_new, modify, scene_link, groups_ensure,
    group_link, print, mret, M_ret in H.
  destruct (Py.index (meshes shape) _) as [mesh|] eqn:Hmesh; [|done].
  destruct (mesh_type mesh) as [| |kind] eqn:Htype.
  - injection H as <-. apply places_nil.
  - destruct (create_bmesh PC mesh mats shape) as [bmesh|] eqn:Hbmesh; [|done].
    destruct (Py.index (names shape) (obj_name obj)) as [name|] eqn:Hname; [|done].
    cbn in H.
    assert (Hend : ∀ (f : BObj → BObj) (w1 : World),
      data_objects w1 = alter f (length (data_objects w))
                          (data_objects w ++ [new_object name (Some bmesh)]) →
      scene_objects w1 = scene_objects w ++ [length (data_objects w)] →
      (let (r, w2) :=
         (if hide_default_player && negb (bool_decide (name ∈ blockhead_nodes))
          then λ w0, (Return (), set_objects (alter (set_hide true)
                                               (length (data_objects w))) w0)
          else λ w0, (Return (), w0)) w1 in
       match r with
       | Return _ =>
           match
             match lod_by_mesh shape !! m with
             | Some lod => Return lod
             | None => Raise (KeyError (KInt m))
             end
           with
           | Return lod =>
               match Py.index (names shape) (lod_name lod) with
               | Return group =>
                   match
                     data_groups
                       match data_groups w2 !! group with
                       | Some _ => w2
                       | None => set_groups <[group:=[]]> w2
                       end !! group
                   with
                   | Some members =>
                       (Return (),
                        set_groups <[group:=members ++ [length (data_objects w)]]>
                          match data_groups w2 !! group with
                          | Some _ => w2
                          | None => set_groups <[group:=[]]> w2
                          end)
                   | None =>
                       (Raise (KeyError (KStr group)),
                        match data_groups w2 !! group with
                        | Some _ => w2
                        | None => set_groups <[group:=[]]> w2
                        end)
                   end
               | Raise e => (Raise e, w2)
               end
           | Raise e => (Raise e, w2)
           end
       | Raise e => (Raise e, w2)
       end) = (Return (), w') →
      data_objects w'
      = data_objects w
        ++ [when (hide_default_player && negb (bool_decide (name ∈ blockhead_nodes)))
              (set_hide true) (f (new_object name (Some bmesh)))]
      ∧ scene_objects w' = scene_objects w ++ [length (data_objects w)]).
    { intros f w1 Ho1 Hs1. unfold when.
      destruct (hide_default_player && _).
      - destruct (lod_by_mesh shape !! m) as [lod|]; [|done].
        destruct (Py.index (names shape) (lod_name lod)) as [group|]; [|done].
        destruct (data_groups (set_objects _ w1) !! group) eqn:Hg.
        + rewrite Hg. intros [= <-]. cbn.
          by rewrite Ho1, Hs1, !alter_last.
        + cbn. rewrite lookup_insert_eq. intros [= <-]. cbn.
          by rewrite Ho1, Hs1, !alter_last.
      - destruct (lod_by_mesh shape !! m) as [lod|]; [|done].
        destruct (Py.index (names shape) (lod_name lod)) as [group|]; [|done].
        destruct (data_groups w1 !! group) eqn:Hg.
        + rewrite Hg. intros [= <-]. cbn.
          by rewrite Ho1, Hs1, !alter_last.
        + cbn. rewrite lookup_insert_eq. intros [= <-]. cbn.
          by rewrite Ho1, Hs1, !alter_last. }
    destruct (negb (obj_node obj =? -1)) eqn:Hnode.
    + destruct (Py.index node_obs (obj_node obj)) as [p|] eqn:Hp; [|done].
      apply (Hend (set_parent p)) in H as [Ho Hs]; [|cbn; by rewrite alter_last|done].
      eexists [_]. split; [done|]. split; [|done].
      apply Forall2_cons. split; [|apply Forall2_nil_2].
      exists mesh, bmesh. unfold when.
      apply negb_true_iff, Z.eqb_neq in Hnode.
      destruct (hide_default_player && _) eqn:Hhide; cbn;
        rewrite ?Hhide; repeat split; try done; right; eauto.
    + apply (Hend id) in H as [Ho Hs]; [|cbn; by rewrite list_alter_id|done].
      eexists [_]. split; [done|]. split; [|done].
      apply Forall2_cons. split; [|apply Forall2_nil_2].
      exists mesh, bmesh. unfold when.
      apply negb_false_iff, Z.eqb_eq in Hnode.
      destruct (hide_default_player && _) eqn:Hhide; cbn;
        rewrite ?Hhide; repeat split; try done; by left.
  - destruct (Py.index (names shape) (obj_name obj)) as [name|]; [|done].
    injection H as <-. exists []. cbn. rewrite !app_nil_r.
    split; [done|]. split; [apply Forall2_nil_2|done].
Qed.

Lemma mesh_loop_places (obj : Object) (ms : list Z) :
  ∀ w w' : World,
    for_eachM (mesh_step PC shape hide_default_player mats node_obs obj) ms tt w
    = (Return tt, w') →
    places (mesh_object PC shape hide_default_player mats node_obs)
      (pair obj <$> List.filter (is_standard shape obj) ms) w w'.
Proof.
  induction ms as [|m ms IH]; intros w w' H.
  - apply mret_returns in H as [_ ->]. apply places_nil.
  - cbn [for_eachM] in H. step H u w1. destruct u.
    apply mesh_step_places in Hstep. apply IH in H. cbn [List.filter].
    destruct (is_standard shape obj m).
    + by apply (places_app _ [(obj, m)] _ w w1 w').
    + by apply (places_app _ [] _ w w1 w').
Qed.

Lemma object_loop_places (objs : list Object) :
  ∀ w w' : World,
    for_eachM (object_step PC shape hide_default_player mats node_obs) objs tt w
    = (Return tt, w') →
    places (mesh_object PC shape hide_default_player mats node_obs)
      (flat_map (λ obj, pair obj <$> created_by shape obj) objs) w w'.
Proof.
  induction objs as [|obj objs IH]; intros w w' H.
  - apply mret_returns in H as [_ ->]. apply places_nil.
  - cbn [for_eachM flat_map] in H |- *. step H u w1. destruct u.
    apply mesh_loop_places in Hstep. apply IH in H.
    by eapply places_app.
Qed.

End MeshObjects.

Lemma write_node_order_leaves_scene (shape : DtsShape) :
  leaves scene_objects (write_node_order shape).
Proof. unfold write_node_order. leaves_steps. Qed.

Lemma build_nodes_scene (shape : DtsShape) (node_mode : NodeMode)
    (node_obs : list nat) (w w' : World) :
  build_nodes shape node_mode w = (Return node_obs, w') →
  scene_objects w' = scene_objects w ++ node_obs.
Proof.
  destruct node_mode.
  - intros H. by apply build_nodes_objects in H as (_ & Hs & _).
  - intros H. apply mret_returns in H as [-> ->]. by rewrite app_nil_r.
  - intros H. apply mret_returns in H as [-> ->]. by rewrite app_nil_r.
Qed.

(** What a returning import has done to the host: *)
Lemma load_places (MC : MaterialConsts) (PC : PrimitiveConsts) (env : Env)
    (shape : DtsShape) (filepath : path) (node_mode : NodeMode)
    (hide_default_player : bool) (w w' : World) :
  load MC PC env shape filepath node_mode hide_default_player w = (Return tt, w') →
  ∃ mats nodes_new w3,
    data_objects w3 = data_objects w ++ nodes_new
    ∧ length nodes_new = node_count shape node_mode
    ∧ scene_objects w3
      = scene_objects w ++ seq (length (data_objects w)) (node_count shape node_mode)
    ∧ places (mesh_object PC shape hide_default_player mats
                (seq (length (data_objects w)) (node_count shape node_mode)))
        (created shape) w3 w'
    ∧ groups_grow (data_groups w) (data_groups w').
Proof.
  intros Hload.
  apply load_returns in Hload
    as (mats0 & mats & node_obs & w1 & w2 & w3 & Himport & _ & Horder & Hnodes
        & Hobjs & Ho2 & Hg2).
  pose proof (build_nodes_scene _ _ _ _ _ Hnodes) as Hs3.
  apply build_nodes_returns in Hnodes as (nodes_new & Ho3 & Hg3 & Hlen & -> & _).
  pose proof (object_loop_returns _ _ _ _ _ _ _ _ Hobjs) as (_ & _ & _ & Hgrow & _).
  apply object_loop_places in Hobjs.
  destruct (import_materials_leaves_host MC env shape filepath) as [_ Hscene1].
  apply Hscene1 in Himport. apply write_node_order_leaves_scene in Horder.
  exists mats, nodes_new, w3. rewrite Ho2 in *.
  split; [done|]. split; [done|]. split; [by rewrite Hs3, Horder, Himport|].
  split; [done|]. by rewrite Hg3, Hg2 in Hgrow.
Qed.

(** X15. An import that returns only adds to the host: the objects there were
    stay in place, followed by one object per node (in node mode EMPTY)
    and then one per Standard mesh of the objects' mesh ranges, Null
    and unsupported meshes giving none; each new object is linked to
    the scene once, in the order of creation; and the groups there were
    keep their members, in order. *)
Theorem import_only_adds (MC : MaterialConsts) (PC : PrimitiveConsts) (env : Env)
    (shape : DtsShape) (filepath : path) (node_mode : NodeMode)
    (hide_default_player : bool) (w w' : World) :
  load MC PC env shape filepath node_mode hide_default_player w = (Return tt, w') →
  ∃ new,
    data_objects w' = data_objects w ++ new
    ∧ length new = (node_count shape node_mode + length (created shape))%nat
    ∧ scene_objects w' = scene_objects w ++ seq (length (data_objects w)) (length new)
    ∧ groups_grow (data_groups w) (data_groups w').
Proof.
  intros Hload.
  apply load_places in Hload
    as (mats & nodes_new & w3 & Ho3 & Hlen & Hs3 & (new & Ho' & Hall & Hs') & Hgrow).
  apply Forall2_length in Hall.
  exists (nodes_new ++ new). rewrite !length_app, Hlen, <- Hall.
  split; [by rewrite Ho', Ho3, app_assoc|]. split; [done|]. split; [|done].
  rewrite Hs', Hs3, Ho3, length_app, Hlen, <- app_assoc, Hall. f_equal.
  by rewrite seq_app.
Qed.

(** [tiny_shape]: one node and one mesh. *)
Lemma import_only_adds_witness :
  ∃ new,
    data_objects tiny_world = data_objects empty_world ++ new
    ∧ length new = (node_count tiny_shape EMPTY + length (created tiny_shape))%nat
    ∧ scene_objects tiny_world
      = scene_objects empty_world ++ seq (length (data_objects empty_world)) (length new)
    ∧ groups_grow (data_groups empty_world) (data_groups tiny_world).
Proof.
  apply (import_only_adds torque_material torque_primitive bare_env tiny_shape
           shape_path EMPTY false empty_world tiny_world).
  vm_compute. reflexivity.
Defined.

(** X16. After an import that returns, the k-th mesh object holds the mesh
    datablock assembled from its mesh and has the name of its object;
    it is hidden exactly when [hide_default_player] is set and the name
    is not one of [blockhead_nodes]; it has no parent when the object's
    node is -1, and the object of that node when the node index is not
    negative. *)
Theorem mesh_objects_are_attached (MC : MaterialConsts) (PC : PrimitiveConsts)
    (env : Env) (shape : DtsShape) (filepath : path) (node_mode : NodeMode)
    (hide_default_player : bool) (w w' : World) :
  load MC PC env shape filepath node_mode hide_default_player w = (Return tt, w') →
  ∃ mats,
    ∀ k obj m, created shape !! k = Some (obj, m) →
      ∃ ob,
        data_objects w' !! (length (data_objects w) + node_count shape node_mode + k)%nat
        = Some ob
        ∧ mesh_object PC shape hide_default_player mats
            (seq (length (data_objects w)) (node_count shape node_mode)) obj m ob
        ∧ (0 ≤ obj_node obj →
           obj_node obj < Z.of_nat (node_count shape node_mode)
           ∧ ob_parent ob = Some (length (data_objects w) + Z.to_nat (obj_node obj))%nat).
Proof.
  intros Hload.
  apply load_places in Hload
    as (mats & nodes_new & w3 & Ho3 & Hlen & _ & (new & Ho' & Hall & _) & _).
  exists mats. intros k obj m Hk.
  destruct (Forall2_lookup_l _ _ _ _ _ Hall Hk) as (ob & Hob & Hmesh).
  exists ob. split; [|split; [done|]].
  - rewrite Ho', lookup_app_r by (rewrite Ho3, length_app; lia).
    rewrite Ho3, length_app, Hlen.
    by replace (length (data_objects w) + node_count shape node_mode + k
                - (length (data_objects w) + node_count shape node_mode))%nat
      with k by lia.
  - intros Hnode.
    destruct Hmesh as (_ & _ & _ & _ & _ & _ & _ & _ & [[? _]|(_ & p & Hp & ->)]);
      [lia|].
    apply index_seq in Hp as [[? ->]|[? _]]; [|lia]. split; [lia|done].
Qed.

(** The mesh object of [tiny_shape], attached to the root node. *)
Lemma mesh_objects_are_attached_witness :
  ∃ mats,
    ∀ k obj m, created tiny_shape !! k = Some (obj, m) →
      ∃ ob,
        data_objects tiny_world
          !! (length (data_objects empty_world) + node_count tiny_shape EMPTY + k)%nat
        = Some ob
        ∧ mesh_object torque_primitive tiny_shape false mats
            (seq (length (data_objects empty_world)) (node_count tiny_shape EMPTY))
            obj m ob
        ∧ (0 ≤ obj_node obj →
           obj_node obj < Z.of_nat (node_count tiny_shape EMPTY)
           ∧ ob_parent ob
             = Some (length (data_objects empty_world) + Z.to_nat (obj_node obj))%nat).
Proof.
  apply (mesh_objects_are_attached torque_material torque_primitive bare_env tiny_shape
           shape_path EMPTY false empty_world tiny_world).
  vm_compute. reflexivity.
Defined.

(** X17. In the node modes ARMATURE and BONE no node object is built, so a
    Standard mesh of an object that is attached to a node ends the
    import: [node_obs[obj.node]] raises. *)
Theorem attached_mesh_needs_node_objects (MC : MaterialConsts) (PC : PrimitiveConsts)
    (env : Env) (shape : DtsShape) (filepath : path) (node_mode : NodeMode)
    (hide_default_player : bool) (w : World) (obj : Object) (m : Z) :
  node_mode ≠ EMPTY →
  obj ∈ objects shape →
  m ∈ Py.range 0 (numMeshes obj) →
  is_standard shape obj m = true →
  obj_node obj ≠ -1 →
  ∃ e w',
    load MC PC env shape filepath node_mode hide_default_player w = (Raise e, w').
Proof.
  intros Hmode Hobj Hm Hstd Hnode.
  destruct (load MC PC env shape filepath node_mode hide_default_player w)
    as [[[]|e] w'] eqn:Hload; [|by exists e, w'].
  exfalso.
  apply load_places in Hload
    as (mats & nodes_new & w3 & _ & _ & _ & (new & _ & Hall & _) & _).
  destruct (created_lookup shape obj m Hobj Hm Hstd) as [k Hk].
  destruct (Forall2_lookup_l _ _ _ _ _ Hall Hk) as (ob & _ & Hmesh).
  destruct Hmesh as (_ & _ & _ & _ & _ & _ & _ & _ & [[? _]|(_ & p & Hp & _)]);
    [done|].
  apply index_seq in Hp as [[? _]|[? _]]; destruct node_mode; simpl in *; done || lia.
Qed.

(** [tiny_shape] imported in node mode ARMATURE. *)
Lemma attached_mesh_needs_node_objects_witness :
  ∃ e w',
    load torque_material torque_primitive bare_env tiny_shape shape_path ARMATURE
      false empty_world = (Raise e, w').
Proof.
  apply (attached_mesh_needs_node_objects torque_material torque_primitive bare_env
           tiny_shape shape_path ARMATURE false empty_world body 0).
  - discriminate.
  - apply elem_of_cons. by left.
  - apply elem_of_cons. by left.
  - reflexivity.
  - simpl. lia.
Defined.

(** ** What the IFL loop leaves alone *)

Lemma ifl_update_refl (mat : BMat) : ifl_update mat mat.
Proof. by repeat split. Qed.

Lemma ifl_update_trans (m1 m2 m3 : BMat) :
  ifl_update m1 m2 → ifl_update m2 m3 → ifl_update m1 m3.
Proof.
  intros (? & ? & ? & ? & ? & H12) (? & ? & ? & ? & ? & H23).
  repeat split; try congruence. intros key Hkey. rewrite H23, H12; done.
Qed.

Lemma ifl_step_updates (shape : DtsShape) (mats mats' : gmap nat BMat) (ifl : IFLEntry) :
  ifl_step shape mats ifl = Return mats' →
  ∃ k mat mat',
    Py.position (materials shape) (ifl_slot ifl) = Return k
    ∧ mats !! k = Some mat
    ∧ mats' = <[k := mat']> mats
    ∧ ifl_update mat mat'.
Proof.
  unfold ifl_step.
  destruct (Py.position _ _) as [k|] eqn:Hpos; [|done]. cbn.
  unfold dict_get. destruct (mats !! k) as [mat|] eqn:Hk; [|done]. cbn.
  destruct (get_prop "ifl" mat) as [v|]; [|done]. cbn.
  destruct (Py.assert _); [|done]. cbn.
  destruct (Py.index (names shape) _) as [name|] eqn:Hname; [|done]. cbn.
  intros [= <-]. eexists k, mat, _. split; [done|]. split; [done|]. split; [done|].
  repeat split. intros key Hkey. cbn.
  rewrite !lookup_insert_ne; [done|..]; intros <-; apply Hkey;
    repeat first [apply elem_of_cons; left; reflexivity | apply elem_of_cons; right].
Qed.

(** X18. The IFL loop touches the handles of the materials its entries name
    and, of those, the four IFL properties only: every handle keeps its
    name, texture, colour, settings and other properties, no handle
    appears or disappears, and the handle of a material no entry names
    is the same. *)
Theorem ifl_loop_updates (shape : DtsShape) (mats mats' : gmap nat BMat) :
  assign_ifl shape mats = Return mats' →
  ∀ k,
    match mats !! k with
    | None => mats' !! k = None
    | Some mat =>
        ∃ mat', mats' !! k = Some mat'
                ∧ ifl_update mat mat'
                ∧ ((∀ ifl, ifl ∈ iflmaterials shape →
                      Py.position (materials shape) (ifl_slot ifl) ≠ Return k) →
                   mat' = mat)
    end.
Proof.
  unfold assign_ifl. generalize (iflmaterials shape) as entries.
  intros entries. revert mats.
  induction entries as [|x entries IH]; intros mats H k.
  - injection H as <-. destruct (mats !! k) as [mat|] eqn:Hk; [|done].
    exists mat. split; [done|]. split; [apply ifl_update_refl|done].
  - cbn [for_each] in H.
    destruct (ifl_step shape mats x) as [mats1|] eqn:Hstep; [|done]. cbn in H.
    apply ifl_step_updates in Hstep as (kx & mat & mat1 & Hpos & Hmat & -> & Hup).
    specialize (IH _ H k).
    destruct (decide (kx = k)) as [->|Hne].
    + rewrite lookup_insert_eq in IH. rewrite Hmat.
      destruct IH as (mat' & Hk' & Hup' & _). exists mat'. split; [done|].
      split; [by eapply ifl_update_trans|].
      intros Hnone. exfalso. apply (Hnone x); [|done]. apply elem_of_cons. by left.
    + rewrite lookup_insert_ne in IH by done.
      destruct (mats !! k) as [m|]; [|done].
      destruct IH as (mat' & Hk' & Hup' & Hsame). exists mat'.
      split; [done|]. split; [done|]. intros Hnone. apply Hsame.
      intros y Hy. apply Hnone. apply elem_of_cons. by right.
Qed.

(** The entry for slot 0 of [flagged_shape]. *)
Lemma ifl_loop_updates_witness :
  match imported flagged_shape !! 0%nat with
  | None => assigned flagged_shape !! 0%nat = None
  | Some mat =>
      ∃ mat', assigned flagged_shape !! 0%nat = Some mat'
              ∧ ifl_update mat mat'
              ∧ ((∀ ifl, ifl ∈ iflmaterials flagged_shape →
                    Py.position (materials flagged_shape) (ifl_slot ifl) ≠ Return 0%nat) →
                 mat' = mat)
  end.
Proof.
  apply (ifl_loop_updates flagged_shape (imported flagged_shape)
           (assigned flagged_shape)).
  vm_compute. reflexivity.
Defined.

(** ** The materials of a shape *)

Section Materials.
Context (MC : MaterialConsts) (env : Env) (filepath : path).

Lemma import_material_raises (dmat : Material) (w w' : World) (e : exn) :
  import_material MC env dmat filepath w = (Raise e, w') →
  e = UnboundLocalError "teximg"
  ∧ ∃ texname,
      find_texture env (mat_name dmat) (Os.dirname filepath) = Some texname
      ∧ images_load env texname = None.
Proof.
  unfold import_material, texture_or_color, try_load.
  destruct (find_texture _ _ _) as [texname|].
  - destruct (images_load env texname) as [img|] eqn:Hload; [by cbv [mbind M_bind mret M_ret lift read_local print draw]|].
    cbv [mbind M_bind mret M_ret lift read_local print draw]. intros [= <- _]. split; [done|]. by exists texname.
  - destruct (default_materials !! _); by cbv [mbind M_bind mret M_ret lift read_local print draw].
Qed.

Lemma failed_load_raises_at (dmat : Material) (texname : path) (w : World) :
  find_texture env (mat_name dmat) (Os.dirname filepath) = Some texname →
  images_load env texname = None →
  import_material MC env dmat filepath w
  = (Raise (UnboundLocalError "teximg"),
     (print ("Cannot load image " +:+ Os.render texname) w).2).
Proof.
  intros Hfound Hload. unfold import_material, texture_or_color, try_load.
  rewrite Hfound, Hload. reflexivity.
Qed.

(** The import loop from descriptor [s] on: what it returns holds, for
    each descriptor, a handle that [import_material] returned for it,
    and nothing else new. *)
Lemma import_loop_handles (ms : list Material) :
  ∀ (s : nat) (acc mats : gmap nat BMat) (w w' : World),
    for_eachM
      (λ mats '(k, dmat),
         bmat ← import_material MC env dmat filepath; mret (<[k := bmat]> mats))
      (zip (seq s (length ms)) ms) acc w = (Return mats, w') →
    (∀ j, (j < s ∨ s + length ms ≤ j)%nat → mats !! j = acc !! j)
    ∧ ∀ k dmat, ms !! k = Some dmat →
        ∃ bmat w0 w1,
          mats !! (s + k)%nat = Some bmat
          ∧ import_material MC env dmat filepath w0 = (Return bmat, w1).
Proof.
  induction ms as [|dmat ms IH]; intros s acc mats w w' H.
  - apply mret_returns in H as [-> _]. split; [done|]. intros k ? Hk. done.
  - cbn [length seq zip zip_with for_eachM] in H. step H acc1 w1.
    step Hstep bmat w0. apply mret_returns in Hstep as [-> _].
    destruct (IH _ _ _ _ _ H) as [Hframe Hhandles]. split.
    + intros j Hj. rewrite Hframe by (simpl in Hj; lia).
      apply lookup_insert_ne. simpl in Hj. lia.
    + intros [|k] d Hk.
      * injection Hk as <-. exists bmat, w, w0. rewrite Nat.add_0_r.
        split; [|done]. rewrite Hframe by lia. apply lookup_insert_eq.
      * destruct (Hhandles k d Hk) as (b & wa & wb & Hb & Himp).
        exists b, wa, wb. by replace (s + S k)%nat with (S s + k)%nat by lia.
Qed.

Lemma import_loop_raises (ms : list Material) :
  ∀ (s : nat) (acc : gmap nat BMat) (w w' : World) (e : exn),
    for_eachM
      (λ mats '(k, dmat),
         bmat ← import_material MC env dmat filepath; mret (<[k := bmat]> mats))
      (zip (seq s (length ms)) ms) acc w = (Raise e, w') →
    e = UnboundLocalError "teximg".
Proof.
  induction ms as [|dmat ms IH]; intros s acc w w' e H; [done|].
  cbn [length seq zip zip_with for_eachM] in H.
  unfold mbind at 1, M_bind at 1 in H.
  destruct ((import_material MC env dmat filepath ≫= _) w) as [[acc1|e1] w1] eqn:Hstep.
  - by eapply IH.
  - injection H as <- <-. unfold mbind, M_bind in Hstep.
    destruct (import_material MC env dmat filepath w) as [[b|e2] w2] eqn:Himp; [done|].
    injection Hstep as <- <-. by apply import_material_raises in Himp as [-> _].
Qed.

End Materials.

(** X19. When the materials are all resolved, there is one handle per
    descriptor of the shape, the one [import_material] returned for
    it, and no other. *)
Theorem one_handle_per_material (MC : MaterialConsts) (env : Env) (shape : DtsShape)
    (filepath : path) (mats : gmap nat BMat) (w w' : World) :
  import_materials MC env shape filepath w = (Return mats, w') →
  (∀ k, mats !! k = None ↔ materials shape !! k = None)
  ∧ ∀ k dmat, materials shape !! k = Some dmat →
      ∃ bmat w0 w1,
        mats !! k = Some bmat
        ∧ import_material MC env dmat filepath w0 = (Return bmat, w1).
Proof.
  unfold import_materials, enumerate. intros H.
  apply import_loop_handles in H as [Hframe Hhandles]. split; [|exact Hhandles].
  intros k. destruct (materials shape !! k) as [dmat|] eqn:Hk.
  - destruct (Hhandles k dmat Hk) as (bmat & _ & _ & Hb & _).
    cbn [Nat.add] in Hb. rewrite Hb. done.
  - split; [done|]. intros _. apply lookup_ge_None in Hk.
    rewrite Hframe by (right; simpl; lia). apply lookup_empty.
Qed.

(** The one material of [tiny_shape]. *)
Lemma one_handle_per_material_witness :
  (∀ k, imported tiny_shape !! k = None ↔ materials tiny_shape !! k = None)
  ∧ ∀ k dmat, materials tiny_shape !! k = Some dmat →
      ∃ bmat w0 w1,
        imported tiny_shape !! k = Some bmat
        ∧ import_material torque_material bare_env dmat shape_path w0
          = (Return bmat, w1).
Proof.
  apply (one_handle_per_material torque_material bare_env tiny_shape shape_path
           (imported tiny_shape) empty_world empty_world).
  reflexivity.
Defined.

(** X20. One material whose texture file is found and does not load ends
    the whole import, with the [UnboundLocalError] of
    [import_material]; nothing else makes the resolution of the
    materials raise. *)
Theorem unloadable_texture_ends_import (MC : MaterialConsts) (PC : PrimitiveConsts)
    (env : Env) (shape : DtsShape) (filepath : path) (node_mode : NodeMode)
    (hide_default_player : bool) (w : World) :
  (∃ dmat texname,
     dmat ∈ materials shape
     ∧ find_texture env (mat_name dmat) (Os.dirname filepath) = Some texname
     ∧ images_load env texname = None)
  ↔ ∃ w', import_materials MC env shape filepath w
          = (Raise (UnboundLocalError "teximg"), w')
          ∧ load MC PC env shape filepath node_mode hide_default_player w
            = (Raise (UnboundLocalError "teximg"), w').
Proof.
  split.
  - intros (dmat & texname & Hin & Hfound & Hload).
    destruct (import_materials MC env shape filepath w) as [[mats|e] w'] eqn:Himport.
    + exfalso. apply list_elem_of_lookup_1 in Hin as [k Hk].
      unfold import_materials, enumerate in Himport.
      apply import_loop_handles in Himport as [_ Hhandles].
      destruct (Hhandles k dmat Hk) as (bmat & w0 & w1 & _ & Hret).
      rewrite (failed_load_raises_at MC env filepath dmat texname w0) in Hret; done.
    + pose proof Himport as Hraise.
      unfold import_materials, enumerate in Hraise.
      apply import_loop_raises in Hraise as ->.
      exists w'. split; [done|]. unfold load, mbind, M_bind. by rewrite Himport.
  - intros (w' & Himport & _).
    unfold import_materials in Himport.
    assert (Hloop : ∀ (xs : list (nat * Material)) (acc : gmap nat BMat) w0,
      for_eachM
        (λ mats '(k, dmat),
           bmat ← import_material MC env dmat filepath; mret (<[k := bmat]> mats))
        xs acc w0 = (Raise (UnboundLocalError "teximg"), w') →
      ∃ dmat texname,
        dmat ∈ xs.*2
        ∧ find_texture env (mat_name dmat) (Os.dirname filepath) = Some texname
        ∧ images_load env texname = None).
    { induction xs as [|[k dmat] xs IH]; intros acc w0 H; [done|].
      cbn [for_eachM] in H. unfold mbind at 1, M_bind at 1 in H.
      destruct ((import_material MC env dmat filepath ≫= _) w0)
        as [[acc1|e1] w1] eqn:Hstep.
      - destruct (IH _ _ H) as (d & t & Hd & Hf & Hl). exists d, t.
        split; [|done]. cbn. apply elem_of_cons. by right.
      - unfold mbind, M_bind in Hstep.
        destruct (import_material MC env dmat filepath w0) as [[b|e2] w2] eqn:Himp;
          [done|].
        apply import_material_raises in Himp as [_ (t & Hf & Hl)].
        exists dmat, t. split; [|done]. cbn. apply elem_of_cons. by left. }
    destruct (Hloop _ _ _ Himport) as (dmat & texname & Hin & Hfound & Hload).
    exists dmat, texname. split; [|done].
    unfold enumerate in Hin. rewrite snd_zip in Hin; [done|].
    rewrite length_seq. done.
Qed.

(** [tiny_shape] next to an unreadable [shapes/red.png]. *)
Lemma unloadable_texture_ends_import_witness :
  ∃ w', import_materials torque_material unreadable_env tiny_shape shape_path empty_world
        = (Raise (UnboundLocalError "teximg"), w')
        ∧ load torque_material torque_primitive unreadable_env tiny_shape shape_path
            EMPTY false empty_world
          = (Raise (UnboundLocalError "teximg"), w').
Proof.
  apply (proj1 (unloadable_texture_ends_import torque_material torque_primitive
                  unreadable_env tiny_shape shape_path EMPTY false empty_world)).
  exists red, ["red.png"; "shapes"]. split; [apply elem_of_cons; by left|].
  split; reflexivity.
Defined.
